(** * ECAS downloader: the document harvesting and metadata extraction core

    A shallow embedding of [src/app/main.py] and the properties of its
    specification.  Python values are modelled as follows.

    - A [str] is a list of Unicode code points ([N]).  The classification of
      the code points below 128 is written out; for the others the functions
      consult a [unicode_db], the part of Python's Unicode database the
      program depends on.  It also says how the C library of the platform
      writes a year below 1000.  The development is parametric in it, so a
      theorem proved inside the section holds whatever the database says and
      on either kind of platform.
    - [re] is a backtracking matcher over a small regular-expression syntax
      (ordered alternatives, greedy repetitions, capture groups, word
      boundaries), the subset the patterns of the source use.
    - [datetime.strptime] follows [_strptime]: the format becomes a regular
      expression, which has to match the whole string, and the fields found
      have to form a date of the proleptic Gregorian calendar.
    - [float] is IEEE 754 binary64 ([PrimFloat]).
    - The file system is the set of the paths of its files and directories;
      a [pathlib.Path] is the list of its components.
    - The browser, the portal and the PDF reader are inputs: what a document
      row or a calendar cell shows, which file a click makes appear, and
      which of the steps of the browser end in an exception. *)

From Stdlib Require Import List Bool Arith NArith ZArith Lia String Ascii.
From Stdlib Require Import DecimalString Sorting.Sorted.
From Stdlib Require Import Floats.
Import ListNotations.

Set Implicit Arguments.
#[local] Set Warnings "-abstract-large-number".

(* ------------------------------------------------------------------ *)
(** ** Characters and strings *)

Definition char := N.
Definition str := list char.

(** A literal of the source, written as a Rocq string. *)
Definition u (s : string) : str := map N_of_ascii (list_ascii_of_string s).

(** One character of the source, written as a Rocq character. *)
Definition ch (a : ascii) : char := N_of_ascii a.

Definition c_quote : char := 34%N.      (* the double quote *)
Definition c_newline : char := 10%N.

(** What the program needs of the Unicode database for the code points from
    128 on ([unicodedata], [str.isspace], [str.isalpha], ...), and of the C
    library: [strftime] hands %Y to it, and for a year below 1000 glibc
    writes the number as it is (24) where other libraries fill it with
    zeros to four digits (0024). *)
Record unicode_db := UnicodeDb {
  uc_space : char -> bool;           (* Py_UNICODE_ISSPACE: str.isspace, \s, str.strip *)
  uc_alpha : char -> bool;           (* str.isalpha *)
  uc_upper : char -> bool;           (* str.isupper of a one-character string *)
  uc_alnum : char -> bool;           (* Py_UNICODE_ISALNUM: \w *)
  uc_decimal : char -> option N;     (* category Nd and the digit's value: \d, int() *)
  uc_tolower : char -> char;         (* the simple lower-case mapping: re.IGNORECASE *)
  uc_lower : char -> str;            (* str.lower *)
  uc_upper_full : char -> str;       (* str.upper *)
  libc_fills_year : bool             (* strftime: %Y below 1000 is zero-filled *)
}.

Definition is_ascii (c : char) : bool := (c <? 128)%N.
Definition in_range (lo hi c : char) : bool := ((lo <=? c) && (c <=? hi))%N.

Definition ascii_space (c : char) : bool :=
  in_range 9%N 13%N c || in_range 28%N 31%N c || (c =? 32)%N.
Definition ascii_digit (c : char) : bool := in_range 48%N 57%N c.
Definition ascii_isupper (c : char) : bool := in_range 65%N 90%N c.
Definition ascii_islower (c : char) : bool := in_range 97%N 122%N c.
Definition ascii_alpha (c : char) : bool := ascii_isupper c || ascii_islower c.
Definition ascii_tolower (c : char) : char := if ascii_isupper c then (c + 32)%N else c.
Definition ascii_toupper (c : char) : char := if ascii_islower c then (c - 32)%N else c.

Section Unicode.

Variable U : unicode_db.

Definition isspace (c : char) : bool := if is_ascii c then ascii_space c else uc_space U c.
Definition isalpha (c : char) : bool := if is_ascii c then ascii_alpha c else uc_alpha U c.
Definition isupper (c : char) : bool := if is_ascii c then ascii_isupper c else uc_upper U c.
Definition isdecimal (c : char) : bool :=
  if is_ascii c then ascii_digit c else match uc_decimal U c with Some _ => true | None => false end.
Definition isword (c : char) : bool :=
  if is_ascii c then ascii_alpha c || ascii_digit c || (c =? 95)%N else uc_alnum U c.
Definition tolower (c : char) : char := if is_ascii c then ascii_tolower c else uc_tolower U c.

(** The value [int] gives a decimal digit. *)
Definition digit_value (c : char) : option N :=
  if is_ascii c then (if ascii_digit c then Some (c - 48)%N else None) else uc_decimal U c.

(** [str.lower] and [str.upper]. *)
Definition lower (s : str) : str :=
  flat_map (fun c => if is_ascii c then [ascii_tolower c] else uc_lower U c) s.
Definition upper (s : str) : str :=
  flat_map (fun c => if is_ascii c then [ascii_toupper c] else uc_upper_full U c) s.

(** [str.strip()]. *)
Fixpoint lstrip (s : str) : str :=
  match s with
  | c :: t => if isspace c then lstrip t else s
  | [] => []
  end.
Definition rstrip (s : str) : str := rev (lstrip (rev s)).
Definition strip (s : str) : str := rstrip (lstrip s).

End Unicode.

(** [str.replace(old, new)] for a one-character [old]. *)
Definition replace (old : char) (new : str) (s : str) : str :=
  flat_map (fun c => if (c =? old)%N then new else [c]) s.

(** [sep.join(parts)]. *)
Fixpoint join (sep : str) (parts : list str) : str :=
  match parts with
  | [] => []
  | [p] => p
  | p :: rest => p ++ sep ++ join sep rest
  end.

Fixpoint str_eqb (a b : str) : bool :=
  match a, b with
  | [], [] => true
  | x :: a', y :: b' => (x =? y)%N && str_eqb a' b'
  | _, _ => false
  end.

Fixpoint starts_with (p s : str) : bool :=
  match p, s with
  | [], _ => true
  | x :: p', y :: s' => (x =? y)%N && starts_with p' s'
  | _ :: _, [] => false
  end.

(** [p in s] for strings. *)
Fixpoint contains (p s : str) : bool :=
  starts_with p s || match s with [] => false | _ :: t => contains p t end.

(** [str.splitlines()]: the line boundaries are \n, \r, \r\n, \v, \f, \x1c,
    \x1d, \x1e, \x85, U+2028 and U+2029. *)
Definition is_linebreak (c : char) : bool :=
  in_range 10%N 13%N c || in_range 28%N 30%N c || (c =? 133)%N || (c =? 8232)%N || (c =? 8233)%N.

Fixpoint splitlines_aux (cur : str) (s : str) : list str :=
  match s with
  | [] => match cur with [] => [] | _ => [rev cur] end
  | c :: t =>
      if is_linebreak c then
        match c, t with
        | 13%N, 10%N :: t' => rev cur :: splitlines_aux [] t'
        | _, _ => rev cur :: splitlines_aux [] t
        end
      else splitlines_aux (c :: cur) t
  end.
Definition splitlines (s : str) : list str := splitlines_aux [] s.

(* ------------------------------------------------------------------ *)
(** ** Regular expressions ([re])

    The syntax covers what the patterns of the source use.  A non-capturing
    group [(?:...)] is plain nesting; a capturing group carries its number. *)

Inductive citem :=
| IChar (c : char)               (* a character of a set *)
| IRange (lo hi : char)          (* lo-hi *)
| IDigit                         (* \d *)
| ISpace                         (* \s *)
| IWord.                         (* \w *)

Inductive regex :=
| Eps                                          (* the empty pattern *)
| Chr (c : char)                               (* a literal character *)
| OneOf (items : list citem)                      (* [...] and the classes *)
| NoneOf (items : list citem)                   (* [^...] *)
| Cat (r1 r2 : regex)
| Alt (r1 r2 : regex)                          (* r1|r2, r1 tried first *)
| Rep (lo : nat) (hi : option nat) (r : regex) (* greedy r{lo,hi}; hi = None is unbounded *)
| Grp (g : nat) (r : regex)                    (* capturing group number g *)
| Bnd.                                         (* \b *)

Definition cls_d : regex := OneOf [IDigit].
Definition cls_s : regex := OneOf [ISpace].
Definition cls_w : regex := OneOf [IWord].
Definition opt (r : regex) : regex := Rep 0 (Some 1) r.
Definition plus (r : regex) : regex := Rep 1 None r.
Definition star (r : regex) : regex := Rep 0 None r.
Definition times (n : nat) (r : regex) : regex := Rep n (Some n) r.

Fixpoint seq (rs : list regex) : regex :=
  match rs with
  | [] => Eps
  | [r] => r
  | r :: rest => Cat r (seq rest)
  end.

Fixpoint alts (rs : list regex) : regex :=
  match rs with
  | [] => OneOf []
  | [r] => r
  | r :: rest => Alt r (alts rest)
  end.

(** A literal text inside a pattern. *)
Definition lit (s : string) : regex := seq (map Chr (u s)).

(** The position of a match in progress: how many characters lie behind, the
    last of them (for [\b]), the characters ahead and the groups closed so
    far, each with its start and end. *)
Record mstate := MState {
  m_pos : nat;
  m_prev : option char;
  m_rest : str;
  m_caps : list (nat * (nat * nat))
}.

Definition advance (st : mstate) (c : char) (t : str) : mstate :=
  MState (S (m_pos st)) (Some c) t (m_caps st).

Definition set_cap (g : nat) (b e : nat) (st : mstate) : mstate :=
  MState (m_pos st) (m_prev st) (m_rest st) ((g, (b, e)) :: m_caps st).

Fixpoint get_cap (g : nat) (caps : list (nat * (nat * nat))) : option (nat * nat) :=
  match caps with
  | [] => None
  | (g', be) :: rest => if Nat.eqb g g' then Some be else get_cap g rest
  end.

(** [n] rounds of a relation between states. *)
Fixpoint iter (R : mstate -> mstate -> Prop) (n : nat) (st st' : mstate) : Prop :=
  match n with
  | 0 => st' = st
  | S n' => exists st1, R st st1 /\ iter R n' st1 st'
  end.

Section Regex.

Variable U : unicode_db.

(** [ic] is the flag re.IGNORECASE.  [sre_compile] lets it act on the cased
    characters of a pattern only; those of the patterns here are ASCII
    letters.  For such a letter the character read is lowered before it is
    compared, and [i] and [s] also match the dotless i (U+0131) and the
    long s (U+017F), their case equivalents.  Every other literal is
    compared as it is. *)
Definition chr_match (ic : bool) (p c : char) : bool :=
  if ic && ascii_alpha p then
    let l := tolower U c in
    let lp := ascii_tolower p in
    (l =? lp)%N || ((lp =? 105)%N && (l =? 305)%N) || ((lp =? 115)%N && (l =? 383)%N)
  else (c =? p)%N.

(** An item of a set.  The ranges of the patterns are ranges of digits and
    the classes know no case, so the flag matters for a letter only. *)
Definition item_match (ic : bool) (it : citem) (c : char) : bool :=
  match it with
  | IChar p => chr_match ic p c
  | IRange lo hi => in_range lo hi c
  | IDigit => isdecimal U c
  | ISpace => isspace U c
  | IWord => isword U c
  end.

Definition set_match (ic : bool) (items : list citem) (c : char) : bool :=
  existsb (fun it => item_match ic it c) items.

(** [\b]: exactly one of the two neighbours is a word character. *)
Definition at_boundary (st : mstate) : bool :=
  xorb (match m_prev st with Some c => isword U c | None => false end)
       (match m_rest st with c :: _ => isword U c | [] => false end).

(** A greedy repetition of a matcher [m], between [lo] and [hi] times: one
    more round first, the rest of the pattern ([k]) once that fails.  [fuel]
    bounds the rounds left, [cnt] counts the rounds made.  An unbounded
    repetition goes on only while its body consumes input. *)
Fixpoint rep_loop (m : mstate -> (mstate -> option mstate) -> option mstate)
         (lo : nat) (hi : option nat) (k : mstate -> option mstate)
         (fuel cnt : nat) (st : mstate) {struct fuel} : option mstate :=
  let stop := if lo <=? cnt then k st else None in
  match fuel with
  | 0 => stop
  | S fuel' =>
      match m st (fun st' =>
                    match hi with
                    | None =>
                        if m_pos st <? m_pos st'
                        then rep_loop m lo hi k fuel' (S cnt) st' else None
                    | Some _ => rep_loop m lo hi k fuel' (S cnt) st'
                    end) with
      | Some res => Some res
      | None => stop
      end
  end.

(** The matcher, in continuation-passing style: [k] is what remains to be
    matched after [r], and the first alternative whose continuation succeeds
    wins, as in a backtracking engine. *)
Fixpoint rmatch (ic : bool) (r : regex) (st : mstate)
         (k : mstate -> option mstate) {struct r} : option mstate :=
  match r with
  | Eps => k st
  | Chr p =>
      match m_rest st with
      | c :: t => if chr_match ic p c then k (advance st c t) else None
      | [] => None
      end
  | OneOf items =>
      match m_rest st with
      | c :: t => if set_match ic items c then k (advance st c t) else None
      | [] => None
      end
  | NoneOf items =>
      match m_rest st with
      | c :: t => if set_match ic items c then None else k (advance st c t)
      | [] => None
      end
  | Cat r1 r2 => rmatch ic r1 st (fun st' => rmatch ic r2 st' k)
  | Alt r1 r2 =>
      match rmatch ic r1 st k with
      | Some res => Some res
      | None => rmatch ic r2 st k
      end
  | Grp g r1 => rmatch ic r1 st (fun st' => k (set_cap g (m_pos st) (m_pos st') st'))
  | Bnd => if at_boundary st then k st else None
  | Rep lo hi r1 =>
      rep_loop (rmatch ic r1) lo hi k
               (match hi with Some h => h | None => List.length (m_rest st) end) 0 st
  end.

(** [st'] lies ahead of [st] in the same string. *)
Definition reaches (st st' : mstate) : Prop :=
  exists consumed,
    m_rest st = consumed ++ m_rest st' /\ m_pos st' = m_pos st + List.length consumed.

(** What a matcher has to satisfy: a result comes from the continuation,
    called on a state ahead. *)
Definition forward (m : mstate -> (mstate -> option mstate) -> option mstate) : Prop :=
  forall st k res, m st k = Some res -> exists st', reaches st st' /\ k st' = Some res.

Definition start_state (pos : nat) (prev : option char) (rest : str) : mstate :=
  MState pos prev rest [].

(** A match: where it starts and the state at its end. *)
Definition rmatch_at (ic : bool) (r : regex) (pos : nat) (prev : option char) (rest : str)
  : option mstate :=
  rmatch ic r (start_state pos prev rest) Some.

(** [re.search]: the leftmost position at which the pattern matches. *)
Fixpoint search_from (ic : bool) (r : regex) (pos : nat) (prev : option char) (rest : str)
  : option (nat * mstate) :=
  match rmatch_at ic r pos prev rest with
  | Some st' => Some (pos, st')
  | None =>
      match rest with
      | [] => None
      | c :: t => search_from ic r (S pos) (Some c) t
      end
  end.

Definition search (ic : bool) (r : regex) (s : str) : option (nat * mstate) :=
  search_from ic r 0 None s.

(** [re.finditer]: the matches from left to right, each search starting where
    the match before it ended (one character on after an empty match). *)
Fixpoint finditer_from (fuel : nat) (ic : bool) (r : regex)
         (pos : nat) (prev : option char) (rest : str) : list (nat * mstate) :=
  match fuel with
  | 0 => []
  | S fuel' =>
      match search_from ic r pos prev rest with
      | None => []
      | Some (b, st') =>
          (b, st') ::
          (if b <? m_pos st' then
             finditer_from fuel' ic r (m_pos st') (m_prev st') (m_rest st')
           else
             match m_rest st' with
             | [] => []
             | c :: t => finditer_from fuel' ic r (S (m_pos st')) (Some c) t
             end)
      end
  end.

Definition finditer (ic : bool) (r : regex) (s : str) : list (nat * mstate) :=
  finditer_from (S (List.length s)) ic r 0 None s.

(** [re.sub(r, repl, s)] for a replacement without group references. *)
Fixpoint sub_from (fuel : nat) (ic : bool) (r : regex) (repl : str)
         (pos : nat) (prev : option char) (rest : str) : str :=
  match fuel with
  | 0 => rest
  | S fuel' =>
      match rmatch_at ic r pos prev rest with
      | Some st' =>
          if pos <? m_pos st' then
            repl ++ sub_from fuel' ic r repl (m_pos st') (m_prev st') (m_rest st')
          else
            match rest with
            | [] => repl
            | c :: t => repl ++ c :: sub_from fuel' ic r repl (S pos) (Some c) t
            end
      | None =>
          match rest with
          | [] => []
          | c :: t => c :: sub_from fuel' ic r repl (S pos) (Some c) t
          end
      end
  end.

Definition re_sub (ic : bool) (r : regex) (repl : str) (s : str) : str :=
  sub_from (S (List.length s)) ic r repl 0 None s.

End Regex.

Section Matches.

Variable U : unicode_db.

(** What a match of [r] from [st] to [st'] is, without the search: the
    relation the matcher computes in. *)
Fixpoint matches (ic : bool) (r : regex) (st st' : mstate) {struct r} : Prop :=
  match r with
  | Eps => st' = st
  | Chr p =>
      exists c t, m_rest st = c :: t /\ chr_match U ic p c = true /\ st' = advance st c t
  | OneOf items =>
      exists c t, m_rest st = c :: t /\ set_match U ic items c = true /\ st' = advance st c t
  | NoneOf items =>
      exists c t, m_rest st = c :: t /\ set_match U ic items c = false /\ st' = advance st c t
  | Cat r1 r2 => exists st1, matches ic r1 st st1 /\ matches ic r2 st1 st'
  | Alt r1 r2 => matches ic r1 st st' \/ matches ic r2 st st'
  | Rep lo hi r1 =>
      exists n, lo <= n /\ match hi with Some h => n <= h | None => True end
                /\ iter (matches ic r1) n st st'
  | Grp g r1 => exists st1, matches ic r1 st st1 /\ st' = set_cap g (m_pos st) (m_pos st1) st1
  | Bnd => at_boundary U st = true /\ st' = st
  end.

End Matches.

(** [st'] lies ahead of [st] by the characters [w]. *)
Definition steps (st : mstate) (w : str) (st' : mstate) : Prop :=
  m_rest st = w ++ m_rest st' /\ m_pos st' = m_pos st + List.length w.

(** A state of a match in [text]: the characters ahead are those of [text]
    from the position of the state on. *)
Definition at_text (text : str) (st : mstate) : Prop := m_rest st = skipn (m_pos st) text.

(** The text between two positions of [s]. *)
Definition substr (s : str) (b e : nat) : str := firstn (e - b) (skipn b s).

(** [m.group(g)] of a match found in [s]; [None] when the group took no part. *)
Definition group (s : str) (st : mstate) (g : nat) : option str :=
  match get_cap g (m_caps st) with
  | Some (b, e) => Some (substr s b e)
  | None => None
  end.

(** [m.group(0)]. *)
Definition group0 (s : str) (m : nat * mstate) : str :=
  substr s (fst m) (m_pos (snd m)).

(* ------------------------------------------------------------------ *)
(** ** Dates: [datetime.strptime] and [strftime] *)

Record date := Date { year : nat; month : nat; day : nat }.

Definition is_leap (y : nat) : bool :=
  (y mod 4 =? 0) && (negb (y mod 100 =? 0) || (y mod 400 =? 0)).

Definition days_in_month (y m : nat) : nat :=
  match m with
  | 1 | 3 | 5 | 7 | 8 | 10 | 12 => 31
  | 4 | 6 | 9 | 11 => 30
  | 2 => if is_leap y then 29 else 28
  | _ => 0
  end.

(** What the constructor [datetime.date(y, m, d)] accepts. *)
Definition valid_date (y m d : nat) : bool :=
  (1 <=? y) && (y <=? 9999) && (1 <=? m) && (m <=? 12) && (1 <=? d) && (d <=? days_in_month y m).

(** The order of [datetime.date]. *)
Definition date_leb (a b : date) : bool :=
  (year a <? year b)
  || ((year a =? year b)
      && ((month a <? month b) || ((month a =? month b) && (day a <=? day b)))).

Definition digit_char (n : nat) : char := (48 + N.of_nat (n mod 10))%N.

(** A number in decimal, zero-filled to two and to four places. *)
Definition pad2 (n : nat) : str := [digit_char (n / 10); digit_char n].
Definition pad4 (n : nat) : str :=
  [digit_char (n / 1000); digit_char (n / 100); digit_char (n / 10); digit_char n].

(** A number below 1000 in decimal, as it is. *)
Definition year_plain (y : nat) : str :=
  if y <? 10 then [digit_char y]
  else if y <? 100 then pad2 y
  else [digit_char (y / 100); digit_char (y / 10); digit_char y].

(** [dt.strftime("%m-%d-%Y")].  From the year 1000 on %Y has its four
    digits; below, the C library decides whether it is zero-filled. *)
Definition strftime_mdY (U : unicode_db) (dt : date) : str :=
  pad2 (month dt) ++ u "-" ++ pad2 (day dt) ++ u "-"
  ++ (if (1000 <=? year dt) || libc_fills_year U then pad4 (year dt)
      else year_plain (year dt)).

(** The groups of the regular expression of a format, one per directive. *)
Definition gY := 1.
Definition gy := 2.
Definition gm := 3.
Definition gd := 4.
Definition gb := 5.
Definition gB := 6.

Definition a_month : list string :=
  ["jan"; "feb"; "mar"; "apr"; "may"; "jun"; "jul"; "aug"; "sep"; "oct"; "nov"; "dec"]%string.
Definition f_month : list string :=
  ["january"; "february"; "march"; "april"; "may"; "june"; "july"; "august";
   "september"; "october"; "november"; "december"]%string.

(** [sorted(names, key=len, reverse=True)]: a stable sort, longest first. *)
Fixpoint insert_by_len (x : string) (l : list string) : list string :=
  match l with
  | [] => [x]
  | y :: rest =>
      if String.length y <? String.length x then x :: l else y :: insert_by_len x rest
  end.
Definition sort_by_len (l : list string) : list string :=
  fold_left (fun acc x => insert_by_len x acc) l [].

(** [TimeRE.__seqToRE]. *)
Definition seqToRE (g : nat) (names : list string) : regex :=
  Grp g (alts (map lit (sort_by_len names))).

Definition rng (lo hi : ascii) : citem := IRange (ch lo) (ch hi).
Definition chr (a : ascii) : regex := Chr (ch a).

(** The regular expression of a directive, as [TimeRE.__init__] has it:
    %m is [1[0-2]|0[1-9]|[1-9]], %d is [3[0-1]|[1-2]\d|0[1-9]|[1-9]| [1-9]],
    %Y is [\d\d\d\d], %y is [\d\d], %b and %B are the month names. *)
Definition directive_regex (d : char) : regex :=
  if (d =? ch "m")%N then
    Grp gm (alts [Cat (chr "1") (OneOf [rng "0" "2"]); Cat (chr "0") (OneOf [rng "1" "9"]);
                  OneOf [rng "1" "9"]])
  else if (d =? ch "d")%N then
    Grp gd (alts [Cat (chr "3") (OneOf [rng "0" "1"]); Cat (OneOf [rng "1" "2"]) cls_d;
                  Cat (chr "0") (OneOf [rng "1" "9"]); OneOf [rng "1" "9"];
                  Cat (chr " ") (OneOf [rng "1" "9"])])
  else if (d =? ch "Y")%N then Grp gY (seq [cls_d; cls_d; cls_d; cls_d])
  else if (d =? ch "y")%N then Grp gy (seq [cls_d; cls_d])
  else if (d =? ch "b")%N then seqToRE gb a_month
  else if (d =? ch "B")%N then seqToRE gB f_month
  else OneOf [].

(** [TimeRE.pattern]: a run of white space in the format stands for [\s+], a
    directive for its expression, any other character for itself. *)
Fixpoint format_regex (in_space : bool) (fmt : str) : regex :=
  match fmt with
  | [] => Eps
  | c :: t =>
      if (c =? ch "%")%N then
        match t with
        | d :: t' => Cat (directive_regex d) (format_regex false t')
        | [] => OneOf []
        end
      else if ascii_space c then
        if in_space then format_regex true t
        else Cat (plus cls_s) (format_regex true t)
      else Cat (Chr c) (format_regex false t)
  end.

Fixpoint index_of (x : str) (l : list string) (i : nat) : option nat :=
  match l with
  | [] => None
  | y :: rest => if str_eqb x (u y) then Some i else index_of x rest (S i)
  end.

Section Dates.

Variable U : unicode_db.

(** [int(s)] for a string of decimal digits, white space around it ignored. *)
Fixpoint digits_value (acc : nat) (s : str) : option nat :=
  match s with
  | [] => Some acc
  | c :: t =>
      match digit_value U c with
      | Some v => digits_value (10 * acc + N.to_nat v) t
      | None => None
      end
  end.
Definition parse_int (s : str) : option nat :=
  match strip U s with
  | [] => None
  | t => digits_value 0 t
  end.

Definition field_int (s : str) (st : mstate) (g : nat) : option (option nat) :=
  match group s st g with
  | None => Some None
  | Some t => match parse_int t with Some n => Some (Some n) | None => None end
  end.

Definition field_month (s : str) (st : mstate) (g : nat) (names : list string)
  : option (option nat) :=
  match group s st g with
  | None => Some None
  | Some t => match index_of (lower U t) names 1 with Some n => Some (Some n) | None => None end
  end.

Definition first_some (l : list (option nat)) (default : nat) : nat :=
  fold_right (fun o acc => match o with Some n => n | None => acc end) default l.

(** The date the fields of a match give: a two-digit year up to 68 belongs
    to the 2000s, the others to the 1900s; a field that is missing has its
    default; [None] when a field is no number or month name, or when the
    fields are no date. *)
Definition date_of_fields (s : str) (st : mstate) : option date :=
  match field_int s st gY, field_int s st gy, field_int s st gm,
        field_month s st gb a_month, field_month s st gB f_month,
        field_int s st gd with
  | Some fY, Some fy, Some fm, Some fb, Some fB, Some fd =>
      let y2 := match fy with
                | Some n => Some (if n <=? 68 then 2000 + n else 1900 + n)
                | None => None
                end in
      let y := first_some [fY; y2] 1900 in
      let m := first_some [fm; fb; fB] 1 in
      let d := first_some [fd] 1 in
      if valid_date y m d then Some (Date y m d) else None
  | _, _, _, _, _, _ => None
  end.

(** [datetime.strptime(s, fmt)], [None] when it raises ValueError: the
    expression of the format has to match at the start of [s] and to end at
    its end, and the fields have to give a date. *)
Definition strptime (s fmt : str) : option date :=
  match rmatch_at U true (format_regex false fmt) 0 None s with
  | None => None
  | Some st =>
      if negb (m_pos st =? List.length s) then None
      else date_of_fields s st
  end.

(** The formats [parse_date_any] tries, in order. *)
Definition fmts : list str :=
  map u ["%m/%d/%Y"; "%m-%d-%Y"; "%Y-%m-%d"; "%m/%d/%y"; "%b %d, %Y"; "%B %d, %Y"]%string.

(** The first format that parses [s], reformatted. *)
Fixpoint try_formats (s : str) (fs : list str) : option str :=
  match fs with
  | [] => None
  | f :: rest =>
      match strptime s f with
      | Some dt => Some (strftime_mdY U dt)
      | None => try_formats s rest
      end
  end.

(** [\b(\d{4})-(\d{2})-(\d{2})\b] *)
Definition re_iso : regex :=
  seq [Bnd; Grp 1 (times 4 cls_d); chr "-"; Grp 2 (times 2 cls_d); chr "-";
       Grp 3 (times 2 cls_d); Bnd].

(** [\b(\d{1,2})/(\d{1,2})/(\d{4})\b] *)
Definition re_us : regex :=
  seq [Bnd; Grp 1 (Rep 1 (Some 2) cls_d); chr "/"; Grp 2 (Rep 1 (Some 2) cls_d); chr "/";
       Grp 3 (times 4 cls_d); Bnd].

(** A fallback of [parse_date_any]: search [r], parse what it matched. *)
Definition search_and_parse (r : regex) (fmt : string) (s : str) : option str :=
  match search U false r s with
  | Some m =>
      match strptime (group0 s m) (u fmt) with
      | Some dt => Some (strftime_mdY U dt)
      | None => None
      end
  | None => None
  end.

Definition parse_date_any (s : str) : str :=
  match s with
  | [] => []
  | _ =>
      let s := strip U s in
      match try_formats s fmts with
      | Some r => r
      | None =>
          match search_and_parse re_iso "%Y-%m-%d" s with
          | Some r => r
          | None =>
              match search_and_parse re_us "%m/%d/%Y" s with
              | Some r => r
              | None => s
              end
          end
      end
  end.

End Dates.

(* ------------------------------------------------------------------ *)
(** ** The renderings of a date

    What [strftime] writes for the six formats of [parse_date_any]; for the
    month-name formats also with the day not zero-filled, as in
    "March 5, 2024". *)

Definition month_abbr (m : nat) : string :=
  nth (m - 1) ["Jan"; "Feb"; "Mar"; "Apr"; "May"; "Jun"; "Jul"; "Aug"; "Sep"; "Oct"; "Nov";
               "Dec"]%string ""%string.
Definition month_name (m : nat) : string :=
  nth (m - 1) ["January"; "February"; "March"; "April"; "May"; "June"; "July"; "August";
               "September"; "October"; "November"; "December"]%string ""%string.

(** The day without a leading zero. *)
Definition day_plain (d : nat) : str := if d <? 10 then [digit_char d] else pad2 d.

(** MM/DD/YYYY *)
Definition render_slash (dt : date) : str :=
  pad2 (month dt) ++ u "/" ++ pad2 (day dt) ++ u "/" ++ pad4 (year dt).
(** MM-DD-YYYY *)
Definition render_dash (dt : date) : str :=
  pad2 (month dt) ++ u "-" ++ pad2 (day dt) ++ u "-" ++ pad4 (year dt).
(** YYYY-MM-DD *)
Definition render_iso (dt : date) : str :=
  pad4 (year dt) ++ u "-" ++ pad2 (month dt) ++ u "-" ++ pad2 (day dt).
(** MM/DD/YY *)
Definition render_short (dt : date) : str :=
  pad2 (month dt) ++ u "/" ++ pad2 (day dt) ++ u "/" ++ pad2 (year dt mod 100).
(** Mon DD, YYYY with the day as given *)
Definition render_abbr (dd : str) (dt : date) : str :=
  u (month_abbr (month dt)) ++ u " " ++ dd ++ u ", " ++ pad4 (year dt).
(** Month DD, YYYY with the day as given *)
Definition render_full (dd : str) (dt : date) : str :=
  u (month_name (month dt)) ++ u " " ++ dd ++ u ", " ++ pad4 (year dt).

(** The year [strptime] reads from the two digits of %y. *)
Definition pivot_year (y : nat) : nat :=
  if y mod 100 <=? 68 then 2000 + y mod 100 else 1900 + y mod 100.

(* ------------------------------------------------------------------ *)
(** ** The text functions of the source *)

(** [list(dict.fromkeys(l))]: the first occurrence of every element, in order. *)
Fixpoint dedup_from (seen : list str) (l : list str) : list str :=
  match l with
  | [] => []
  | x :: t =>
      if existsb (str_eqb x) seen then dedup_from seen t
      else x :: dedup_from (x :: seen) t
  end.
Definition dedup (l : list str) : list str := dedup_from [] l.

Definition nonempty {A : Type} (l : list A) : bool := match l with [] => false | _ => true end.

(** The group (?P<date>...) of the patterns of [extract_relevant_dates_text]. *)
Definition g_date := 2.

(** [(?:\w{3,9}\s+\d{1,2},\s+\d{4})|(?:\d{1,2}/\d{1,2}/\d{2,4})] *)
Definition re_date : regex :=
  Alt (seq [Rep 3 (Some 9) cls_w; plus cls_s; Rep 1 (Some 2) cls_d; chr ","; plus cls_s;
            times 4 cls_d])
      (seq [Rep 1 (Some 2) cls_d; chr "/"; Rep 1 (Some 2) cls_d; chr "/";
            Rep 2 (Some 4) cls_d]).

(** The five patterns with their labels, in the order of the source:
    - [(hearing (?:is )?set (?:for|on)\s+(?P<date>...))]
    - [(individual hearing on\s+(?P<date>...))]
    - [(master hearing on\s+(?P<date>...))]
    - [((?:applications?|relief|brief|evidence|documents?)\s+(?:are\s+)?due\s+(?:by|on)\s+(?P<date>...))]
    - [(deadline(?:s)?\s+(?:set|is|are)\s+(?:for|on)\s+(?P<date>...))] *)
Definition patterns : list (regex * string) :=
  [ (Grp 1 (seq [lit "hearing "; opt (lit "is "); lit "set "; Alt (lit "for") (lit "on");
                 plus cls_s; Grp g_date re_date]), "HEARING");
    (Grp 1 (seq [lit "individual hearing on"; plus cls_s; Grp g_date re_date]), "HEARING");
    (Grp 1 (seq [lit "master hearing on"; plus cls_s; Grp g_date re_date]), "HEARING");
    (Grp 1 (seq [alts [Cat (lit "application") (opt (chr "s")); lit "relief"; lit "brief";
                       lit "evidence"; Cat (lit "document") (opt (chr "s"))];
                 plus cls_s; opt (Cat (lit "are") (plus cls_s)); lit "due"; plus cls_s;
                 Alt (lit "by") (lit "on"); plus cls_s; Grp g_date re_date]), "DUE");
    (Grp 1 (seq [lit "deadline"; opt (chr "s"); plus cls_s;
                 alts [lit "set"; lit "is"; lit "are"]; plus cls_s;
                 Alt (lit "for") (lit "on"); plus cls_s; Grp g_date re_date]), "DEADLINE")
  ]%string.

(** [\b(MOTION|ORDER|NOTICE|EVIDENCE|APPLICATION|BRIEF|DECLARATION|EXHIBIT|SUBMISSION)\b] *)
Definition re_keyword : regex :=
  seq [Bnd;
       Grp 1 (alts (map lit ["MOTION"; "ORDER"; "NOTICE"; "EVIDENCE"; "APPLICATION"; "BRIEF";
                             "DECLARATION"; "EXHIBIT"; "SUBMISSION"]%string));
       Bnd].

(** A Python [int] as a [float]; exact below 2^53. *)
Definition float_of_nat (n : nat) : float := PrimFloat.of_uint63 (Uint63.of_Z (Z.of_nat n)).

Definition kw_weight : float := 0x1.3333333333333p-3%float.   (* 0.15 *)

(** The characters [sanitize] takes out of a name: the slash, the
    backslash, the colon, the star, the question mark, the double quote,
    the angle brackets and the bar. *)
Definition reserved_chars : list char :=
  [ch "/"; ch "\"; ch ":"; ch "*"; ch "?"; c_quote; ch "<"; ch ">"; ch "|"].
Definition is_reserved (c : char) : bool := existsb (N.eqb c) reserved_chars.

Section Text.

Variable U : unicode_db.

Definition sanitize (s : str) : str :=
  match s with
  | [] => []
  | _ =>
      let s := replace (ch ":") (u " - ") (replace (ch "\") (u "-") (replace (ch "/") (u "-") s)) in
      let s := replace (ch "*") [] s in
      let s := replace (ch "?") [] s in
      let s := replace c_quote (u "'") s in
      let s := replace (ch "<") (u "(") s in
      let s := replace (ch ">") (u ")") s in
      let s := replace (ch "|") (u "-") s in
      strip U (re_sub U false (plus cls_s) (u " ") s)
  end.

(** The findings of one pattern: a tagged date per match whose group [date]
    is not empty. *)
Definition findings_of (text : str) (pl : regex * string) : list str :=
  flat_map
    (fun m : nat * mstate =>
       match group text (snd m) g_date with
       | Some (c :: t) => [u (snd pl) ++ u " " ++ parse_date_any U (c :: t)]
       | _ => []
       end)
    (finditer U true (fst pl) text).

Definition extract_relevant_dates_text (text : str) : str :=
  match text with
  | [] => []
  | _ =>
      let findings := flat_map (findings_of text) patterns in
      join (u " ; ") (dedup (filter nonempty findings))
  end.

(** The score of a line, [None] for a line the loop passes over (shorter
    than 8 characters or without a letter). *)
Definition line_score (ln : str) : option float :=
  if List.length ln <? 8 then None
  else
    let letters := filter (isalpha U) ln in
    match letters with
    | [] => None
    | _ =>
        let upper_ratio :=
          (float_of_nat (List.length (filter (isupper U) letters))
           / float_of_nat (List.length letters))%float in
        let kw_bonus :=
          match search U true re_keyword ln with
          | Some _ => kw_weight
          | None => 0%float
          end in
        Some (upper_ratio + kw_bonus)%float
    end.

(** The loop of [guess_pleading_name_from_text] over the lines. *)
Fixpoint best_line (lines : list str) (candidate : str) (best_score : float) : str :=
  match lines with
  | [] => candidate
  | ln :: rest =>
      match line_score ln with
      | None => best_line rest candidate best_score
      | Some score =>
          if (best_score <? score)%float then best_line rest ln score
          else best_line rest candidate best_score
      end
  end.

(** [[ln.strip() for ln in text.splitlines() if ln.strip()]] *)
Definition nonblank_lines (text : str) : list str :=
  filter nonempty (map (strip U) (splitlines text)).

(** [lines[:60]] *)
Definition first_lines (text : str) : list str := firstn 60 (nonblank_lines text).

Definition guess_pleading_name_from_text (text : str) : str :=
  match text with
  | [] => []
  | _ => best_line (first_lines text) [] 0%float
  end.

(** A qualifying line: at least 8 characters, at least one of them a letter. *)
Definition qualifying (ln : str) : bool :=
  (8 <=? List.length ln) && existsb (isalpha U) ln.

Definition build_new_filename (label pleading_name file_date notes : str) : str :=
  let parts :=
    (match label with [] => [] | _ => [sanitize label] end)
    ++ (match pleading_name with [] => [] | _ => [sanitize pleading_name] end)
    ++ (match file_date with [] => [] | _ => [parse_date_any U file_date] end)
    ++ (match notes with [] => [] | _ => [sanitize notes] end) in
  let name := match join (u " - ") parts with
              | [] => u "ECAS_Document"
              | n => n
              end in
  name ++ u ".pdf".

End Text.

(* ------------------------------------------------------------------ *)
(** ** Paths and the file system ([pathlib], POSIX flavour) *)

(** An absolute path: its components below the root. *)
Definition path := list str.

Fixpoint split_on (sep : char) (cur : str) (s : str) : list str :=
  match s with
  | [] => [rev cur]
  | c :: t => if (c =? sep)%N then rev cur :: split_on sep [] t else split_on sep (c :: cur) t
  end.

(** The components of a path string: empty components and [.] are dropped,
    [..] is kept, as [PurePosixPath] does. *)
Definition components (s : str) : list str :=
  filter (fun c => nonempty c && negb (str_eqb c (u "."))) (split_on (ch "/") [] s).

(** [base / s]: an [s] that starts with a slash replaces [base]. *)
Definition joinpath (base : path) (s : str) : path :=
  match s with
  | 47%N :: _ => components s
  | _ => base ++ components s
  end.

(** [p.name] *)
Definition name (p : path) : str := last p [].

(** [p.parent] *)
Definition parent (p : path) : path := removelast p.

(** [name.rfind('.')] *)
Fixpoint rfind_dot (s : str) (i : nat) (found : option nat) : option nat :=
  match s with
  | [] => found
  | c :: t => rfind_dot t (S i) (if (c =? ch ".")%N then Some i else found)
  end.

(** Where [p.suffix] starts: the last dot of the name, unless it is the
    first or the last character. *)
Definition suffix_start (n : str) : nat :=
  match rfind_dot n 0 None with
  | Some i => if (0 <? i) && (i <? List.length n - 1) then i else List.length n
  | None => List.length n
  end.

Definition stem (p : path) : str := firstn (suffix_start (name p)) (name p).
Definition suffix (p : path) : str := skipn (suffix_start (name p)) (name p).

Fixpoint ends_with_aux (p s : str) : bool :=
  str_eqb p s || match s with [] => false | _ :: t => ends_with_aux p t end.
Definition ends_with (p s : str) : bool := ends_with_aux p s.

Fixpoint path_eqb (a b : path) : bool :=
  match a, b with
  | [], [] => true
  | x :: a', y :: b' => str_eqb x y && path_eqb a' b'
  | _, _ => false
  end.

Definition mem_path (p : path) (l : list path) : bool := existsb (path_eqb p) l.

(** The file system: the regular files and the directories there are.  The
    root is a directory. *)
Record filesys := FS { fs_files : list path; fs_dirs : list path }.

Definition is_dir (fs : filesys) (p : path) : bool :=
  match p with [] => true | _ => mem_path p (fs_dirs fs) end.

(** [p.exists()] *)
Definition path_exists (fs : filesys) (p : path) : bool :=
  mem_path p (fs_files fs) || is_dir fs p.

Definition remove_path (p : path) (l : list path) : list path :=
  filter (fun q => negb (path_eqb p q)) l.

(** [src.rename(dst)] for a regular file [src], [None] when [os.rename]
    raises: the source is missing, the directory of the target is, or the
    target is a directory.  A target that is a regular file is replaced. *)
Definition rename (fs : filesys) (src dst : path) : option filesys :=
  if mem_path src (fs_files fs) && is_dir fs (parent dst) && negb (is_dir fs dst)
  then Some (FS (remove_path dst (remove_path src (fs_files fs)) ++ [dst]) (fs_dirs fs))
  else None.

(** The browser writes a file: a new regular file unless the name is taken. *)
Definition create_file (fs : filesys) (p : path) : filesys :=
  if path_exists fs p then fs else FS (fs_files fs ++ [p]) (fs_dirs fs).

(** [f" ({i})"] *)
Definition decimal (i : nat) : str := u (NilZero.string_of_uint (Nat.to_uint i)).
Definition numbered (i : nat) : str := u " (" ++ decimal i ++ u ")".

(** A string without a slash names one component. *)
Definition slash_free (s : str) : bool := negb (existsb (N.eqb 47%N) s).

(** How many entries have a name of at least [n] characters: what the loop
    over the candidate names uses up. *)
Definition longer (fs : filesys) (n : nat) : nat :=
  List.length (filter (fun q => n <=? List.length (name q)) (fs_files fs ++ fs_dirs fs)).

(* ------------------------------------------------------------------ *)
(** ** The case document harvester *)

(** A row of the log ([log_rows]). *)
Record log_record := LogRecord {
  a_number : str;
  document_label : str;
  pleading_name : str;
  filing_date : str;
  relevant_dates : str;
  filename_final : str
}.

(** A row of the documents table, as the browser shows it: the text of the
    label and of the date cell ([None] when reading it raises), whether
    there is a download button, and the files the click makes appear in the
    download directory before the 120 seconds of polling are over, each
    with the text of its first page, in the order the poll that sees them
    enumerates them.  No file stands for a download that does not arrive in
    time. *)
Record doc_row := DocRow {
  row_label : option str;
  row_date : option str;
  row_button : bool;
  row_files : list (str * str)
}.

(** What became of a row. *)
Inductive row_outcome :=
| NoButton                 (* no download button: passed over *)
| TimedOut                 (* no new file within the poll: passed over *)
| RowError                 (* an exception: reported, then the next row *)
| Logged (r : log_record).

Section Harvester.

Variable U : unicode_db.
Variable download_dir : path.

(** [set(self.download_dir.glob("*.pdf"))] *)
Definition glob_pdf (fs : filesys) : list path :=
  filter (fun p => path_eqb (parent p) download_dir && nonempty p
                   && ends_with (u ".pdf") (name p))
         (fs_files fs ++ fs_dirs fs).

(** [list(now - before)] *)
Definition new_entries (before now : list path) : list path :=
  filter (fun p => negb (mem_path p before)) now.

(** The loop [while final_path.exists()].  Every candidate is longer than
    the one before, so the loop ends after at most as many rounds as the
    file system has entries; [fuel] counts them. *)
Fixpoint free_path (fuel : nat) (fs : filesys) (final_path : path) (i : nat) : option path :=
  if path_exists fs final_path then
    match fuel with
    | 0 => None
    | S fuel' =>
        free_path fuel' fs
          (joinpath download_dir (stem final_path ++ numbered i ++ suffix final_path)) (S i)
    end
  else Some final_path.

Definition entries (fs : filesys) : nat := List.length (fs_files fs) + List.length (fs_dirs fs).

Definition text_of (files : list (str * str)) (n : str) : str :=
  match find (fun f => str_eqb (fst f) n) files with
  | Some f => snd f
  | None => []
  end.

(** The file system once the files of a row have appeared. *)
Definition after_click (fs : filesys) (r : doc_row) : filesys :=
  fold_left (fun f n => create_file f (download_dir ++ [fst n])) (row_files r) fs.

(** The body of the loop over the rows of [download_case_docs]: the new file
    system and what became of the row. *)
Definition download_row (anumber : str) (fs : filesys) (r : doc_row) : filesys * row_outcome :=
  match row_label r, row_date r with
  | Some l, Some d =>
      let label := strip U l in
      let file_date := strip U d in
      if negb (row_button r) then (fs, NoButton)
      else
        let before := glob_pdf fs in
        let fs1 := after_click fs r in
        match new_entries before (glob_pdf fs1) with
        | [] => (fs1, TimedOut)
        | downloaded :: _ =>
            let text := text_of (row_files r) (name downloaded) in
            let pleading := guess_pleading_name_from_text U text in
            let notes := if contains (u "ORDER") (upper U label)
                         then extract_relevant_dates_text U text else [] in
            let newname := build_new_filename U label pleading file_date notes in
            match free_path (S (entries fs1)) fs1 (joinpath download_dir newname) 2 with
            | None => (fs1, RowError)
            | Some final_path =>
                match rename fs1 downloaded final_path with
                | None => (fs1, RowError)
                | Some fs2 =>
                    (fs2, Logged (LogRecord anumber label pleading file_date notes
                                            (name final_path)))
                end
            end
        end
  | _, _ => (fs, RowError)
  end.

(** The harvester's state: the file system and the log. *)
Record hstate := HState { h_fs : filesys; h_log : list log_record }.

Definition log_outcome (log : list log_record) (o : row_outcome) : list log_record :=
  match o with
  | Logged r => log ++ [r]
  | _ => log
  end.

(** [download_case_docs]: the rows in order. *)
Fixpoint download_case_docs (anumber : str) (rows : list doc_row) (st : hstate) : hstate :=
  match rows with
  | [] => st
  | r :: rest =>
      let (fs', o) := download_row anumber (h_fs st) r in
      download_case_docs anumber rest (HState fs' (log_outcome (h_log st) o))
  end.

End Harvester.

(** [main]: the cases one after the other, on one log and one directory. *)
Definition harvest (U : unicode_db) (download_dir : path)
           (cases : list (str * list doc_row)) (st : hstate) : hstate :=
  fold_left (fun s c => download_case_docs U download_dir (fst c) (snd c) s) cases st.

(** The invariant of the log: the download directory is there, no two
    records carry the same file name, and the file of every record is in the
    download directory under the name of the record. *)
Definition log_consistent (download_dir : path) (st : hstate) : Prop :=
  is_dir (h_fs st) download_dir = true
  /\ NoDup (map filename_final (h_log st))
  /\ (forall rec, In rec (h_log st) ->
        In (download_dir ++ [filename_final rec]) (fs_files (h_fs st))).

(** The dates of the rows have normal forms without a slash. *)
Definition plain_dates (U : unicode_db) (rows : list doc_row) : Prop :=
  forall r d, In r rows -> row_date r = Some d ->
              slash_free (parse_date_any U (strip U d)) = true.

(* ------------------------------------------------------------------ *)
(** ** The calendar traversal *)

(** A page of the calendar, as the browser shows it: for every day cell the
    text of the hearing popup ([None] when the cell raises before the text
    is read, as when no popup appears), and whether the click on the control
    for the next month succeeds. *)
Record cal_page := CalPage {
  page_cells : list (option str);
  page_next : bool
}.

(** The portal: the page shown after so many advances. *)
Definition portal := nat -> cal_page.

(** [Hearing Date:\s*([^\n]+)], with re.I *)
Definition re_hearing_date : regex :=
  seq [lit "Hearing Date:"; star cls_s; Grp 1 (plus (NoneOf [IChar c_newline]))].

(** [(\d{3}[-\s]?\d{3}[-\s]?\d{3})] without its group. *)
Definition re_nine : regex :=
  seq [times 3 cls_d; opt (OneOf [IChar (ch "-"); ISpace]); times 3 cls_d;
       opt (OneOf [IChar (ch "-"); ISpace]); times 3 cls_d].

(** [A[#\-\s]*\s*(\d{3}[-\s]?\d{3}[-\s]?\d{3})] *)
Definition re_anumber : regex :=
  seq [chr "A"; star (OneOf [IChar (ch "#"); IChar (ch "-"); ISpace]); star cls_s;
       Grp 1 re_nine].

(** [[^0-9]] *)
Definition re_nondigit : regex := NoneOf [rng "0" "9"].

(** The order of [str]: by code points, a prefix first. *)
Fixpoint str_leb (a b : str) : bool :=
  match a, b with
  | [], _ => true
  | _ :: _, [] => false
  | x :: a', y :: b' => (x <? y)%N || ((x =? y)%N && str_leb a' b')
  end.

Fixpoint insert_sorted (x : str) (l : list str) : list str :=
  match l with
  | [] => [x]
  | y :: rest => if str_leb x y then x :: l else y :: insert_sorted x rest
  end.

(** [sorted(l)] *)
Definition sorted (l : list str) : list str := fold_right insert_sorted [] l.

(** [s.add(x)] on a set kept as a list without repetitions. *)
Definition set_add (x : str) (s : list str) : list str :=
  if existsb (str_eqb x) s then s else s ++ [x].

(** A set without repetitions whose members are made of ASCII digits. *)
Definition clean (s : list str) : Prop :=
  NoDup s /\ forall a, In a s -> forallb ascii_digit a = true.

Section Calendar.

Variable U : unicode_db.

(** [re.findall] for a pattern with one group: the text of group 1 of every
    match. *)
Definition findall1 (ic : bool) (r : regex) (s : str) : list str :=
  map (fun m : nat * mstate =>
         match group s (snd m) 1 with Some t => t | None => [] end)
      (finditer U ic r s).

(** The value after "Hearing Date:", stripped; empty when there is none. *)
Definition the_date (text : str) : str :=
  match search U true re_hearing_date text with
  | Some m => match group text (snd m) 1 with Some t => strip U t | None => [] end
  | None => []
  end.

(** Whether the hearing of a popup lies in the range; a date that does not
    parse counts as in range. *)
Definition in_date_range (start_date end_date : date) (text : str) : bool :=
  match strptime U (the_date text) (u "%m/%d/%Y") with
  | Some dt => date_leb start_date dt && date_leb dt end_date
  | None => true
  end.

(** The identifiers of a popup, separators removed. *)
Definition popup_anums (text : str) : list str :=
  map (re_sub U false re_nondigit []) (findall1 false re_anumber text).

(** One day cell: its identifiers join the set when its hearing is in range. *)
Definition visit_cell (start_date end_date : date) (a_numbers : list str) (cell : option str)
  : list str :=
  match cell with
  | None => a_numbers
  | Some text =>
      if in_date_range start_date end_date text
      then fold_left (fun s a => set_add a s) (popup_anums text) a_numbers
      else a_numbers
  end.

(** The loop [for cell in cells] over the day cells of a page. *)
Definition visit_page (start_date end_date : date) (a_numbers : list str) (pg : cal_page)
  : list str :=
  fold_left (visit_cell start_date end_date) (page_cells pg) a_numbers.

(** The loop [while months_checked < 60]; [remaining] is 60 minus
    [months_checked], [page] the number of advances made so far.  The result
    is the set and the number of advances. *)
Fixpoint months_loop (remaining : nat) (ui : portal) (start_date end_date : date)
         (page : nat) (a_numbers : list str) : list str * nat :=
  match remaining with
  | 0 => (a_numbers, page)
  | S remaining' =>
      let a_numbers' := visit_page start_date end_date a_numbers (ui page) in
      if page_next (ui page)
      then months_loop remaining' ui start_date end_date (S page) a_numbers'
      else (a_numbers', page)
  end.

Definition iterate_hearings_collect_anums (ui : portal) (start_date end_date : date)
  : list str :=
  sorted (fst (months_loop 60 ui start_date end_date 0 [])).

(** The number of clicks on the control for the next month that succeed. *)
Definition page_advances (ui : portal) (start_date end_date : date) : nat :=
  snd (months_loop 60 ui start_date end_date 0 []).

(** The identifiers gathered on the [n] pages from [page] on, added to
    [a_numbers]. *)
Definition gathered (ui : portal) (start_date end_date : date) (page n : nat)
           (a_numbers : list str) : list str :=
  fold_left (fun acc q => visit_page start_date end_date acc (ui q)) (List.seq page n) a_numbers.

End Calendar.

(** The suffixes of [k] rounds of the loop over the candidate names, from
    the number [i] on: [ (i) (i+1) ...]. *)
Definition nested (i k : nat) : str := List.concat (map numbered (List.seq i k)).

(** The least number of characters a match of [r] takes. *)
Fixpoint min_len (r : regex) : nat :=
  match r with
  | Eps | Bnd => 0
  | Chr _ | OneOf _ | NoneOf _ => 1
  | Cat r1 r2 => min_len r1 + min_len r2
  | Alt r1 r2 => Nat.min (min_len r1) (min_len r2)
  | Rep lo _ r1 => lo * min_len r1
  | Grp _ r1 => min_len r1
  end.

(** Every match of [r], the case respected, takes the character [c]. *)
Fixpoint needs_chr (c : char) (r : regex) : bool :=
  match r with
  | Chr p => (p =? c)%N
  | Cat r1 r2 => needs_chr c r1 || needs_chr c r2
  | Alt r1 r2 => needs_chr c r1 && needs_chr c r2
  | Rep lo _ r1 => (1 <=? lo) && needs_chr c r1
  | Grp _ r1 => needs_chr c r1
  | _ => false
  end.

(** A pattern no match of which is without a decimal digit: read off the
    pattern, [\d] has one, a sequence when one of its parts has, an
    alternative when both sides have, a repetition when it is made at least
    once of a part that has. *)
Fixpoint needs_digit (r : regex) : bool :=
  match r with
  | OneOf [IDigit] => true
  | Cat r1 r2 => needs_digit r1 || needs_digit r2
  | Alt r1 r2 => needs_digit r1 && needs_digit r2
  | Rep lo _ r1 => (1 <=? lo) && needs_digit r1
  | Grp _ r1 => needs_digit r1
  | _ => false
  end.

Section Collapse.

Variable U : unicode_db.

(** What [re.sub(r"\s+", " ", s)] makes of [s]: one space for every run of
    white space.  [in_space] says that the character before was white
    space. *)
Fixpoint collapse (in_space : bool) (s : str) : str :=
  match s with
  | [] => []
  | c :: t =>
      if isspace U c then (if in_space then collapse true t else 32%N :: collapse true t)
      else c :: collapse false t
  end.

(** No white space at the front. *)
Definition head_ok (s : str) : bool :=
  match s with
  | c :: _ => negb (isspace U c)
  | [] => true
  end.

(** The white space of [s] is single spaces (U+0020). *)
Fixpoint tidy (s : str) : bool :=
  match s with
  | [] => true
  | c :: t => (if isspace U c then (c =? 32)%N && head_ok t else true) && tidy t
  end.

End Collapse.

(** The state after the characters [w], which lie ahead of [st]. *)
Fixpoint run_over (st : mstate) (w : str) : mstate :=
  match w with
  | [] => st
  | c :: w' => run_over (advance st c (skipn 1 (m_rest st))) w'
  end.

(** [s] is empty or starts with a character outside the class [P]. *)
Definition head_free (P : char -> bool) (s : str) : bool :=
  match s with
  | c :: _ => negb (P c)
  | [] => true
  end.

(** Any character but the line feed: [[^\n]]. *)
Definition not_newline (c : char) : bool := negb (c =? c_newline)%N.

(** The line ends here: at the end of the text or before a line feed. *)
Definition ends_line (s : str) : bool :=
  match s with
  | c :: _ => (c =? c_newline)%N
  | [] => true
  end.

(** What [os.mkdir] raises. *)
Inductive os_error := FileExistsError | FileNotFoundError | NotADirectoryError.

(** The way down to a directory, component by component from [seen] on:
    [None] when every component is a directory, else the error of the first
    that is none, a regular file or nothing at all. *)
Fixpoint walk (fs : filesys) (seen rest : path) : option os_error :=
  match rest with
  | [] => None
  | c :: t =>
      if is_dir fs (seen ++ [c]) then walk fs (seen ++ [c]) t
      else if mem_path (seen ++ [c]) (fs_files fs) then Some NotADirectoryError
      else Some FileNotFoundError
  end.

(** [os.mkdir(p)]: the directory above has to be there, [p] itself not. *)
Definition os_mkdir (fs : filesys) (p : path) : filesys + os_error :=
  match walk fs [] (parent p) with
  | Some e => inr e
  | None =>
      if path_exists fs p then inr FileExistsError
      else inl (FS (fs_files fs) (fs_dirs fs ++ [p]))
  end.

(** [Path.mkdir(parents=..., exist_ok=...)] as [pathlib] has it: [os.mkdir];
    on FileNotFoundError, with [parents], the directory above is made first
    and [os.mkdir] tried again; on another OSError nothing is raised when
    [exist_ok] holds and the path is a directory.  [fuel] bounds the way up;
    [None] stands for the exception. *)
Fixpoint mkdir (fuel : nat) (parents exist_ok : bool) (fs : filesys) (p : path)
  : option filesys :=
  match os_mkdir fs p with
  | inl fs' => Some fs'
  | inr FileNotFoundError =>
      if negb parents || path_eqb (parent p) p then None
      else
        match fuel with
        | 0 => None
        | S fuel' =>
            match mkdir fuel' true true fs (parent p) with
            | Some fs1 => mkdir fuel' false exist_ok fs1 p
            | None => None
            end
        end
  | inr _ => if negb exist_ok || negb (is_dir fs p) then None else Some fs
  end.

(** [ensure_dir(p)]: [p.mkdir(parents=True, exist_ok=True)]. *)
Definition ensure_dir (fs : filesys) (p : path) : option filesys :=
  mkdir (List.length p) true true fs p.

(** A file system as the operating system keeps it: what there is lies in a
    directory, and a regular file is no directory. *)
Definition well_formed (fs : filesys) : bool :=
  forallb (fun q => nonempty q && is_dir fs (parent q) && negb (is_dir fs q)) (fs_files fs)
  && forallb (fun q => is_dir fs (parent q)) (fs_dirs fs).

(** The paths on the way to [p], from the top down, [p] last. *)
Definition prefixes (p : path) : list path :=
  map (fun k => firstn k p) (List.seq 1 (List.length p)).

(** A regular file is in the way to [p]. *)
Definition blocked (fs : filesys) (p : path) : bool :=
  existsb (fun q => mem_path q (fs_files fs)) (prefixes p).

(** The directories on the way to [p] that are not there. *)
Definition missing (fs : filesys) (p : path) : list path :=
  filter (fun q => negb (is_dir fs q)) (prefixes p).

(** [Path(s).resolve()] in a file system without symbolic links: the path
    from the working directory, a [..] taking the component before it away. *)
Fixpoint normalize (acc p : path) : path :=
  match p with
  | [] => acc
  | c :: t =>
      if str_eqb c (u "..") then normalize (removelast acc) t else normalize (acc ++ [c]) t
  end.
Definition resolve (cwd : path) (s : str) : path := normalize [] (joinpath cwd s).

(** Writing a file, as [to_excel] does: the directory has to be there and
    the path to be no directory; a file of that path is replaced.  [None]
    stands for the exception. *)
Definition write_file (fs : filesys) (p : path) : option filesys :=
  if is_dir fs (parent p) && negb (is_dir fs p)
  then Some (FS (remove_path p (fs_files fs) ++ [p]) (fs_dirs fs))
  else None.

(** [f"ecas_download_log_{start_date}_{end_date}.xlsx"]; [str] of a date is
    its ISO form. *)
Definition log_name (start_date end_date : date) : str :=
  u "ecas_download_log_" ++ render_iso start_date ++ u "_" ++ render_iso end_date
  ++ u ".xlsx".

(** What the steps of the browser come to that the source has outside a
    [try]: [true] for a step that ends, [false] for one that ends in an
    exception (a file that is not there, a driver that cannot be installed,
    a wait that runs out of time, a browser that was closed). *)
Record session := Session {
  selectors_read : bool;   (* __init__: selectors.json is opened and read as JSON *)
  browser_started : bool;  (* start(): the driver is installed and Chrome opens *)
  logged_in : bool;        (* login(): the page loads and every wait ends in time *)
  calendar_opened : bool   (* iterate_hearings_collect_anums: goto_calendar ends in
                              time and find_elements answers on every page *)
}.

(** [ECASScraper.__init__]: the download directory, resolved once more, is
    made, then the selectors are read.  The result is the file system with
    [self.download_dir]; [None] stands for an exception. *)
Definition scraper_init (b : session) (fs : filesys) (download_dir : path)
  : option (filesys * path) :=
  let self_download_dir := normalize [] download_dir in
  match ensure_dir fs self_download_dir with
  | Some fs' => if selectors_read b then Some (fs', self_download_dir) else None
  | None => None
  end.

(** The loop of [main] over the identifiers.  [docs a] is what the portal
    shows for the case [a]: the rows of its documents, or [None] when the
    way to them (lines 220 to 227 of the source: the cases tab, the search,
    the case, its documents tab) ends in an exception, which ends the
    loop and [main] with it. *)
Fixpoint download_all (U : unicode_db) (download_dir : path)
         (docs : str -> option (list doc_row)) (anums : list str) (st : hstate)
  : option hstate :=
  match anums with
  | [] => Some st
  | a :: rest =>
      match docs a with
      | Some rows =>
          download_all U download_dir docs rest (download_case_docs U download_dir a rows st)
      | None => None
      end
  end.

(** [main], from the answers to its questions on: the two dates and the
    download folder ([start], [end_], [out_dir], as typed), the working
    directory, what the steps of the browser come to, what the portal shows
    (the calendar, and for every identifier the rows of its documents) and
    the file system.  The result is the file system and the log at the end,
    with the path of the log file; [None] stands for an exception that ends
    the program: a date that is not read, a download folder that cannot be
    made, a step of the browser that fails, a case whose documents are not
    reached, a log file that cannot be written.  The modules the program
    imports are taken to be installed, the file system to have no symbolic
    links and to allow what is asked of it. *)
Definition main (U : unicode_db) (b : session) (start end_ out_dir : str) (cwd : path)
           (ui : portal) (docs : str -> option (list doc_row)) (fs : filesys)
  : option (hstate * path) :=
  match strptime U (strip U start) (u "%Y-%m-%d"),
        strptime U (strip U end_) (u "%Y-%m-%d") with
  | Some start_date, Some end_date =>
      let download_dir :=
        resolve cwd (match strip U out_dir with [] => u "downloads_ecas" | s => s end) in
      match ensure_dir fs download_dir with
      | Some fs0 =>
          match scraper_init b fs0 download_dir with
          | Some (fs1, self_download_dir) =>
              if browser_started b && logged_in b && calendar_opened b then
                let anums := iterate_hearings_collect_anums U ui start_date end_date in
                match download_all U self_download_dir docs anums (HState fs1 []) with
                | Some st =>
                    let xlsx := joinpath download_dir (log_name start_date end_date) in
                    match write_file (h_fs st) xlsx with
                    | Some fs2 => Some (HState fs2 (h_log st), xlsx)
                    | None => None
                    end
                | None => None
                end
              else None
          | None => None
          end
      | None => None
      end
  | _, _ => None
  end.

(* ------------------------------------------------------------------ *)
(** ** A Unicode database for the examples

    The entries of the Unicode database the examples below touch: the white
    space beyond ASCII, the letters of Latin-1, the Arabic-Indic digits
    U+0660 to U+0669, and the case mappings of the Kelvin sign and of the
    dotted capital I.  The C library is glibc. *)
Definition ucd : unicode_db :=
  UnicodeDb
    (fun c => (c =? 133)%N || (c =? 160)%N || (c =? 5760)%N || in_range 8192%N 8202%N c
              || (c =? 8232)%N || (c =? 8233)%N || (c =? 8239)%N || (c =? 8287)%N
              || (c =? 12288)%N)
    (fun c => (c =? 170)%N || (c =? 181)%N || (c =? 186)%N || in_range 192%N 214%N c
              || in_range 216%N 246%N c || in_range 248%N 255%N c)
    (fun c => in_range 192%N 214%N c || in_range 216%N 222%N c)
    (fun c => (c =? 170)%N || (c =? 181)%N || (c =? 186)%N || in_range 192%N 214%N c
              || in_range 216%N 246%N c || in_range 248%N 255%N c
              || in_range 1632%N 1641%N c)
    (fun c => if in_range 1632%N 1641%N c then Some (c - 1632)%N else None)
    (fun c => if in_range 192%N 214%N c || in_range 216%N 222%N c then (c + 32)%N
              else if (c =? 8490)%N then 107%N
              else if (c =? 304)%N then 105%N
              else c)
    (fun c => if in_range 192%N 214%N c || in_range 216%N 222%N c then [(c + 32)%N]
              else if (c =? 8490)%N then [107%N]
              else if (c =? 304)%N then [105%N; 775%N]
              else [c])
    (fun c => if in_range 224%N 246%N c || in_range 248%N 254%N c then [(c - 32)%N]
              else if (c =? 223)%N then [83%N; 83%N]
              else if (c =? 255)%N then [376%N]
              else if (c =? 181)%N then [924%N]
              else [c])
    false.

(* ------------------------------------------------------------------ *)
(** ** Inputs of the examples *)

Definition nl : str := [c_newline].

(** The download directory of the examples. *)
Definition out : path := [u "downloads_ecas"].

(** A row whose click makes one file appear. *)
Definition row_of (label file_date : string) (file : string) (first_page : str) : doc_row :=
  DocRow (Some (u label)) (Some (u file_date)) true [(u file, first_page)].

(** A popup with an identifier whose first three digits are the
    Arabic-Indic digits one, two and three (U+0661 to U+0663). *)
Definition popup_arabic_indic : str :=
  u "Hearing Date: 03/05/2024" ++ nl ++ u "A# " ++ [1633; 1634; 1635]%N ++ u "-456-789".

(** A popup whose hearing date is no date. *)
Definition popup_no_date : str := u "Hearing Date: to be set" ++ nl ++ u "A# 123-456-789".

(** A portal with one page, the popup without a date, and no control for the
    next month. *)
Definition one_page_portal : portal := fun _ => CalPage [Some popup_no_date] false.

(** Three rows of which the second brings no file. *)
Definition three_rows : list doc_row :=
  [row_of "Order" "2024-03-05" "doc1.pdf" (u "NOTICE OF HEARING");
   DocRow (Some (u "Motion")) (Some (u "2024-03-06")) true [];
   row_of "Brief" "2024-03-07" "doc3.pdf" (u "RESPONDENT'S BRIEF")].

(** A portal with one page and one hearing, on 5 March 2024. *)
Definition march_portal : portal :=
  fun _ => CalPage [Some (u "Hearing Date: 03/05/2024" ++ nl ++ u "A# 123-456-789")] false.


(** A session in which every step of the browser ends. *)
Definition fine_session : session := Session true true true true.

(** A home directory and nothing in it. *)
Definition home : path := [u "home"; u "clerk"].
Definition empty_home : filesys := FS [] [[u "home"]; home].
(* ================================================================== *)
(** * Properties *)

(** ** The examples of the specification, evaluated *)

Example build_new_filename_example :
  build_new_filename ucd (u "Order") (u "NOTICE OF HEARING") (u "2024-03-05") []
  = u "Order - NOTICE OF HEARING - 03-05-2024.pdf".
Proof. vm_compute. reflexivity. Qed.

Example guess_pleading_name_example :
  guess_pleading_name_from_text ucd
    (u "Case No. 123" ++ nl ++ u "MOTION TO CONTINUE PROCEEDINGS" ++ nl ++ u "filed by respondent")
  = u "MOTION TO CONTINUE PROCEEDINGS".
Proof. vm_compute. reflexivity. Qed.

Example parse_date_any_examples :
  map (parse_date_any ucd) [u "2024-03-05"; u "03/05/2024"; u "March 5, 2024"]
  = [u "03-05-2024"; u "03-05-2024"; u "03-05-2024"].
Proof. vm_compute. reflexivity. Qed.

(** C2 (the code at the failing input).  Three documents of one case with
    the same label, title and filing date: the second is named with the
    suffix [ (2)], and the third, for which the base name and its [ (2)]
    variant both exist, gets the nested suffix [ (2) (3)], because the loop
    builds each candidate from the candidate before it. *)
Theorem C2_collision_suffixes_nest :
  map filename_final
      (h_log (download_case_docs ucd out (u "123456789")
                [row_of "Order" "2024-03-05" "doc1.pdf" (u "NOTICE OF HEARING");
                 row_of "Order" "2024-03-05" "doc2.pdf" (u "NOTICE OF HEARING");
                 row_of "Order" "2024-03-05" "doc3.pdf" (u "NOTICE OF HEARING")]
                (HState (FS [] [out]) [])))
  = [u "Order - NOTICE OF HEARING - 03-05-2024.pdf";
     u "Order - NOTICE OF HEARING - 03-05-2024 (2).pdf";
     u "Order - NOTICE OF HEARING - 03-05-2024 (2) (3).pdf"].
Proof. vm_compute. reflexivity. Qed.

(** C1 (the code at the failing input).  The download directory holds a
    subdirectory [A - N].  A document with the label [A] and the filing date
    [N/A] is moved to [A - N/A.pdf] below the download directory and logged
    as [A.pdf]; the next document, with the label [A] and no date, is moved
    to [A.pdf] in the download directory and logged as [A.pdf] too.  Two
    records carry the same file name, and the first names a file the
    download directory does not hold when the record is made. *)
Theorem C1_two_records_one_filename :
  let st0 := HState (FS [] [out; out ++ [u "A - N"]]) [] in
  let st1 := download_case_docs ucd out (u "123456789")
               [row_of "A" "N/A" "doc1.pdf" []] st0 in
  let st2 := download_case_docs ucd out (u "123456789")
               [row_of "A" "" "doc2.pdf" []] st1 in
  map filename_final (h_log st1) = [u "A.pdf"]
  /\ fs_files (h_fs st1) = [out ++ [u "A - N"; u "A.pdf"]]
  /\ path_exists (h_fs st1) (out ++ [u "A.pdf"]) = false
  /\ map filename_final (h_log st2) = [u "A.pdf"; u "A.pdf"]
  /\ harvest ucd out
       [(u "123456789", [row_of "A" "N/A" "doc1.pdf" []; row_of "A" "" "doc2.pdf" []])] st0
     = st2.
Proof. vm_compute. repeat split; reflexivity. Qed.

(** C6 (the code at the failing input).  [\d] matches every Unicode decimal
    digit, [[^0-9]] removes all but the ASCII ones: the identifier collected
    from the popup has six characters. *)
Theorem C6_six_digit_identifier :
  iterate_hearings_collect_anums ucd
    (fun _ => CalPage [Some popup_arabic_indic] false) (Date 2024 1 1) (Date 2024 12 31)
  = [u "456789"].
Proof. vm_compute. reflexivity. Qed.

(* ------------------------------------------------------------------ *)
(** ** Strings, sets and sorting *)

Lemma str_eqb_eq (a b : str) : str_eqb a b = true <-> a = b.
Proof.
  revert b; induction a as [|x a IH]; intros [|y b]; simpl; split; intro H;
    try reflexivity; try discriminate.
  - apply andb_true_iff in H as [Hx Hab]. apply N.eqb_eq in Hx. apply IH in Hab. congruence.
  - injection H as -> ->. rewrite N.eqb_refl. apply IH. reflexivity.
Qed.

Lemma str_eqb_refl (a : str) : str_eqb a a = true.
Proof. apply str_eqb_eq. reflexivity. Qed.

Lemma str_eqb_neq (a b : str) : str_eqb a b = false <-> a <> b.
Proof.
  split.
  - intros H E. subst. rewrite str_eqb_refl in H. discriminate.
  - intro H. destruct (str_eqb a b) eqn:E; [|reflexivity].
    apply str_eqb_eq in E. contradiction.
Qed.

Lemma existsb_str_eqb (x : str) (l : list str) : existsb (str_eqb x) l = true <-> In x l.
Proof.
  rewrite existsb_exists. split.
  - intros [y [Hy E]]. apply str_eqb_eq in E. subst. exact Hy.
  - intro H. exists x. split; [exact H | apply str_eqb_refl].
Qed.

Lemma path_eqb_eq (a b : path) : path_eqb a b = true <-> a = b.
Proof.
  revert b; induction a as [|x a IH]; intros [|y b]; simpl; split; intro H;
    try reflexivity; try discriminate.
  - apply andb_true_iff in H as [Hx Hab]. apply str_eqb_eq in Hx. apply IH in Hab. congruence.
  - injection H as -> ->. rewrite str_eqb_refl. apply IH. reflexivity.
Qed.

Lemma path_eqb_refl (a : path) : path_eqb a a = true.
Proof. apply path_eqb_eq. reflexivity. Qed.

Lemma mem_path_In (p : path) (l : list path) : mem_path p l = true <-> In p l.
Proof.
  unfold mem_path. rewrite existsb_exists. split.
  - intros [q [Hq E]]. apply path_eqb_eq in E. subst. exact Hq.
  - intro H. exists p. split; [exact H | apply path_eqb_refl].
Qed.

Lemma set_add_In (x a : str) (s : list str) : In a (set_add x s) <-> a = x \/ In a s.
Proof.
  unfold set_add. destruct (existsb (str_eqb x) s) eqn:E.
  - apply existsb_str_eqb in E. split; [tauto|]. intros [->|H]; assumption.
  - rewrite in_app_iff. simpl. split; [intros [H|[H|[]]]; auto | intros [H|H]; auto].
Qed.

Lemma set_add_NoDup (x : str) (s : list str) : NoDup s -> NoDup (set_add x s).
Proof.
  intro H. unfold set_add. destruct (existsb (str_eqb x) s) eqn:E; [exact H|].
  apply NoDup_app; [exact H | repeat constructor; simpl; tauto | ].
  intros a Ha [<-|[]]. apply existsb_str_eqb in Ha. congruence.
Qed.

Lemma fold_set_add_In (l : list str) (s : list str) (a : str) :
  In a (fold_left (fun s a => set_add a s) l s) <-> In a l \/ In a s.
Proof.
  revert s; induction l as [|x l IH]; intro s; simpl; [tauto|].
  rewrite IH, set_add_In. split; intros [H|H]; auto; destruct H; auto.
Qed.

Lemma fold_set_add_NoDup (l : list str) (s : list str) :
  NoDup s -> NoDup (fold_left (fun s a => set_add a s) l s).
Proof.
  revert s; induction l as [|x l IH]; intros s H; simpl; [exact H|].
  apply IH, set_add_NoDup, H.
Qed.

Lemma insert_sorted_In (x a : str) (l : list str) : In a (insert_sorted x l) <-> a = x \/ In a l.
Proof.
  induction l as [|y l IH]; simpl.
  - split; [intros [H|[]]; auto | intros [H|[]]; auto].
  - destruct (str_leb x y); simpl; [split; intros [H|H]; auto|].
    rewrite IH. split; [intros [H|[H|H]]; auto | intros [H|[H|H]]; auto].
Qed.

Lemma sorted_In (a : str) (l : list str) : In a (sorted l) <-> In a l.
Proof.
  induction l as [|x l IH]; simpl; [tauto|].
  unfold sorted in *. simpl. rewrite insert_sorted_In, IH. split; intros [H|H]; auto.
Qed.

Lemma str_leb_total (a b : str) : str_leb a b = false -> str_leb b a = true.
Proof.
  revert b. induction a as [|x a IH]; intros [|y b]; simpl; intro H;
    try reflexivity; try discriminate.
  apply orb_false_iff in H as [Hlt H].
  apply N.ltb_ge in Hlt.
  destruct (N.eqb_spec x y) as [->|Hne].
  - simpl in H. rewrite N.eqb_refl, (IH b H). apply orb_true_r.
  - replace (y <? x)%N with true by (symmetry; apply N.ltb_lt; lia). reflexivity.
Qed.

Lemma str_leb_trans (a b c : str) :
  str_leb a b = true -> str_leb b c = true -> str_leb a c = true.
Proof.
  revert b c. induction a as [|x a IH]; intros [|y b] [|z c]; simpl; intros H1 H2;
    try reflexivity; try discriminate.
  apply orb_true_iff in H1, H2. apply orb_true_iff.
  destruct H1 as [H1|H1], H2 as [H2|H2].
  - left. apply N.ltb_lt in H1, H2. apply N.ltb_lt. lia.
  - apply andb_true_iff in H2 as [E _]. apply N.eqb_eq in E. subst z. left. exact H1.
  - apply andb_true_iff in H1 as [E _]. apply N.eqb_eq in E. subst y. left. exact H2.
  - apply andb_true_iff in H1 as [E1 H1]. apply andb_true_iff in H2 as [E2 H2].
    apply N.eqb_eq in E1, E2. subst. right. rewrite N.eqb_refl. simpl. eapply IH; eassumption.
Qed.

Lemma insert_sorted_ordered (x : str) (l : list str) :
  StronglySorted (fun a b => str_leb a b = true) l ->
  StronglySorted (fun a b => str_leb a b = true) (insert_sorted x l).
Proof.
  induction 1 as [|y l Hs IH Hall]; simpl.
  - repeat constructor.
  - destruct (str_leb x y) eqn:E.
    + constructor; [constructor; assumption|].
      constructor; [exact E|].
      rewrite Forall_forall in *. intros z Hz. eapply str_leb_trans; [exact E|]. apply Hall, Hz.
    + constructor; [exact IH|].
      rewrite Forall_forall in *. intros z Hz. apply insert_sorted_In in Hz as [->|Hz].
      * apply str_leb_total, E.
      * apply Hall, Hz.
Qed.

Lemma sorted_ordered (l : list str) :
  StronglySorted (fun a b => str_leb a b = true) (sorted l).
Proof.
  unfold sorted. induction l as [|x l IH]; simpl; [constructor|].
  apply insert_sorted_ordered, IH.
Qed.

Lemma insert_sorted_NoDup (x : str) (l : list str) :
  ~ In x l -> NoDup l -> NoDup (insert_sorted x l).
Proof.
  intros Hx Hl. induction Hl as [|y l Hy Hl IH]; simpl.
  - repeat constructor. intros [].
  - destruct (str_leb x y).
    + constructor; [exact Hx | constructor; assumption].
    + constructor.
      * rewrite insert_sorted_In. intros [->|H]; [apply Hx; left; reflexivity | contradiction].
      * apply IH. intro H. apply Hx. right. exact H.
Qed.

Lemma sorted_NoDup (l : list str) : NoDup l -> NoDup (sorted l).
Proof.
  unfold sorted. induction 1 as [|x l Hx Hl IH]; simpl; [constructor|].
  apply insert_sorted_NoDup; [|exact IH]. intro H. apply Hx. apply (sorted_In x l), H.
Qed.

(* ------------------------------------------------------------------ *)
(** ** The calendar traversal *)

Section CalendarProperties.

Variable U : unicode_db.
Variables start_date end_date : date.

Lemma visit_cell_mono (acc : list str) (cell : option str) (a : str) :
  In a acc -> In a (visit_cell U start_date end_date acc cell).
Proof.
  intro H. destruct cell as [text|]; simpl; [|exact H].
  destruct (in_date_range U start_date end_date text); [|exact H].
  apply fold_set_add_In. right. exact H.
Qed.

Lemma visit_cells_mono (cs : list (option str)) (acc : list str) (a : str) :
  In a acc -> In a (fold_left (visit_cell U start_date end_date) cs acc).
Proof.
  revert acc. induction cs as [|c cs IH]; intros acc H; simpl.
  - exact H.
  - apply IH, visit_cell_mono, H.
Qed.

Lemma visit_page_mono (acc : list str) (pg : cal_page) (a : str) :
  In a acc -> In a (visit_page U start_date end_date acc pg).
Proof. apply visit_cells_mono. Qed.

Lemma visit_page_cell (acc : list str) (pg : cal_page) (cell : option str) (a : str) :
  In cell (page_cells pg) ->
  (forall acc', In a (visit_cell U start_date end_date acc' cell)) ->
  In a (visit_page U start_date end_date acc pg).
Proof.
  unfold visit_page. revert acc. induction (page_cells pg) as [|c cs IH]; intros acc Hin Hcell.
  - destruct Hin.
  - simpl. destruct Hin as [->|Hin].
    + apply visit_cells_mono, Hcell.
    + apply IH; assumption.
Qed.

Lemma months_loop_mono (ui : portal) (remaining page : nat) (acc : list str) (a : str) :
  In a acc -> In a (fst (months_loop U remaining ui start_date end_date page acc)).
Proof.
  revert page acc. induction remaining as [|n IH]; intros page acc H; simpl.
  - exact H.
  - destruct (page_next (ui page)); simpl.
    + apply IH, visit_page_mono, H.
    + apply visit_page_mono, H.
Qed.

(** The loop makes at most [remaining] advances. *)
Lemma months_loop_advances (ui : portal) (remaining page : nat) (acc : list str) :
  page <= snd (months_loop U remaining ui start_date end_date page acc) <= page + remaining.
Proof.
  revert page acc. induction remaining as [|n IH]; intros page acc; simpl.
  - lia.
  - destruct (page_next (ui page)); simpl; [|lia].
    specialize (IH (S page) (visit_page U start_date end_date acc (ui page))). lia.
Qed.

(** The loop stops at the first page whose control for the next month fails,
    with what the pages up to it gave. *)
Lemma months_loop_stops (ui : portal) (remaining page k : nat) (acc : list str) :
  k < remaining ->
  (forall q, page <= q < page + k -> page_next (ui q) = true) ->
  page_next (ui (page + k)) = false ->
  months_loop U remaining ui start_date end_date page acc
  = (gathered U ui start_date end_date page (S k) acc, page + k).
Proof.
  revert page k acc. induction remaining as [|n IH]; intros page k acc Hk Hbefore Hstop.
  - lia.
  - cbn [months_loop]. destruct k as [|k].
    + rewrite Nat.add_0_r in *. rewrite Hstop. reflexivity.
    + rewrite (Hbefore page) by lia.
      rewrite (IH (S page) k).
      * rewrite Nat.add_succ_r. reflexivity.
      * lia.
      * intros q Hq. apply Hbefore. lia.
      * rewrite Nat.add_succ_r in Hstop. exact Hstop.
Qed.

(** The loop reaches every page that lies behind working controls, and a
    cell of such a page leaves its identifiers in the set. *)
Lemma months_loop_reaches (ui : portal) (remaining page p : nat) (acc : list str)
      (cell : option str) (a : str) :
  page <= p < page + remaining ->
  (forall q, page <= q < p -> page_next (ui q) = true) ->
  In cell (page_cells (ui p)) ->
  (forall acc', In a (visit_cell U start_date end_date acc' cell)) ->
  In a (fst (months_loop U remaining ui start_date end_date page acc)).
Proof.
  revert page acc. induction remaining as [|n IH]; intros page acc Hp Hbefore Hin Hcell.
  - lia.
  - cbn [months_loop]. destruct (Nat.eq_dec page p) as [->|Hne].
    + assert (Hv : In a (visit_page U start_date end_date acc (ui p)))
        by (eapply visit_page_cell; eassumption).
      destruct (page_next (ui p)); simpl; [apply months_loop_mono|]; exact Hv.
    + rewrite (Hbefore page) by lia.
      apply IH; try assumption; try lia. intros q Hq. apply Hbefore. lia.
Qed.

(** C9.  The traversal is a total function of the portal's behaviour: it
    makes at most 60 advances, and when the control for the next month is
    missing or fails on a page it ends there and returns, sorted, the
    identifiers gathered on the pages visited up to and including it. *)
Theorem C9_traversal_bounded (ui : portal) :
  page_advances U ui start_date end_date <= 60
  /\ forall p,
       p < 60 ->
       (forall q, q < p -> page_next (ui q) = true) ->
       page_next (ui p) = false ->
       page_advances U ui start_date end_date = p
       /\ iterate_hearings_collect_anums U ui start_date end_date
          = sorted (gathered U ui start_date end_date 0 (S p) []).
Proof.
  split.
  - unfold page_advances.
    pose proof (months_loop_advances ui 60 0 []) as H. lia.
  - intros p Hp Hbefore Hstop.
    unfold page_advances, iterate_hearings_collect_anums.
    rewrite (@months_loop_stops ui 60 0 p []); try assumption.
    + split; reflexivity.
    + intros q Hq. apply Hbefore. lia.
Qed.

(** A popup without a "Hearing Date:" line has no date to parse. *)
Lemma missing_hearing_date (text : str) :
  search U true re_hearing_date text = None ->
  strptime U (the_date U text) (u "%m/%d/%Y") = None.
Proof. intro H. unfold the_date. rewrite H. reflexivity. Qed.

(** C7.  When the value after "Hearing Date:" does not parse as
    month/day/year, the cell counts as in range whatever the range is: all
    identifiers of the popup join the set, and they are in the result of
    the traversal when the cell is on a page the traversal reaches. *)
Theorem C7_unparsed_date_in_range (text : str) :
  strptime U (the_date U text) (u "%m/%d/%Y") = None ->
  in_date_range U start_date end_date text = true
  /\ (forall acc,
        visit_cell U start_date end_date acc (Some text)
        = fold_left (fun s a => set_add a s) (popup_anums U text) acc)
  /\ (forall (ui : portal) p a,
        p < 60 ->
        (forall q, q < p -> page_next (ui q) = true) ->
        In (Some text) (page_cells (ui p)) ->
        In a (popup_anums U text) ->
        In a (iterate_hearings_collect_anums U ui start_date end_date)).
Proof.
  intro Hparse.
  assert (Hr : in_date_range U start_date end_date text = true)
    by (unfold in_date_range; rewrite Hparse; reflexivity).
  assert (Hcell : forall acc,
             visit_cell U start_date end_date acc (Some text)
             = fold_left (fun s a => set_add a s) (popup_anums U text) acc)
    by (intro acc; simpl; rewrite Hr; reflexivity).
  repeat split; try assumption.
  intros ui p a Hp Hbefore Hin Ha.
  unfold iterate_hearings_collect_anums. apply sorted_In.
  apply (@months_loop_reaches ui 60 0 p [] (Some text) a); try assumption; try lia.
  - intros q Hq. apply Hbefore. lia.
  - intro acc'. rewrite Hcell. apply fold_set_add_In. left. exact Ha.
Qed.

(** *** Sorted, without repetitions, made of ASCII digits *)

(** [re.sub] with the pattern [[^0-9]] and the empty replacement leaves
    ASCII digits only. *)
Lemma sub_nondigit_digits (fuel pos : nat) (prev : option char) (rest : str) :
  List.length rest < fuel ->
  forallb ascii_digit (sub_from U fuel false re_nondigit [] pos prev rest) = true.
Proof.
  revert pos prev rest. induction fuel as [|fuel IH]; intros pos prev rest Hf; [lia|].
  destruct rest as [|c t]; [reflexivity|].
  cbn [sub_from rmatch_at re_nondigit rmatch start_state m_rest set_match existsb item_match rng].
  change (ch "0") with 48%N. change (ch "9") with 57%N.
  simpl in Hf.
  destruct (in_range 48%N 57%N c) eqn:E; cbn [orb].
  - cbn [forallb]. unfold ascii_digit at 1. rewrite E. apply IH. lia.
  - cbn [advance start_state m_pos m_prev m_rest].
    replace (pos <? S pos) with true by (symmetry; apply Nat.ltb_lt; lia).
    cbn [app]. apply IH. lia.
Qed.

Lemma popup_anums_digits (text : str) (a : str) :
  In a (popup_anums U text) -> forallb ascii_digit a = true.
Proof.
  unfold popup_anums. rewrite in_map_iff. intros [raw [<- _]].
  unfold re_sub. apply sub_nondigit_digits. lia.
Qed.

Lemma visit_cell_clean (acc : list str) (cell : option str) :
  clean acc -> clean (visit_cell U start_date end_date acc cell).
Proof.
  intros [Hnd Hd]. destruct cell as [text|]; simpl; [|split; assumption].
  destruct (in_date_range U start_date end_date text); [|split; assumption].
  split; [apply fold_set_add_NoDup, Hnd|].
  intros a Ha. apply fold_set_add_In in Ha as [Ha|Ha].
  - eapply popup_anums_digits, Ha.
  - apply Hd, Ha.
Qed.

Lemma visit_page_clean (acc : list str) (pg : cal_page) :
  clean acc -> clean (visit_page U start_date end_date acc pg).
Proof.
  unfold visit_page. revert acc. induction (page_cells pg) as [|c cs IH]; intros acc H; simpl.
  - exact H.
  - apply IH, visit_cell_clean, H.
Qed.

Lemma months_loop_clean (ui : portal) (remaining page : nat) (acc : list str) :
  clean acc -> clean (fst (months_loop U remaining ui start_date end_date page acc)).
Proof.
  revert page acc. induction remaining as [|n IH]; intros page acc H; simpl; [exact H|].
  destruct (page_next (ui page)).
  - apply IH, visit_page_clean, H.
  - apply visit_page_clean, H.
Qed.

(** X2.  Whatever the portal shows, the identifiers returned are in the order of
    [str], no identifier is returned twice, and an identifier is made of
    ASCII digits (of how many, the pattern does not settle: see the
    identifier of six digits above). *)
Lemma collected_sorted_distinct_digits (ui : portal) :
  StronglySorted (fun a b => str_leb a b = true)
                 (iterate_hearings_collect_anums U ui start_date end_date)
  /\ NoDup (iterate_hearings_collect_anums U ui start_date end_date)
  /\ (forall a, In a (iterate_hearings_collect_anums U ui start_date end_date) ->
                forallb ascii_digit a = true).
Proof.
  unfold iterate_hearings_collect_anums.
  destruct (@months_loop_clean ui 60 0 []) as [Hnd Hd].
  { split; [constructor | intros a []]. }
  split; [apply sorted_ordered|]. split; [apply sorted_NoDup, Hnd|].
  intros a Ha. apply Hd. apply (sorted_In a), Ha.
Qed.

End CalendarProperties.

(* ------------------------------------------------------------------ *)
(** ** The matcher only moves forward *)

Section RegexProperties.

Variable U : unicode_db.

Lemma reaches_refl (st : mstate) : reaches st st.
Proof. exists []. simpl. split; [reflexivity | lia]. Qed.

Lemma reaches_trans (a b c : mstate) : reaches a b -> reaches b c -> reaches a c.
Proof.
  intros [x [Hx Px]] [y [Hy Py]]. exists (x ++ y).
  rewrite Hx, Hy, <- app_assoc, length_app. split; [reflexivity | lia].
Qed.

Lemma reaches_advance (st : mstate) (c : char) (t : str) :
  m_rest st = c :: t -> reaches st (advance st c t).
Proof. intro H. exists [c]. simpl. split; [exact H | lia]. Qed.

Lemma reaches_set_cap (st st' : mstate) (g b e : nat) :
  reaches st st' -> reaches st (set_cap g b e st').
Proof. intros [x Hx]. exists x. exact Hx. Qed.

Lemma rep_loop_forward m lo hi k fuel cnt st res :
  forward m ->
  rep_loop m lo hi k fuel cnt st = Some res ->
  exists st', reaches st st' /\ k st' = Some res.
Proof.
  intro Hm. revert cnt st. induction fuel as [|fuel IH]; intros cnt st H; simpl in H.
  - destruct (lo <=? cnt); [|discriminate]. exists st. split; [apply reaches_refl | exact H].
  - match type of H with
    | match ?e with _ => _ end = _ => destruct e as [res'|] eqn:E
    end.
    + injection H as ->. apply Hm in E as [st1 [R1 E1]].
      destruct hi as [h|].
      * apply IH in E1 as [st2 [R2 E2]]. exists st2. split; [|exact E2].
        eapply reaches_trans; eassumption.
      * destruct (m_pos st <? m_pos st1); [|discriminate].
        apply IH in E1 as [st2 [R2 E2]]. exists st2. split; [|exact E2].
        eapply reaches_trans; eassumption.
    + destruct (lo <=? cnt); [|discriminate]. exists st. split; [apply reaches_refl | exact H].
Qed.

Lemma rmatch_forward (ic : bool) (r : regex) : forward (rmatch U ic r).
Proof.
  induction r as [|p|items|items|r1 IH1 r2 IH2|r1 IH1 r2 IH2|lo hi r1 IH1|g r1 IH1|];
    intros st k res H; simpl in H.
  - exists st. split; [apply reaches_refl | exact H].
  - destruct (m_rest st) as [|c t] eqn:E; [discriminate|].
    destruct (chr_match U ic p c); [|discriminate].
    exists (advance st c t). split; [apply reaches_advance, E | exact H].
  - destruct (m_rest st) as [|c t] eqn:E; [discriminate|].
    destruct (set_match U ic items c); [|discriminate].
    exists (advance st c t). split; [apply reaches_advance, E | exact H].
  - destruct (m_rest st) as [|c t] eqn:E; [discriminate|].
    destruct (set_match U ic items c); [discriminate|].
    exists (advance st c t). split; [apply reaches_advance, E | exact H].
  - apply IH1 in H as [st1 [R1 H1]]. apply IH2 in H1 as [st2 [R2 H2]].
    exists st2. split; [eapply reaches_trans; eassumption | exact H2].
  - destruct (rmatch U ic r1 st k) as [res'|] eqn:E.
    + injection H as ->. apply IH1, E.
    + apply IH2, H.
  - eapply rep_loop_forward; eassumption.
  - apply IH1 in H as [st1 [R1 H1]].
    exists (set_cap g (m_pos st) (m_pos st1) st1). split; [|exact H1].
    apply reaches_set_cap, R1.
  - destruct (at_boundary U st); [|discriminate].
    exists st. split; [apply reaches_refl | exact H].
Qed.

Lemma rep_loop_sound m (R : mstate -> mstate -> Prop) lo hi k fuel cnt st res :
  (forall st k res, m st k = Some res -> exists st', R st st' /\ k st' = Some res) ->
  rep_loop m lo hi k fuel cnt st = Some res ->
  exists n st', iter R n st st' /\ lo <= cnt + n /\ n <= fuel /\ k st' = Some res.
Proof.
  intro Hm. revert cnt st. induction fuel as [|fuel IH]; intros cnt st H; simpl in H.
  - destruct (lo <=? cnt) eqn:L; [|discriminate]. apply Nat.leb_le in L.
    exists 0, st. repeat split; try lia. exact H.
  - match type of H with
    | match ?e with _ => _ end = _ => destruct e as [res'|] eqn:E
    end.
    + injection H as ->. apply Hm in E as [st1 [R1 E1]].
      assert (E2 : rep_loop m lo hi k fuel (S cnt) st1 = Some res).
      { destruct hi as [h|]; [exact E1|].
        destruct (m_pos st <? m_pos st1); [exact E1 | discriminate]. }
      apply IH in E2 as [n [st2 [I2 [L2 [F2 K2]]]]].
      exists (S n), st2. repeat split; try lia; [|exact K2].
      exists st1. split; assumption.
    + destruct (lo <=? cnt) eqn:L; [|discriminate]. apply Nat.leb_le in L.
      exists 0, st. repeat split; try lia. exact H.
Qed.

(** The matcher is sound: a result comes from the continuation, called on
    the end of a match. *)
Lemma rmatch_sound (ic : bool) (r : regex) st k res :
  rmatch U ic r st k = Some res ->
  exists st', matches U ic r st st' /\ k st' = Some res.
Proof.
  revert st k res.
  induction r as [|p|items|items|r1 IH1 r2 IH2|r1 IH1 r2 IH2|lo hi r1 IH1|g r1 IH1|];
    intros st k res H; simpl in H.
  - exists st. split; [reflexivity | exact H].
  - destruct (m_rest st) as [|c t] eqn:E; [discriminate|].
    destruct (chr_match U ic p c) eqn:M; [|discriminate].
    exists (advance st c t). split; [|exact H]. exists c, t. auto.
  - destruct (m_rest st) as [|c t] eqn:E; [discriminate|].
    destruct (set_match U ic items c) eqn:M; [|discriminate].
    exists (advance st c t). split; [|exact H]. exists c, t. auto.
  - destruct (m_rest st) as [|c t] eqn:E; [discriminate|].
    destruct (set_match U ic items c) eqn:M; [discriminate|].
    exists (advance st c t). split; [|exact H]. exists c, t. auto.
  - apply IH1 in H as [st1 [R1 H1]]. apply IH2 in H1 as [st2 [R2 H2]].
    exists st2. split; [|exact H2]. exists st1. auto.
  - destruct (rmatch U ic r1 st k) as [res'|] eqn:E.
    + injection H as ->. apply IH1 in E as [st1 [R1 H1]]. exists st1. split; [left|]; assumption.
    + apply IH2 in H as [st1 [R1 H1]]. exists st1. split; [right|]; assumption.
  - apply (@rep_loop_sound _ (matches U ic r1)) in H as [n [st' [I [L [F K]]]]].
    + exists st'. split; [|exact K]. exists n. split; [lia|]. split; [|exact I].
      destruct hi as [h|]; [exact F | exact Logic.I].
    + intros st0 k0 res0. apply IH1.
  - apply IH1 in H as [st1 [R1 H1]].
    exists (set_cap g (m_pos st) (m_pos st1) st1). split; [|exact H1].
    exists st1. auto.
  - destruct (at_boundary U st) eqn:B; [|discriminate].
    exists st. split; [|exact H]. split; [exact B | reflexivity].
Qed.

(** A match ends ahead of where it starts. *)
Lemma rmatch_at_reaches ic r pos prev rest st' :
  rmatch_at U ic r pos prev rest = Some st' ->
  exists consumed, rest = consumed ++ m_rest st' /\ m_pos st' = pos + List.length consumed.
Proof.
  unfold rmatch_at. intro H. apply rmatch_forward in H as [st1 [[x Hx] E]].
  injection E as <-. exists x. exact Hx.
Qed.

(** [re.sub] writes nothing but characters of the text and of the replacement. *)
Lemma sub_from_chars fuel ic r repl pos prev rest c :
  In c (sub_from U fuel ic r repl pos prev rest) -> In c repl \/ In c rest.
Proof.
  revert pos prev rest. induction fuel as [|fuel IH]; intros pos prev rest H; simpl in H.
  - right. exact H.
  - destruct (rmatch_at U ic r pos prev rest) as [st'|] eqn:E.
    + apply rmatch_at_reaches in E as [x [Hx _]].
      destruct (pos <? m_pos st').
      * apply in_app_or in H as [H|H]; [left; exact H|].
        apply IH in H as [H|H]; [left; exact H|].
        right. rewrite Hx. apply in_or_app. right. exact H.
      * destruct rest as [|c0 t]; [left; exact H|].
        apply in_app_or in H as [H|H]; [left; exact H|].
        destruct H as [<-|H]; [right; left; reflexivity|].
        apply IH in H as [H|H]; [left; exact H | right; right; exact H].
    + destruct rest as [|c0 t]; [destruct H|].
      destruct H as [<-|H]; [right; left; reflexivity|].
      apply IH in H as [H|H]; [left; exact H | right; right; exact H].
Qed.

Lemma re_sub_chars ic r repl s c :
  In c (re_sub U ic r repl s) -> In c repl \/ In c s.
Proof. apply sub_from_chars. Qed.

Lemma lstrip_chars (s : str) (c : char) : In c (lstrip U s) -> In c s.
Proof.
  induction s as [|x s IH]; simpl; [tauto|].
  destruct (isspace U x); [|tauto]. intro H. right. apply IH, H.
Qed.

Lemma strip_chars (s : str) (c : char) : In c (strip U s) -> In c s.
Proof.
  unfold strip, rstrip. intro H.
  apply in_rev, lstrip_chars, in_rev, lstrip_chars in H. exact H.
Qed.

Lemma replace_chars (old : char) (new s : str) (c : char) :
  In c (replace old new s) -> In c new \/ (In c s /\ c <> old).
Proof.
  unfold replace. rewrite in_flat_map. intros [x [Hx Hc]].
  destruct (N.eqb_spec x old) as [->|Hne]; [left; exact Hc|].
  destruct Hc as [<-|[]]. right. split; assumption.
Qed.

(** What [sanitize] returns holds none of the reserved characters. *)
Lemma sanitize_clean (s : str) (c : char) : In c (sanitize U s) -> is_reserved c = false.
Proof.
  unfold sanitize. destruct s as [|x s]; [intros []|]. intro H.
  apply strip_chars, re_sub_chars in H. destruct H as [[<-|[]]|H]; [reflexivity|].
  repeat (apply replace_chars in H as [H|[H ?]];
          [ simpl in H; repeat (destruct H as [<-|H]; [reflexivity|]); destruct H | ]).
  unfold is_reserved, reserved_chars, existsb.
  repeat match goal with
         | Hne : c <> ?o |- _ => apply N.eqb_neq in Hne; rewrite Hne; clear Hne
         end.
  reflexivity.
Qed.

End RegexProperties.

(* ------------------------------------------------------------------ *)
(** ** File names *)

Section FilenameProperties.

Variable U : unicode_db.

(** C10.  [build_new_filename] can return a name with a slash: the date is
    not sanitized, and a date no format parses, such as 13/45/2024, is put
    into the name as it is.  The other components go through [sanitize],
    whose result never holds one of the reserved characters. *)
Theorem C10_date_keeps_its_slash :
  parse_date_any U (u "13/45/2024") = u "13/45/2024"
  /\ build_new_filename U (u "Order") (u "NOTICE OF HEARING") (u "13/45/2024") []
     = u "Order - NOTICE OF HEARING - 13/45/2024.pdf"
  /\ (exists label pleading file_date notes,
        In (ch "/") (build_new_filename U label pleading file_date notes))
  /\ (forall s c, In c (sanitize U s) -> is_reserved c = false).
Proof.
  split; [vm_compute; reflexivity|].
  split; [vm_compute; reflexivity|].
  split.
  - exists (u "Order"), (u "NOTICE OF HEARING"), (u "13/45/2024"), [].
    vm_compute. tauto.
  - apply sanitize_clean.
Qed.

End FilenameProperties.

(* ------------------------------------------------------------------ *)
(** ** Paths of one component *)

Lemma slash_free_app (a b : str) : slash_free (a ++ b) = slash_free a && slash_free b.
Proof. unfold slash_free. rewrite existsb_app, negb_orb. reflexivity. Qed.

Lemma slash_free_cons (c : char) (s : str) :
  slash_free (c :: s) = negb (47 =? c)%N && slash_free s.
Proof. unfold slash_free. simpl. rewrite negb_orb. reflexivity. Qed.

Lemma slash_free_firstn (n : nat) (s : str) : slash_free s = true -> slash_free (firstn n s) = true.
Proof.
  intro H. rewrite <- (firstn_skipn n s), slash_free_app in H.
  apply andb_true_iff in H. tauto.
Qed.

Lemma slash_free_skipn (n : nat) (s : str) : slash_free s = true -> slash_free (skipn n s) = true.
Proof.
  intro H. rewrite <- (firstn_skipn n s), slash_free_app in H.
  apply andb_true_iff in H. tauto.
Qed.

Lemma slash_free_In (s : str) : slash_free s = true <-> ~ In (ch "/") s.
Proof.
  unfold slash_free. rewrite negb_true_iff. split.
  - intros H Hin. assert (E : existsb (N.eqb 47) s = true).
    { apply existsb_exists. exists (ch "/"). split; [exact Hin | reflexivity]. }
    congruence.
  - intro H. destruct (existsb (N.eqb 47) s) eqn:E; [|reflexivity].
    apply existsb_exists in E as [x [Hx Ex]]. apply N.eqb_eq in Ex. subst x.
    contradiction.
Qed.

Lemma split_on_flat (s cur : str) :
  slash_free s = true -> split_on 47%N cur s = [rev cur ++ s].
Proof.
  revert cur. induction s as [|c s IH]; intros cur H; simpl.
  - rewrite app_nil_r. reflexivity.
  - rewrite slash_free_cons in H. apply andb_true_iff in H as [Hc Hs].
    apply negb_true_iff in Hc. rewrite N.eqb_sym in Hc. rewrite Hc.
    rewrite (IH (c :: cur) Hs). simpl. rewrite <- app_assoc. reflexivity.
Qed.

Lemma components_flat (s : str) :
  slash_free s = true -> 2 <= List.length s -> components s = [s].
Proof.
  intros H L. unfold components. change (ch "/") with 47%N.
  rewrite split_on_flat by exact H. simpl.
  destruct s as [|a [|b s]]; simpl in L; try lia.
  change (u ".") with [46%N]. cbn [nonempty str_eqb]. rewrite andb_false_r. reflexivity.
Qed.

Lemma joinpath_flat (d : path) (s : str) :
  slash_free s = true -> 2 <= List.length s -> joinpath d s = d ++ [s].
Proof.
  intros H L. unfold joinpath. rewrite components_flat by assumption.
  destruct s as [|c s]; [reflexivity|].
  rewrite slash_free_cons in H. apply andb_true_iff in H as [Hc _].
  destruct (N.eqb_spec 47 c) as [<-|Hne]; [discriminate|].
  destruct c as [|p]; [reflexivity|].
  do 6 (destruct p as [p|p|]; try reflexivity). contradiction Hne. reflexivity.
Qed.

Lemma name_snoc (d : path) (s : str) : name (d ++ [s]) = s.
Proof. unfold name. apply last_last. Qed.

Lemma parent_snoc (d : path) (s : str) : parent (d ++ [s]) = d.
Proof. unfold parent. apply removelast_last. Qed.

Lemma stem_suffix (p : path) : stem p ++ suffix p = name p.
Proof. unfold stem, suffix. apply firstn_skipn. Qed.

Lemma string_of_uint_slash_free (d : Decimal.uint) :
  slash_free (u (NilEmpty.string_of_uint d)) = true.
Proof.
  unfold slash_free in *.
  induction d; cbn [NilEmpty.string_of_uint u list_ascii_of_string map existsb];
    try reflexivity; apply negb_true_iff in IHd; unfold u in IHd; rewrite IHd; reflexivity.
Qed.

Lemma decimal_slash_free (i : nat) : slash_free (decimal i) = true.
Proof.
  unfold decimal, NilZero.string_of_uint.
  destruct (Nat.to_uint i); try reflexivity; apply string_of_uint_slash_free.
Qed.

Lemma numbered_slash_free (i : nat) : slash_free (numbered i) = true.
Proof.
  unfold numbered. rewrite !slash_free_app, decimal_slash_free. reflexivity.
Qed.

Lemma numbered_length (i : nat) : 3 <= List.length (numbered i).
Proof. unfold numbered. rewrite !length_app. simpl. lia. Qed.

Lemma filter_length_lt (A : Type) (P Q : A -> bool) (l : list A) (x : A) :
  In x l -> P x = true -> Q x = false -> (forall y, Q y = true -> P y = true) ->
  List.length (filter Q l) < List.length (filter P l).
Proof.
  intros Hin HP HQ Himp.
  assert (Hle : forall l', List.length (filter Q l') <= List.length (filter P l')).
  { induction l' as [|y l' IH]; simpl; [lia|].
    destruct (Q y) eqn:E; [rewrite (Himp y E); simpl; lia|].
    destruct (P y); simpl; lia. }
  induction l as [|y l IH]; [destruct Hin|]. simpl.
  destruct Hin as [->|Hin].
  - rewrite HP, HQ. simpl. specialize (Hle l). lia.
  - specialize (IH Hin). destruct (Q y) eqn:E; [rewrite (Himp y E); simpl; lia|].
    destruct (P y); simpl; lia.
Qed.

Lemma remove_path_In (p q : path) (l : list path) :
  In q l -> q <> p -> In q (remove_path p l).
Proof.
  intros Hin Hne. unfold remove_path. apply filter_In. split; [exact Hin|].
  apply negb_true_iff. destruct (path_eqb p q) eqn:E; [|reflexivity].
  apply path_eqb_eq in E. congruence.
Qed.

(* ------------------------------------------------------------------ *)
(** ** The case document harvester *)

Section HarvesterProperties.

Variable U : unicode_db.
Variable download_dir : path.

Lemma snoc_not_nil (s : str) : download_dir ++ [s] <> [].
Proof. intro H. apply app_eq_nil in H as [_ H]. discriminate. Qed.

Lemma exists_flat_In (fs : filesys) (s : str) :
  path_exists fs (download_dir ++ [s]) = true ->
  In (download_dir ++ [s]) (fs_files fs ++ fs_dirs fs).
Proof.
  unfold path_exists, is_dir. intro H. apply in_or_app.
  apply orb_true_iff in H as [H|H].
  - left. apply mem_path_In, H.
  - right. destruct (download_dir ++ [s]) eqn:E; [apply snoc_not_nil in E; destruct E|].
    apply mem_path_In, H.
Qed.

(** An existing candidate is counted among the entries with names at least
    as long as its own, and among no entries with longer names. *)
Lemma longer_decreases (fs : filesys) (s : str) (k : nat) :
  path_exists fs (download_dir ++ [s]) = true -> 1 <= k ->
  longer fs (List.length s + k) < longer fs (List.length s).
Proof.
  intros H Hk. unfold longer.
  apply filter_length_lt with (x := download_dir ++ [s]).
  - apply exists_flat_In, H.
  - rewrite name_snoc. apply Nat.leb_refl.
  - rewrite name_snoc. apply Nat.leb_gt. lia.
  - intros y Hy. apply Nat.leb_le in Hy. apply Nat.leb_le. lia.
Qed.

(** The loop over the candidate names ends, on a name that is free. *)
Lemma free_path_flat (fuel : nat) (fs : filesys) (s : str) (i : nat) :
  slash_free s = true -> 2 <= List.length s -> longer fs (List.length s) <= fuel ->
  exists s',
    free_path download_dir fuel fs (download_dir ++ [s]) i = Some (download_dir ++ [s'])
    /\ path_exists fs (download_dir ++ [s']) = false
    /\ slash_free s' = true /\ 2 <= List.length s'.
Proof.
  revert s i. induction fuel as [|fuel IH]; intros s i Hs Hl Hfuel.
  - simpl. destruct (path_exists fs (download_dir ++ [s])) eqn:E.
    + pose proof (@longer_decreases fs s 1 E (le_n 1)). lia.
    + exists s. auto.
  - cbn [free_path]. destruct (path_exists fs (download_dir ++ [s])) eqn:E.
    + set (s1 := stem (download_dir ++ [s]) ++ numbered i ++ suffix (download_dir ++ [s])).
      assert (Hlen : List.length s1 = List.length s + List.length (numbered i)).
      { unfold s1. rewrite !length_app.
        rewrite <- (name_snoc download_dir s) at 3. rewrite <- stem_suffix, length_app. lia. }
      assert (Hfree : slash_free s1 = true).
      { unfold s1, stem, suffix. rewrite name_snoc, !slash_free_app.
        rewrite slash_free_firstn, slash_free_skipn, numbered_slash_free by exact Hs.
        reflexivity. }
      pose proof (numbered_length i) as Hn.
      rewrite joinpath_flat by (try exact Hfree; lia).
      apply IH; try exact Hfree; try lia.
      pose proof (@longer_decreases fs s (List.length (numbered i)) E ltac:(lia)).
      rewrite Hlen. lia.
    + exists s. auto.
Qed.

Lemma longer_le_entries (fs : filesys) (n : nat) : longer fs n <= entries fs.
Proof.
  unfold longer, entries. rewrite <- length_app. apply filter_length_le.
Qed.

Lemma create_file_dirs (fs : filesys) (p : path) : fs_dirs (create_file fs p) = fs_dirs fs.
Proof. unfold create_file. destruct (path_exists fs p); reflexivity. Qed.

Lemma create_file_files (fs : filesys) (p q : path) :
  In q (fs_files fs) -> In q (fs_files (create_file fs p)).
Proof.
  unfold create_file. destruct (path_exists fs p); simpl; [tauto|].
  intro H. apply in_or_app. left. exact H.
Qed.

Lemma after_click_dirs (fs : filesys) (r : doc_row) :
  fs_dirs (after_click download_dir fs r) = fs_dirs fs.
Proof.
  unfold after_click. revert fs. induction (row_files r) as [|f fl IH]; intro fs; simpl.
  - reflexivity.
  - rewrite IH. apply create_file_dirs.
Qed.

Lemma after_click_files (fs : filesys) (r : doc_row) (q : path) :
  In q (fs_files fs) -> In q (fs_files (after_click download_dir fs r)).
Proof.
  unfold after_click. revert fs. induction (row_files r) as [|f fl IH]; intros fs H; simpl.
  - exact H.
  - apply IH, create_file_files, H.
Qed.

Lemma is_dir_after_click (fs : filesys) (r : doc_row) (p : path) :
  is_dir (after_click download_dir fs r) p = is_dir fs p.
Proof. unfold is_dir. rewrite after_click_dirs. reflexivity. Qed.

(** A new entry is a regular file the click made. *)
Lemma new_entry_is_file (fs : filesys) (r : doc_row) (p : path) :
  In p (new_entries (glob_pdf download_dir fs)
                    (glob_pdf download_dir (after_click download_dir fs r))) ->
  In p (fs_files (after_click download_dir fs r)) /\ path_exists fs p = false.
Proof.
  unfold new_entries. rewrite filter_In. intros [Hnow Hbefore].
  apply negb_true_iff in Hbefore.
  unfold glob_pdf in Hnow. apply filter_In in Hnow as [Hin Hpdf].
  assert (Hnot : ~ In p (fs_files fs ++ fs_dirs fs)).
  { intro Hp. assert (E : mem_path p (glob_pdf download_dir fs) = true).
    { apply mem_path_In. unfold glob_pdf. apply filter_In. split; assumption. }
    congruence. }
  split.
  - apply in_app_or in Hin as [Hin|Hin]; [exact Hin|].
    rewrite after_click_dirs in Hin. contradiction Hnot. apply in_or_app. right. exact Hin.
  - unfold path_exists, is_dir.
    apply andb_true_iff in Hpdf as [Hpdf _]. apply andb_true_iff in Hpdf as [_ Hne].
    destruct p as [|c p]; [discriminate|].
    apply orb_false_iff. split.
    + destruct (mem_path (c :: p) (fs_files fs)) eqn:E; [|reflexivity].
      apply mem_path_In in E. contradiction Hnot. apply in_or_app. left. exact E.
    + destruct (mem_path (c :: p) (fs_dirs fs)) eqn:E; [|reflexivity].
      apply mem_path_In in E. contradiction Hnot. apply in_or_app. right. exact E.
Qed.

Lemma sanitize_slash_free (s : str) : slash_free (sanitize U s) = true.
Proof.
  apply slash_free_In. intro H. apply sanitize_clean in H. discriminate.
Qed.

Lemma join_slash_free (sep : str) (parts : list str) :
  slash_free sep = true -> Forall (fun p => slash_free p = true) parts ->
  slash_free (join sep parts) = true.
Proof.
  intros Hsep H. induction H as [|p parts Hp _ IH]; [reflexivity|].
  destruct parts as [|q parts]; [exact Hp|].
  change (join sep (p :: q :: parts)) with (p ++ sep ++ join sep (q :: parts)).
  rewrite !slash_free_app, Hp, Hsep, IH. reflexivity.
Qed.

(** A date whose normal form has no slash gives a name of one component. *)
Lemma build_new_filename_flat (label pleading file_date notes : str) :
  slash_free (parse_date_any U file_date) = true ->
  slash_free (build_new_filename U label pleading file_date notes) = true
  /\ 2 <= List.length (build_new_filename U label pleading file_date notes).
Proof.
  intro Hd. unfold build_new_filename. split.
  - rewrite slash_free_app. apply andb_true_iff. split; [|reflexivity].
    match goal with |- slash_free (match ?j with _ => _ end) = true =>
      assert (Hj : slash_free j = true); [|destruct j; [reflexivity | exact Hj]] end.
    apply join_slash_free; [reflexivity|].
    assert (Hsan : forall s, Forall (fun p => slash_free p = true)
                               (match s with [] => [] | _ => [sanitize U s] end)).
    { intros [|c s]; repeat constructor. apply sanitize_slash_free. }
    repeat (apply Forall_app; split); try apply Hsan.
    destruct file_date; repeat constructor. exact Hd.
  - rewrite length_app. simpl. lia.
Qed.

(** A row with its cells, a button and a new file is logged when the normal
    form of its date has no slash and the download directory is there: the
    name found is free, the file is moved to it, the record carries it. *)
Lemma download_row_logged (anumber : str) (fs : filesys) (r : doc_row) (l d : str)
      (downloaded : path) (rest : list path) :
  row_label r = Some l -> row_date r = Some d -> row_button r = true ->
  is_dir fs download_dir = true ->
  new_entries (glob_pdf download_dir fs)
              (glob_pdf download_dir (after_click download_dir fs r)) = downloaded :: rest ->
  slash_free (parse_date_any U (strip U d)) = true ->
  exists s' rec,
    download_row U download_dir anumber fs r
    = (FS (remove_path (download_dir ++ [s'])
             (remove_path downloaded (fs_files (after_click download_dir fs r)))
           ++ [download_dir ++ [s']])
          (fs_dirs fs),
       Logged rec)
    /\ filename_final rec = s'
    /\ a_number rec = anumber
    /\ document_label rec = strip U l
    /\ filing_date rec = strip U d
    /\ path_exists (after_click download_dir fs r) (download_dir ++ [s']) = false
    /\ path_exists fs downloaded = false.
Proof.
  intros Hl Hd Hb Hdir Hnew Hdate.
  assert (Hin : In downloaded (new_entries (glob_pdf download_dir fs)
                   (glob_pdf download_dir (after_click download_dir fs r))))
    by (rewrite Hnew; left; reflexivity).
  apply new_entry_is_file in Hin as [Hfile Hfresh].
  unfold download_row. rewrite Hl, Hd, Hb, Hnew. cbn [negb].
  set (fs1 := after_click download_dir fs r) in *.
  set (label := strip U l). set (file_date := strip U d) in *.
  set (pleading := guess_pleading_name_from_text U _).
  set (notes := if contains _ _ then _ else _).
  destruct (@build_new_filename_flat label pleading file_date notes Hdate) as [Hflat Hlen].
  rewrite joinpath_flat by assumption.
  destruct (@free_path_flat (S (entries fs1)) fs1
              (build_new_filename U label pleading file_date notes) 2 Hflat Hlen)
    as [s' [Hfp [Hfree [Hs' Hl']]]].
  { pose proof (longer_le_entries fs1 (List.length
       (build_new_filename U label pleading file_date notes))). lia. }
  rewrite Hfp. unfold rename.
  assert (Hm : mem_path downloaded (fs_files fs1) = true) by (apply mem_path_In, Hfile).
  rewrite Hm, parent_snoc. unfold fs1 at 1. rewrite is_dir_after_click, Hdir.
  assert (Hnd : is_dir fs1 (download_dir ++ [s']) = false).
  { unfold path_exists in Hfree. apply orb_false_iff in Hfree. tauto. }
  rewrite Hnd. cbn [andb negb]. rewrite name_snoc.
  unfold fs1 at 2. rewrite after_click_dirs.
  eexists. eexists. split; [reflexivity|].
  cbn [filename_final a_number document_label filing_date].
  repeat split; assumption.
Qed.

(** A row without a new file is passed over. *)
Lemma download_row_timed_out (anumber : str) (fs : filesys) (r : doc_row) (l d : str) :
  row_label r = Some l -> row_date r = Some d -> row_button r = true ->
  new_entries (glob_pdf download_dir fs)
              (glob_pdf download_dir (after_click download_dir fs r)) = [] ->
  download_row U download_dir anumber fs r = (after_click download_dir fs r, TimedOut).
Proof.
  intros Hl Hd Hb Hnew. unfold download_row. rewrite Hl, Hd, Hb, Hnew. reflexivity.
Qed.


(** What a logged row wrote into its record. *)
Lemma logged_fields (anumber : str) (fs fs' : filesys) (r : doc_row) (rec : log_record) :
  download_row U download_dir anumber fs r = (fs', Logged rec) ->
  a_number rec = anumber
  /\ (exists l, row_label r = Some l /\ document_label rec = strip U l)
  /\ (exists d, row_date r = Some d /\ filing_date rec = strip U d).
Proof.
  unfold download_row. intro H.
  destruct (row_label r) as [l|]; [|discriminate].
  destruct (row_date r) as [d|]; [|discriminate].
  destruct (negb (row_button r)); [discriminate|].
  destruct (new_entries _ _); [discriminate|].
  destruct (free_path _ _ _ _ _); [|discriminate].
  destruct (rename _ _ _); [|discriminate].
  injection H as _ <-. cbn [a_number document_label filing_date].
  repeat split; eauto.
Qed.


(** *** The log and the download directory agree *)

Lemma download_row_consistent (anumber : str) (st : hstate) (r : doc_row) :
  log_consistent download_dir st ->
  (forall d, row_date r = Some d -> slash_free (parse_date_any U (strip U d)) = true) ->
  log_consistent download_dir
    (HState (fst (download_row U download_dir anumber (h_fs st) r))
            (log_outcome (h_log st) (snd (download_row U download_dir anumber (h_fs st) r)))).
Proof.
  intros [Hdir [Hnd Hfiles]] Hdate.
  destruct (row_label r) as [l|] eqn:Hl;
    [|unfold download_row; rewrite Hl; split; [exact Hdir | split; assumption]].
  destruct (row_date r) as [d|] eqn:Hd;
    [|unfold download_row; rewrite Hl, Hd; split; [exact Hdir | split; assumption]].
  destruct (row_button r) eqn:Hb;
    [|unfold download_row; rewrite Hl, Hd, Hb; split; [exact Hdir | split; assumption]].
  destruct (new_entries (glob_pdf download_dir (h_fs st))
              (glob_pdf download_dir (after_click download_dir (h_fs st) r)))
    as [|downloaded rest] eqn:Hnew.
  - rewrite (@download_row_timed_out anumber (h_fs st) r l d Hl Hd Hb Hnew).
    unfold log_consistent. cbn [fst snd log_outcome h_fs h_log]. split; [|split].
    + cbn [h_fs]. rewrite is_dir_after_click. exact Hdir.
    + exact Hnd.
    + intros rec Hin. cbn [h_fs]. apply after_click_files, Hfiles, Hin.
  - destruct (@download_row_logged anumber (h_fs st) r l d downloaded rest
                Hl Hd Hb Hdir Hnew (Hdate d eq_refl))
      as [s' [rec [Hrow [Hname [_ [_ [_ [Hfree Hfresh]]]]]]]].
    rewrite Hrow. unfold log_consistent. cbn [fst snd log_outcome h_fs h_log].
    assert (Hold : forall rec0, In rec0 (h_log st) ->
               download_dir ++ [filename_final rec0] <> download_dir ++ [s']
               /\ download_dir ++ [filename_final rec0] <> downloaded
               /\ In (download_dir ++ [filename_final rec0])
                     (fs_files (after_click download_dir (h_fs st) r))).
    { intros rec0 Hin. pose proof (Hfiles rec0 Hin) as Hf.
      pose proof (after_click_files (h_fs st) r _ Hf) as Hf1.
      split; [|split; [|exact Hf1]].
      - intro E. rewrite E in Hf1. unfold path_exists in Hfree.
        apply orb_false_iff in Hfree as [Hm _].
        apply mem_path_In in Hf1. congruence.
      - intro E. rewrite E in Hf. unfold path_exists in Hfresh.
        apply orb_false_iff in Hfresh as [Hm _].
        apply mem_path_In in Hf. congruence. }
    split; [|split].
    + unfold is_dir in *. cbn [fs_dirs]. exact Hdir.
    + rewrite map_app. cbn [map]. rewrite Hname.
      apply NoDup_app; [exact Hnd | repeat constructor; intros [] | ].
      intros x Hx [Hs|[]]. subst x. apply in_map_iff in Hx as [rec0 [E Hin]].
      destruct (Hold rec0 Hin) as [Hne _]. apply Hne. rewrite E. reflexivity.
    + intros rec0 Hin. cbn [fs_files]. apply in_app_or in Hin as [Hin|[<-|[]]].
      * destruct (Hold rec0 Hin) as [H1 [H2 H3]].
        apply in_or_app. left. apply remove_path_In; [|exact H1].
        apply remove_path_In; assumption.
      * apply in_or_app. right. left. rewrite Hname. reflexivity.
Qed.

(** The invariant of the log is kept by a case whose dates have normal forms
    without a slash: the names of the records stay distinct, and every
    record names its file as the download directory holds it. *)
Lemma download_case_docs_consistent (anumber : str) (rows : list doc_row) (st : hstate) :
  log_consistent download_dir st -> plain_dates U rows ->
  log_consistent download_dir (download_case_docs U download_dir anumber rows st).
Proof.
  revert st. induction rows as [|r rows IH]; intros st Hst Hrows; [exact Hst|].
  cbn [download_case_docs].
  pose proof (@download_row_consistent anumber st r Hst
                (fun d Hd => Hrows r d (or_introl eq_refl) Hd)) as Hstep.
  destruct (download_row U download_dir anumber (h_fs st) r) as [fs' o].
  apply IH; [exact Hstep|]. intros r' d Hin. apply Hrows. right. exact Hin.
Qed.

(** And by a whole run. *)
Lemma harvest_consistent (cases : list (str * list doc_row)) (st : hstate) :
  log_consistent download_dir st -> (forall c, In c cases -> plain_dates U (snd c)) ->
  log_consistent download_dir (harvest U download_dir cases st).
Proof.
  unfold harvest. revert st. induction cases as [|c cases IH]; intros st Hst Hc; [exact Hst|].
  cbn [fold_left]. apply IH.
  - apply download_case_docs_consistent; [exact Hst|]. apply Hc. left. reflexivity.
  - intros c' Hin. apply Hc. right. exact Hin.
Qed.

End HarvesterProperties.

(* ------------------------------------------------------------------ *)
(** ** The order of binary64 numbers *)

Ltac sf_order :=
  repeat match goal with
         | H : context [Z.compare ?x ?y] |- _ => destruct (Z.compare_spec x y); try discriminate
         | H : context [Pos.compare_cont Eq ?x ?y] |- _ =>
             change (Pos.compare_cont Eq x y) with (Pos.compare x y) in H;
             destruct (Pos.compare_spec x y); try discriminate
         | |- context [Z.compare ?x ?y] => destruct (Z.compare_spec x y); try lia
         | |- context [Pos.compare_cont Eq ?x ?y] =>
             change (Pos.compare_cont Eq x y) with (Pos.compare x y);
             destruct (Pos.compare_spec x y); try lia
         end;
  subst; simpl in *; try reflexivity; try discriminate; try lia.

Lemma SFcompare_lt_trans (a b c : spec_float) :
  SFcompare a b = Some Lt -> SFcompare b c = Some Lt -> SFcompare a c = Some Lt.
Proof.
  destruct a as [[|]|[|]| |[|] ma ea], b as [[|]|[|]| |[|] mb eb], c as [[|]|[|]| |[|] mc ec];
    simpl; intros H1 H2; try discriminate; try reflexivity; sf_order.
Qed.

Lemma SFcompare_lt_eq_trans (a b c : spec_float) :
  SFcompare a b = Some Lt -> SFcompare b c = Some Eq -> SFcompare a c = Some Lt.
Proof.
  destruct a as [[|]|[|]| |[|] ma ea], b as [[|]|[|]| |[|] mb eb], c as [[|]|[|]| |[|] mc ec];
    simpl; intros H1 H2; try discriminate; try reflexivity; sf_order.
Qed.

Lemma SFcompare_lt_gt (a b : spec_float) :
  SFcompare a b = Some Lt -> SFcompare b a = Some Gt.
Proof.
  destruct a as [[|]|[|]| |[|] ma ea], b as [[|]|[|]| |[|] mb eb];
    simpl; intros H1; try discriminate; try reflexivity; sf_order.
Qed.

Lemma ltb_trans (a b c : float) :
  (a <? b)%float = true -> (b <? c)%float = true -> (a <? c)%float = true.
Proof.
  rewrite !ltb_spec. unfold SFltb. intros H1 H2.
  destruct (SFcompare (Prim2SF a) (Prim2SF b)) as [[| |]|] eqn:E1; try discriminate.
  destruct (SFcompare (Prim2SF b) (Prim2SF c)) as [[| |]|] eqn:E2; try discriminate.
  rewrite (SFcompare_lt_trans _ _ _ E1 E2). reflexivity.
Qed.

Lemma ltb_leb_trans (a b c : float) :
  (a <? b)%float = true -> (b <=? c)%float = true -> (a <? c)%float = true.
Proof.
  rewrite !ltb_spec, leb_spec. unfold SFltb, SFleb. intros H1 H2.
  destruct (SFcompare (Prim2SF a) (Prim2SF b)) as [[| |]|] eqn:E1; try discriminate.
  destruct (SFcompare (Prim2SF b) (Prim2SF c)) as [[| |]|] eqn:E2; try discriminate.
  - rewrite (SFcompare_lt_eq_trans _ _ _ E1 E2). reflexivity.
  - rewrite (SFcompare_lt_trans _ _ _ E1 E2). reflexivity.
Qed.

Lemma ltb_not_leb (a b : float) :
  (a <? b)%float = true -> (b <=? a)%float = false.
Proof.
  rewrite ltb_spec, leb_spec. unfold SFltb, SFleb. intros H1.
  destruct (SFcompare (Prim2SF a) (Prim2SF b)) as [[| |]|] eqn:E1; try discriminate.
  rewrite (SFcompare_lt_gt _ _ E1). reflexivity.
Qed.

(* ------------------------------------------------------------------ *)
(** ** The pleading title *)

Section TitleProperties.

Variable U : unicode_db.

Lemma line_score_qualifying (ln : str) (sc : float) :
  line_score U ln = Some sc -> qualifying U ln = true.
Proof.
  unfold line_score, qualifying. destruct (List.length ln <? 8) eqn:E; [discriminate|].
  apply Nat.ltb_ge in E. intro H. apply andb_true_iff. split; [apply Nat.leb_le, E|].
  destruct (filter (isalpha U) ln) as [|c l] eqn:F; [discriminate|].
  assert (Hc : In c (filter (isalpha U) ln)) by (rewrite F; left; reflexivity).
  apply filter_In in Hc. apply existsb_exists. exists c. exact Hc.
Qed.

Lemma line_score_nonempty (ln : str) (sc : float) : line_score U ln = Some sc -> ln <> [].
Proof. intros H ->. discriminate. Qed.

(** The loop over the lines either keeps the candidate it starts with, no
    line scoring above the best score so far, or ends on a line that scores
    above it, that no later line exceeds and that every earlier line stays
    below. *)
Lemma best_line_spec (lines : list str) (candidate : str) (best : float) :
  (best_line U lines candidate best = candidate
   /\ forall ln sc, In ln lines -> line_score U ln = Some sc -> (best <? sc)%float = false)
  \/ (exists pre post sc,
        lines = pre ++ best_line U lines candidate best :: post
        /\ line_score U (best_line U lines candidate best) = Some sc
        /\ (best <? sc)%float = true
        /\ (forall ln sc', In ln post -> line_score U ln = Some sc' -> (sc <? sc')%float = false)
        /\ (forall ln sc', In ln pre -> line_score U ln = Some sc' -> (sc <=? sc')%float = false)).
Proof.
  revert candidate best. induction lines as [|ln rest IH]; intros candidate best.
  - left. split; [reflexivity | intros ln sc []].
  - cbn [best_line]. destruct (line_score U ln) as [s|] eqn:Es.
    + destruct (best <? s)%float eqn:Eb.
      * right. destruct (IH ln s) as [[Hres Hall]|[pre [post [sc [Hl [Hsc [Hgt [Hpost Hpre]]]]]]]].
        -- exists [], rest, s. rewrite Hres. repeat split; try assumption.
           intros l sc' [].
        -- exists (ln :: pre), post, sc. repeat split; try assumption.
           ++ simpl. f_equal. exact Hl.
           ++ eapply ltb_trans; eassumption.
           ++ intros l sc' [<-|Hin] Hs'.
              ** rewrite Es in Hs'. injection Hs' as <-. apply ltb_not_leb, Hgt.
              ** eapply Hpre; eassumption.
      * destruct (IH candidate best) as [[Hres Hall]|[pre [post [sc [Hl [Hsc [Hgt [Hpost Hpre]]]]]]]].
        -- left. split; [exact Hres|]. intros l sc' [<-|Hin] Hs'.
           ++ rewrite Es in Hs'. injection Hs' as <-. exact Eb.
           ++ eapply Hall; eassumption.
        -- right. exists (ln :: pre), post, sc. repeat split; try assumption.
           ++ simpl. f_equal. exact Hl.
           ++ intros l sc' [<-|Hin] Hs'.
              ** rewrite Es in Hs'. injection Hs' as <-.
                 destruct (sc <=? s)%float eqn:Ele; [|reflexivity].
                 rewrite (ltb_leb_trans Hgt Ele) in Eb. discriminate.
              ** eapply Hpre; eassumption.
    + destruct (IH candidate best) as [[Hres Hall]|[pre [post [sc [Hl [Hsc [Hgt [Hpost Hpre]]]]]]]].
      * left. split; [exact Hres|]. intros l sc' [<-|Hin] Hs'.
        -- congruence.
        -- eapply Hall; eassumption.
      * right. exists (ln :: pre), post, sc. repeat split; try assumption.
        -- simpl. f_equal. exact Hl.
        -- intros l sc' [<-|Hin] Hs'; [congruence|]. eapply Hpre; eassumption.
Qed.

Lemma guess_is_best_line (text : str) :
  guess_pleading_name_from_text U text = best_line U (first_lines U text) [] 0%float.
Proof. destruct text; reflexivity. Qed.

(** C4, as the code has it.  The title is empty exactly when no qualifying
    line among the first 60 lines that are not blank scores above 0 (a line
    without a capital letter and without a keyword scores 0 and is never
    chosen).  Otherwise the title is a qualifying line among them that
    scores above 0, that no later line exceeds and below which every
    earlier line stays: of the lines with the highest score, the earliest. *)
Theorem C4_title_is_earliest_best (text : str) :
  (guess_pleading_name_from_text U text = []
   <-> forall ln sc, In ln (first_lines U text) -> line_score U ln = Some sc ->
                     (0 <? sc)%float = false)
  /\ (guess_pleading_name_from_text U text <> [] ->
      exists pre post sc,
        first_lines U text = pre ++ guess_pleading_name_from_text U text :: post
        /\ qualifying U (guess_pleading_name_from_text U text) = true
        /\ line_score U (guess_pleading_name_from_text U text) = Some sc
        /\ (0 <? sc)%float = true
        /\ (forall ln sc', In ln post -> line_score U ln = Some sc' ->
                           (sc <? sc')%float = false)
        /\ (forall ln sc', In ln pre -> line_score U ln = Some sc' ->
                           (sc <=? sc')%float = false)).
Proof.
  rewrite guess_is_best_line.
  destruct (best_line_spec (first_lines U text) [] 0%float)
    as [[Hres Hall]|[pre [post [sc [Hl [Hsc [Hgt [Hpost Hpre]]]]]]]].
  - split.
    + split; [intros _; exact Hall | intros _; exact Hres].
    + intro Hne. contradiction.
  - split.
    + split.
      * intro He. rewrite He in Hsc. discriminate.
      * intro Hall. assert (Hin : In (best_line U (first_lines U text) [] 0%float)
                                     (first_lines U text))
          by (rewrite Hl at 2; apply in_or_app; right; left; reflexivity).
        rewrite (Hall _ _ Hin Hsc) in Hgt. discriminate.
    + intros _. exists pre, post, sc. repeat split; try assumption.
      eapply line_score_qualifying; eassumption.
Qed.

(** The example of the specification, whatever the Unicode database. *)
Example guess_pleading_name_spec_example :
  guess_pleading_name_from_text U
    (u "Case No. 123" ++ nl ++ u "MOTION TO CONTINUE PROCEEDINGS" ++ nl ++ u "filed by respondent")
  = u "MOTION TO CONTINUE PROCEEDINGS".
Proof. vm_compute. reflexivity. Qed.

End TitleProperties.

(** C4 (counterexample).  A text whose only line qualifies (19 characters,
    letters) gets the empty title, because the line scores 0; and of two
    lines with the same score the first is returned, whose score is not
    above the later line's. *)
Lemma C4_counterexample :
  (guess_pleading_name_from_text ucd (u "filed by respondent") = []
   /\ first_lines ucd (u "filed by respondent") = [u "filed by respondent"]
   /\ qualifying ucd (u "filed by respondent") = true)
  /\ (guess_pleading_name_from_text ucd (u "NOTICE OF HEARING" ++ nl ++ u "ORDER OF THE COURT")
      = u "NOTICE OF HEARING"
      /\ first_lines ucd (u "NOTICE OF HEARING" ++ nl ++ u "ORDER OF THE COURT")
         = [u "NOTICE OF HEARING"; u "ORDER OF THE COURT"]
      /\ line_score ucd (u "ORDER OF THE COURT") = line_score ucd (u "NOTICE OF HEARING")).
Proof. vm_compute. repeat split; reflexivity. Qed.

(* ------------------------------------------------------------------ *)
(** ** The relevant dates *)

Lemma dedup_from_spec (seen l : list str) :
  NoDup (dedup_from seen l)
  /\ (forall x, In x (dedup_from seen l) <-> In x l /\ ~ In x seen).
Proof.
  revert seen. induction l as [|x l IH]; intro seen; simpl.
  - split; [constructor | intro; tauto].
  - destruct (existsb (str_eqb x) seen) eqn:E.
    + apply existsb_str_eqb in E. destruct (IH seen) as [Hnd Hin]. split; [exact Hnd|].
      intro y. rewrite Hin. split; [tauto|]. intros [[<-|H] Hs]; [contradiction | tauto].
    + assert (Hx : ~ In x seen) by (intro H; apply existsb_str_eqb in H; congruence).
      destruct (IH (x :: seen)) as [Hnd Hin]. split.
      * constructor; [|exact Hnd]. rewrite Hin. simpl. tauto.
      * intro y. simpl. rewrite Hin. simpl. split.
        -- intros [<-|[H1 H2]]; [tauto|]. split; [tauto|]. tauto.
        -- intros [[<-|H] Hs]; [tauto|].
           destruct (str_eqb x y) eqn:Exy; [apply str_eqb_eq in Exy; tauto|].
           apply str_eqb_neq in Exy. right. split; [exact H|]. intros [H1|H1]; tauto.
Qed.

Lemma dedup_NoDup (l : list str) : NoDup (dedup l).
Proof. apply dedup_from_spec. Qed.

Lemma dedup_In (l : list str) (x : str) : In x (dedup l) <-> In x l.
Proof. unfold dedup. rewrite (proj2 (dedup_from_spec [] l)). simpl. tauto. Qed.

(* ------------------------------------------------------------------ *)
(** ** Dates: every rendering is read back *)

(** Every value of a number a hypothesis bounds. *)
Ltac cases_upto n :=
  first [ exfalso; lia
        | destruct n as [|n]; [ try (exfalso; lia) | cases_upto n ] ].

(** The month names of a goal, written out. *)
Ltac eval_names :=
  repeat match goal with
         | |- context [u (month_abbr ?k)] =>
             let v := eval vm_compute in (u (month_abbr k)) in
             change (u (month_abbr k)) with v
         | |- context [u (month_name ?k)] =>
             let v := eval vm_compute in (u (month_name k)) in
             change (u (month_name k)) with v
         | |- context [String.length (month_name ?k)] =>
             let v := eval vm_compute in (String.length (month_name k)) in
             change (String.length (month_name k)) with v
         end.

(** The fields of a match, read off the string. *)
Ltac read_fields :=
  cbv [date_of_fields field_int field_month group get_cap m_caps gY gy gm gd gb gB Nat.eqb
       substr firstn skipn Nat.sub Nat.add app pad2 pad4];
  repeat match goal with
         | |- context [[digit_char (?n / 1000); digit_char (?n / 100); digit_char (?n / 10);
                        digit_char ?n]] =>
             change [digit_char (n / 1000); digit_char (n / 100); digit_char (n / 10);
                     digit_char n] with (pad4 n)
         | |- context [[digit_char (?n / 10); digit_char ?n]] =>
             change [digit_char (n / 10); digit_char n] with (pad2 n)
         | |- context [index_of ?a ?b ?c] =>
             let v := eval vm_compute in (index_of a b c) in
             change (index_of a b c) with v
         end.

Section DateProperties.

Variable U : unicode_db.

Lemma digit_char_digit (n : nat) : ascii_digit (digit_char n) = true.
Proof.
  unfold digit_char. pose proof (Nat.mod_upper_bound n 10 ltac:(lia)) as H.
  remember (n mod 10) as k eqn:E. clear E.
  do 10 (destruct k as [|k]; [reflexivity|]). lia.
Qed.

Lemma digit_range (c : char) : ascii_digit c = true -> (48 <= c <= 57)%N.
Proof.
  unfold ascii_digit, in_range. intro H. apply andb_true_iff in H as [H1 H2].
  apply N.leb_le in H1, H2. lia.
Qed.

Lemma digit_is_ascii (c : char) : ascii_digit c = true -> is_ascii c = true.
Proof. intro H. apply digit_range in H. apply N.ltb_lt. lia. Qed.

Lemma digit_isdecimal (c : char) : ascii_digit c = true -> isdecimal U c = true.
Proof. intro H. unfold isdecimal. rewrite (digit_is_ascii c H). exact H. Qed.

Lemma digit_not_space (c : char) : ascii_digit c = true -> isspace U c = false.
Proof.
  intro H. unfold isspace, ascii_space, in_range. rewrite (digit_is_ascii c H).
  apply digit_range in H.
  replace (c <=? 13)%N with false by (symmetry; apply N.leb_gt; lia).
  replace (c <=? 31)%N with false by (symmetry; apply N.leb_gt; lia).
  replace (c =? 32)%N with false by (symmetry; apply N.eqb_neq; lia).
  rewrite !andb_false_r. reflexivity.
Qed.

Lemma set_match_digit (ic : bool) (c : char) :
  ascii_digit c = true -> set_match U ic [IDigit] c = true.
Proof.
  intro H. unfold set_match. cbn [existsb item_match].
  rewrite digit_isdecimal by exact H. reflexivity.
Qed.

Lemma set_match_space_digit (ic : bool) (c : char) :
  ascii_digit c = true -> set_match U ic [ISpace] c = false.
Proof.
  intro H. unfold set_match. cbn [existsb item_match].
  rewrite digit_not_space by exact H. reflexivity.
Qed.

(** %Y on four digits. *)
Lemma match_Y (y1 y2 y3 y4 : char) (t : str) pos prev caps k :
  ascii_digit y1 = true -> ascii_digit y2 = true ->
  ascii_digit y3 = true -> ascii_digit y4 = true ->
  rmatch U true (directive_regex (ch "Y")) (MState pos prev (y1 :: y2 :: y3 :: y4 :: t) caps) k
  = k (MState (4 + pos) (Some y4) t ((gY, (pos, 4 + pos)) :: caps)).
Proof.
  intros H1 H2 H3 H4.
  change (directive_regex (ch "Y")) with (Grp gY (seq [cls_d; cls_d; cls_d; cls_d])).
  cbn [rmatch seq cls_d m_rest m_pos m_caps m_prev advance set_cap].
  rewrite !set_match_digit by assumption.
  reflexivity.
Qed.

Lemma split_slash_Y st k :
  rmatch U true (format_regex false (u "%m/%d/%Y")) st k
  = rmatch U true (format_regex false (u "%m/%d/")) st
      (fun st' => rmatch U true (directive_regex (ch "Y")) st' k).
Proof. reflexivity. Qed.

Lemma prefix_slash (m d : nat) (t : str) (K : mstate -> option mstate) :
  1 <= m <= 12 -> 1 <= d <= 31 ->
  rmatch U true (format_regex false (u "%m/%d/"))
         (start_state 0 None (pad2 m ++ u "/" ++ pad2 d ++ u "/" ++ t)) K
  = K (MState 6 (Some 47%N) t [(gd, (3, 5)); (gm, (0, 2))]).
Proof.
  intros Hm Hd.
  cases_upto m; cases_upto d;
  vm_compute; match goal with |- context [K ?x] => destruct (K x) end; reflexivity.
Qed.


Lemma regex_slash (m d : nat) (y1 y2 y3 y4 : char) :
  1 <= m <= 12 -> 1 <= d <= 31 ->
  ascii_digit y1 = true -> ascii_digit y2 = true ->
  ascii_digit y3 = true -> ascii_digit y4 = true ->
  rmatch_at U true (format_regex false (u "%m/%d/%Y")) 0 None
            (pad2 m ++ u "/" ++ pad2 d ++ u "/" ++ [y1; y2; y3; y4])
  = Some (MState 10 (Some y4) [] [(gY, (6, 10)); (gd, (3, 5)); (gm, (0, 2))]).
Proof.
  intros Hm Hd H1 H2 H3 H4. unfold rmatch_at.
  rewrite split_slash_Y, prefix_slash by assumption.
  rewrite match_Y by assumption. reflexivity.
Qed.

Lemma lstrip_keep (c : char) (t : str) : isspace U c = false -> lstrip U (c :: t) = c :: t.
Proof. intro H. simpl. rewrite H. reflexivity. Qed.

(** A string that neither starts nor ends with white space is its own strip. *)
Lemma strip_id (c l : char) (mid : str) :
  isspace U c = false -> isspace U l = false ->
  strip U (c :: mid ++ [l]) = c :: mid ++ [l].
Proof.
  intros Hc Hl. unfold strip, rstrip. rewrite lstrip_keep by exact Hc.
  replace (rev (c :: mid ++ [l])) with (l :: rev (c :: mid)).
  - rewrite lstrip_keep by exact Hl.
    change (l :: rev (c :: mid)) with ([l] ++ rev (c :: mid)).
    rewrite rev_app_distr, rev_involutive. reflexivity.
  - change (c :: mid ++ [l]) with ((c :: mid) ++ [l]).
    rewrite (rev_app_distr (c :: mid) [l]). reflexivity.
Qed.

Lemma strip_id1 (c : char) : isspace U c = false -> strip U [c] = [c].
Proof. intro H. unfold strip, rstrip. cbn. rewrite H. cbn. rewrite H. reflexivity. Qed.

Lemma digit_value_char (n : nat) : digit_value U (digit_char n) = Some (N.of_nat (n mod 10)).
Proof.
  unfold digit_value. rewrite (digit_is_ascii _ (digit_char_digit n)), digit_char_digit.
  unfold digit_char. f_equal. lia.
Qed.

Lemma digits_value_cons (acc n : nat) (t : str) :
  digits_value U acc (digit_char n :: t) = digits_value U (10 * acc + n mod 10) t.
Proof. cbn [digits_value]. rewrite digit_value_char, Nat2N.id. reflexivity. Qed.

Lemma parse_int_pad4 (y : nat) : y <= 9999 -> parse_int U (pad4 y) = Some y.
Proof.
  intro H. unfold parse_int, pad4.
  pose proof (@strip_id (digit_char (y / 1000)) (digit_char y)
                [digit_char (y / 100); digit_char (y / 10)]
                (digit_not_space _ (digit_char_digit _))
                (digit_not_space _ (digit_char_digit _))) as E.
  cbn [app] in E. rewrite E. clear E. rewrite !digits_value_cons. cbn [digits_value]. f_equal.
  replace (y / 1000) with (y / 10 / 10 / 10) by (rewrite !Nat.Div0.div_div; reflexivity).
  replace (y / 100) with (y / 10 / 10) by (rewrite !Nat.Div0.div_div; reflexivity).
  assert (E : y / 10 / 10 / 10 / 10 = 0).
  { rewrite !Nat.Div0.div_div. apply Nat.div_small.
    apply Nat.le_lt_trans with (1 := H). apply Nat.ltb_lt. vm_compute. reflexivity. }
  pose proof (Nat.div_mod_eq y 10). pose proof (Nat.div_mod_eq (y / 10) 10).
  pose proof (Nat.div_mod_eq (y / 10 / 10) 10).
  pose proof (Nat.div_mod_eq (y / 10 / 10 / 10) 10).
  rewrite E in *. lia.
Qed.

Lemma parse_int_pad2 (n : nat) : n < 100 -> parse_int U (pad2 n) = Some n.
Proof.
  intro H. unfold parse_int, pad2.
  pose proof (@strip_id (digit_char (n / 10)) (digit_char n) []
                (digit_not_space _ (digit_char_digit _))
                (digit_not_space _ (digit_char_digit _))) as E.
  cbn [app] in E. rewrite E. clear E. rewrite !digits_value_cons. cbn [digits_value]. f_equal.
  assert (E : n / 10 / 10 = 0).
  { rewrite !Nat.Div0.div_div. apply Nat.div_small. exact H. }
  pose proof (Nat.div_mod_eq n 10). pose proof (Nat.div_mod_eq (n / 10) 10).
  rewrite E in *. lia.
Qed.

Lemma parse_int_digit (n : nat) : n < 10 -> parse_int U [digit_char n] = Some n.
Proof.
  intro H. unfold parse_int.
  rewrite strip_id1 by (apply digit_not_space, digit_char_digit).
  rewrite digits_value_cons. cbn [digits_value]. f_equal.
  rewrite Nat.mod_small by exact H. lia.
Qed.

Lemma valid_date_bounds (y m d : nat) :
  valid_date y m d = true -> 1 <= y <= 9999 /\ 1 <= m <= 12 /\ 1 <= d <= 31.
Proof.
  unfold valid_date. rewrite !andb_true_iff, !Nat.leb_le. intros [[[[[H1 H2] H3] H4] H5] H6].
  repeat split; try assumption.
  unfold days_in_month in H6.
  do 13 (destruct m as [|m]; [try destruct (is_leap y); lia|]). lia.
Qed.

Lemma fields_mdY (sep : char) (y m d : nat) (prev : option char) :
  valid_date y m d = true ->
  date_of_fields U (pad2 m ++ [sep] ++ pad2 d ++ [sep] ++ pad4 y)
                 (MState 10 prev [] [(gY, (6, 10)); (gd, (3, 5)); (gm, (0, 2))])
  = Some (Date y m d).
Proof.
  intro Hv. destruct (valid_date_bounds _ _ _ Hv) as [Hy [Hm Hd]].
  cbv [date_of_fields field_int field_month group get_cap m_caps gY gy gm gd gb gB Nat.eqb
       substr firstn skipn Nat.sub app pad2 pad4].
  fold (pad2 m). fold (pad2 d). fold (pad4 y).
  rewrite parse_int_pad4 by apply Hy. rewrite !parse_int_pad2 by lia.
  cbv [first_some fold_right]. rewrite Hv. reflexivity.
Qed.

Lemma try_formats_none (s f : str) (fs : list str) :
  strptime U s f = None -> try_formats U s (f :: fs) = try_formats U s fs.
Proof. intro H. cbn [try_formats]. rewrite H. reflexivity. Qed.

Lemma try_formats_some (s f : str) (fs : list str) (dt : date) :
  strptime U s f = Some dt -> try_formats U s (f :: fs) = Some (strftime_mdY U dt).
Proof. intro H. cbn [try_formats]. rewrite H. reflexivity. Qed.

Lemma parse_date_any_try (c l : char) (mid : str) (r : str) :
  isspace U c = false -> isspace U l = false ->
  try_formats U (c :: mid ++ [l]) fmts = Some r ->
  parse_date_any U (c :: mid ++ [l]) = r.
Proof.
  intros Hc Hl H. unfold parse_date_any. rewrite strip_id by assumption.
  rewrite H. reflexivity.
Qed.

Lemma fmts_eq :
  fmts = [u "%m/%d/%Y"; u "%m-%d-%Y"; u "%Y-%m-%d"; u "%m/%d/%y"; u "%b %d, %Y"; u "%B %d, %Y"].
Proof. reflexivity. Qed.

(** *** MM/DD/YYYY *)

Lemma strptime_slash (y m d : nat) :
  valid_date y m d = true ->
  strptime U (render_slash (Date y m d)) (u "%m/%d/%Y") = Some (Date y m d).
Proof.
  intro Hv. destruct (valid_date_bounds _ _ _ Hv) as [Hy [Hm Hd]].
  unfold strptime, render_slash. cbn [year month day]. unfold pad4 at 1.
  rewrite regex_slash by (try assumption; apply digit_char_digit).
  cbn [m_pos]. fold (pad4 y).
  change (10 =? List.length _) with true. cbn [negb].
  apply (@fields_mdY 47%N). exact Hv.
Qed.


Lemma parse_slash (y m d : nat) :
  valid_date y m d = true ->
  parse_date_any U (render_slash (Date y m d)) = strftime_mdY U (Date y m d).
Proof.
  intro Hv.
  apply (@parse_date_any_try (digit_char (m / 10)) (digit_char y)
           [digit_char m; 47%N; digit_char (d / 10); digit_char d; 47%N;
            digit_char (y / 1000); digit_char (y / 100); digit_char (y / 10)]);
    try (apply digit_not_space, digit_char_digit).
  rewrite fmts_eq. apply try_formats_some. exact (@strptime_slash y m d Hv).
Qed.

(** *** MM-DD-YYYY *)

Lemma split_dash_Y st k :
  rmatch U true (format_regex false (u "%m-%d-%Y")) st k
  = rmatch U true (format_regex false (u "%m-%d-")) st
      (fun st' => rmatch U true (directive_regex (ch "Y")) st' k).
Proof. reflexivity. Qed.

Lemma prefix_dash (m d : nat) (t : str) (K : mstate -> option mstate) :
  1 <= m <= 12 -> 1 <= d <= 31 ->
  rmatch U true (format_regex false (u "%m-%d-"))
         (start_state 0 None (pad2 m ++ u "-" ++ pad2 d ++ u "-" ++ t)) K
  = K (MState 6 (Some 45%N) t [(gd, (3, 5)); (gm, (0, 2))]).
Proof.
  intros Hm Hd.
  cases_upto m; cases_upto d;
  vm_compute; match goal with |- context [K ?x] => destruct (K x) end; reflexivity.
Qed.

(** A month and a dash are not the start of a month, a slash and more. *)
Lemma slash_format_fails_on_dash (m : nat) (t : str) (f : string) :
  1 <= m <= 12 ->
  In f ["%m/%d/%Y"; "%m/%d/%y"]%string ->
  strptime U (pad2 m ++ u "-" ++ t) (u f) = None.
Proof.
  intros Hm Hf. repeat (destruct Hf as [<-|Hf]); try destruct Hf;
    cases_upto m; vm_compute; reflexivity.
Qed.

Lemma strptime_dash (y m d : nat) :
  valid_date y m d = true ->
  strptime U (render_dash (Date y m d)) (u "%m-%d-%Y") = Some (Date y m d).
Proof.
  intro Hv. destruct (valid_date_bounds _ _ _ Hv) as [Hy [Hm Hd]].
  unfold strptime, render_dash, rmatch_at. cbn [year month day]. unfold pad4 at 1.
  rewrite split_dash_Y, prefix_dash by assumption.
  rewrite match_Y by apply digit_char_digit.
  cbn [m_pos Nat.add]. fold (pad4 y).
  change (10 =? List.length _) with true. cbn [negb].
  apply (@fields_mdY 45%N). exact Hv.
Qed.

Lemma parse_dash (y m d : nat) :
  valid_date y m d = true ->
  parse_date_any U (render_dash (Date y m d)) = strftime_mdY U (Date y m d).
Proof.
  intro Hv. destruct (valid_date_bounds _ _ _ Hv) as [Hy [Hm Hd]].
  apply (@parse_date_any_try (digit_char (m / 10)) (digit_char y)
           [digit_char m; 45%N; digit_char (d / 10); digit_char d; 45%N;
            digit_char (y / 1000); digit_char (y / 100); digit_char (y / 10)]);
    try (apply digit_not_space, digit_char_digit).
  rewrite fmts_eq.
  rewrite try_formats_none
    by (apply (@slash_format_fails_on_dash m _ "%m/%d/%Y"); [exact Hm | simpl; tauto]).
  apply try_formats_some. exact (@strptime_dash y m d Hv).
Qed.


(** *** YYYY-MM-DD *)

Lemma digit_cases (c : char) :
  ascii_digit c = true ->
  (c = 48 \/ c = 49 \/ c = 50 \/ c = 51 \/ c = 52 \/ c = 53 \/ c = 54 \/ c = 55
   \/ c = 56 \/ c = 57)%N.
Proof. intro H. apply digit_range in H. lia. Qed.

(** Three digits are not the start of a month and a separator. *)
Lemma month_first_fails_on_digits (c1 c2 c3 : char) (t : str) (f : string) :
  ascii_digit c1 = true -> ascii_digit c2 = true -> ascii_digit c3 = true ->
  In f ["%m/%d/%Y"; "%m-%d-%Y"]%string ->
  strptime U (c1 :: c2 :: c3 :: t) (u f) = None.
Proof.
  intros H1 H2 H3 Hf.
  apply digit_cases in H1, H2, H3.
  repeat (destruct Hf as [<-|Hf]); try destruct Hf;
    repeat (destruct H1 as [->|H1]); subst;
    repeat (destruct H2 as [->|H2]); subst;
    repeat (destruct H3 as [->|H3]); subst;
    vm_compute; reflexivity.
Qed.

Lemma split_iso st k :
  rmatch U true (format_regex false (u "%Y-%m-%d")) st k
  = rmatch U true (directive_regex (ch "Y")) st
      (fun st' => rmatch U true (format_regex false (u "-%m-%d")) st' k).
Proof. reflexivity. Qed.

Lemma suffix_iso (m d : nat) (prev : option char) :
  1 <= m <= 12 -> 1 <= d <= 31 ->
  rmatch U true (format_regex false (u "-%m-%d"))
         (MState 4 prev (u "-" ++ pad2 m ++ u "-" ++ pad2 d) [(gY, (0, 4))]) Some
  = Some (MState 10 (Some (digit_char d)) [] [(gd, (8, 10)); (gm, (5, 7)); (gY, (0, 4))]).
Proof.
  intros Hm Hd. cases_upto m; cases_upto d; vm_compute; reflexivity.
Qed.

Lemma fields_iso (y m d : nat) (prev : option char) :
  valid_date y m d = true ->
  date_of_fields U (pad4 y ++ [45%N] ++ pad2 m ++ [45%N] ++ pad2 d)
                 (MState 10 prev [] [(gd, (8, 10)); (gm, (5, 7)); (gY, (0, 4))])
  = Some (Date y m d).
Proof.
  intro Hv. destruct (valid_date_bounds _ _ _ Hv) as [Hy [Hm Hd]].
  cbv [date_of_fields field_int field_month group get_cap m_caps gY gy gm gd gb gB Nat.eqb
       substr firstn skipn Nat.sub app pad2 pad4].
  fold (pad2 m). fold (pad2 d). fold (pad4 y).
  rewrite parse_int_pad4 by apply Hy. rewrite !parse_int_pad2 by lia.
  cbv [first_some fold_right]. rewrite Hv. reflexivity.
Qed.

Lemma strptime_iso (y m d : nat) :
  valid_date y m d = true ->
  strptime U (render_iso (Date y m d)) (u "%Y-%m-%d") = Some (Date y m d).
Proof.
  intro Hv. destruct (valid_date_bounds _ _ _ Hv) as [Hy [Hm Hd]].
  unfold strptime, render_iso, rmatch_at, start_state. cbn [year month day].
  unfold pad4 at 1. cbn [app].
  rewrite split_iso. rewrite match_Y by apply digit_char_digit.
  cbn [Nat.add]. rewrite suffix_iso by assumption.
  cbn [m_pos]. fold (pad4 y).
  change (10 =? List.length _) with true. cbn [negb].
  apply (@fields_iso y m d _ Hv).
Qed.

Lemma parse_iso (y m d : nat) :
  valid_date y m d = true ->
  parse_date_any U (render_iso (Date y m d)) = strftime_mdY U (Date y m d).
Proof.
  intro Hv. destruct (valid_date_bounds _ _ _ Hv) as [Hy [Hm Hd]].
  apply (@parse_date_any_try (digit_char (y / 1000)) (digit_char d)
           [digit_char (y / 100); digit_char (y / 10); digit_char y; 45%N;
            digit_char (m / 10); digit_char m; 45%N; digit_char (d / 10)]);
    try (apply digit_not_space, digit_char_digit).
  rewrite fmts_eq.
  rewrite try_formats_none
    by (apply (@month_first_fails_on_digits _ _ _ _ "%m/%d/%Y");
        try apply digit_char_digit; simpl; tauto).
  rewrite try_formats_none
    by (apply (@month_first_fails_on_digits _ _ _ _ "%m-%d-%Y");
        try apply digit_char_digit; simpl; tauto).
  apply try_formats_some. exact (@strptime_iso y m d Hv).
Qed.


(** *** MM/DD/YY *)

Lemma match_Y_two (y1 y2 : char) pos prev caps k :
  ascii_digit y1 = true -> ascii_digit y2 = true ->
  rmatch U true (directive_regex (ch "Y")) (MState pos prev [y1; y2] caps) k = None.
Proof.
  intros H1 H2.
  change (directive_regex (ch "Y")) with (Grp gY (seq [cls_d; cls_d; cls_d; cls_d])).
  cbn [rmatch seq cls_d m_rest m_pos m_caps m_prev advance set_cap].
  rewrite !set_match_digit by assumption. reflexivity.
Qed.

Lemma match_y (y1 y2 : char) (t : str) pos prev caps k :
  ascii_digit y1 = true -> ascii_digit y2 = true ->
  rmatch U true (directive_regex (ch "y")) (MState pos prev (y1 :: y2 :: t) caps) k
  = k (MState (2 + pos) (Some y2) t ((gy, (pos, 2 + pos)) :: caps)).
Proof.
  intros H1 H2.
  change (directive_regex (ch "y")) with (Grp gy (seq [cls_d; cls_d])).
  cbn [rmatch seq cls_d m_rest m_pos m_caps m_prev advance set_cap].
  rewrite !set_match_digit by assumption. reflexivity.
Qed.

Lemma split_slash_y st k :
  rmatch U true (format_regex false (u "%m/%d/%y")) st k
  = rmatch U true (format_regex false (u "%m/%d/")) st
      (fun st' => rmatch U true (directive_regex (ch "y")) st' k).
Proof. reflexivity. Qed.

(** A month and a slash are not the start of a month and a dash, nor of a
    year. *)
Lemma other_formats_fail_on_slash (m : nat) (t : str) (f : string) :
  1 <= m <= 12 ->
  In f ["%m-%d-%Y"; "%Y-%m-%d"]%string ->
  strptime U (pad2 m ++ u "/" ++ t) (u f) = None.
Proof.
  intros Hm Hf. repeat (destruct Hf as [<-|Hf]); try destruct Hf;
    cases_upto m; vm_compute; reflexivity.
Qed.

Lemma four_digit_year_fails_on_short (y m d : nat) :
  valid_date y m d = true ->
  strptime U (render_short (Date y m d)) (u "%m/%d/%Y") = None.
Proof.
  intro Hv. destruct (valid_date_bounds _ _ _ Hv) as [Hy [Hm Hd]].
  unfold strptime, render_short, rmatch_at. cbn [year month day]. unfold pad2 at 3.
  rewrite split_slash_Y, prefix_slash by assumption.
  rewrite match_Y_two by apply digit_char_digit. reflexivity.
Qed.

Lemma mod_mod_mul (y a b : nat) : (y mod (a * b)) mod a = y mod a.
Proof.
  rewrite Nat.Div0.mod_mul_r, (Nat.mul_comm a), Nat.Div0.mod_add, Nat.Div0.mod_mod.
  reflexivity.
Qed.

Lemma is_leap_mod (y : nat) : is_leap y = is_leap (y mod 400).
Proof.
  unfold is_leap.
  rewrite (mod_mod_mul y 4 100 : (y mod 400) mod 4 = y mod 4).
  rewrite (mod_mod_mul y 100 4 : (y mod 400) mod 100 = y mod 100).
  rewrite Nat.Div0.mod_mod. reflexivity.
Qed.

Lemma pivot_year_mod (y : nat) : pivot_year y = pivot_year (y mod 400).
Proof.
  unfold pivot_year.
  rewrite (mod_mod_mul y 100 4 : (y mod 400) mod 100 = y mod 100). reflexivity.
Qed.

Lemma leap_pivot (y : nat) : is_leap y = true -> is_leap (pivot_year y) = true.
Proof.
  rewrite is_leap_mod, pivot_year_mod.
  assert (H : forallb (fun z => implb (is_leap z) (is_leap (pivot_year z))) (List.seq 0 400)
              = true) by (vm_compute; reflexivity).
  rewrite forallb_forall in H.
  assert (Hin : In (y mod 400) (List.seq 0 400)).
  { apply in_seq. pose proof (Nat.mod_upper_bound y 400). lia. }
  specialize (H _ Hin). intro E. rewrite E in H. exact H.
Qed.

Lemma pivot_year_range (y : nat) : 1969 <= pivot_year y <= 2068.
Proof.
  unfold pivot_year. pose proof (Nat.mod_upper_bound y 100 ltac:(lia)).
  destruct (y mod 100 <=? 68) eqn:E; [apply Nat.leb_le in E | apply Nat.leb_gt in E]; lia.
Qed.

Lemma pivot_year_id (y : nat) : 1969 <= y <= 2068 -> pivot_year y = y.
Proof.
  intro H. unfold pivot_year.
  pose proof (Nat.div_mod_eq y 100). pose proof (Nat.mod_upper_bound y 100 ltac:(lia)).
  assert (y / 100 = 19 \/ y / 100 = 20).
  { assert (19 <= y / 100) by (apply Nat.div_le_lower_bound; lia).
    assert (y / 100 < 21) by (apply Nat.Div0.div_lt_upper_bound; lia). lia. }
  destruct (y mod 100 <=? 68) eqn:E; [apply Nat.leb_le in E | apply Nat.leb_gt in E]; lia.
Qed.

Lemma valid_pivot (y m d : nat) :
  valid_date y m d = true -> valid_date (pivot_year y) m d = true.
Proof.
  intro Hv. destruct (valid_date_bounds _ _ _ Hv) as [Hy [Hm Hd]].
  pose proof (pivot_year_range y) as Hp.
  unfold valid_date in *. rewrite !andb_true_iff, !Nat.leb_le in *.
  destruct Hv as [[[[[H1 H2] H3] H4] H5] H6].
  repeat split; try lia.
  - apply Nat.le_trans with 2068; [lia|]. apply Nat.leb_le. vm_compute. reflexivity.
  - unfold days_in_month in *.
    destruct (is_leap y) eqn:El; [rewrite (leap_pivot _ El); exact H6|].
    destruct (is_leap (pivot_year y)); cases_upto m; lia.
Qed.

Lemma fields_short (y m d : nat) (prev : option char) :
  valid_date y m d = true ->
  date_of_fields U (pad2 m ++ [47%N] ++ pad2 d ++ [47%N] ++ pad2 (y mod 100))
                 (MState 8 prev [] [(gy, (6, 8)); (gd, (3, 5)); (gm, (0, 2))])
  = Some (Date (pivot_year y) m d).
Proof.
  intro Hv. destruct (valid_date_bounds _ _ _ Hv) as [Hy [Hm Hd]].
  pose proof (Nat.mod_upper_bound y 100 ltac:(lia)) as Hr.
  cbv [date_of_fields field_int field_month group get_cap m_caps gY gy gm gd gb gB Nat.eqb
       substr firstn skipn Nat.sub app pad2].
  fold (pad2 m). fold (pad2 d). fold (pad2 (y mod 100)).
  rewrite !parse_int_pad2 by lia.
  cbv [first_some fold_right]. fold (pivot_year y).
  rewrite (valid_pivot _ _ _ Hv). reflexivity.
Qed.

Lemma strptime_short (y m d : nat) :
  valid_date y m d = true ->
  strptime U (render_short (Date y m d)) (u "%m/%d/%y") = Some (Date (pivot_year y) m d).
Proof.
  intro Hv. destruct (valid_date_bounds _ _ _ Hv) as [Hy [Hm Hd]].
  unfold strptime, render_short, rmatch_at. cbn [year month day]. unfold pad2 at 3.
  rewrite split_slash_y, prefix_slash by assumption.
  rewrite match_y by apply digit_char_digit.
  cbn [m_pos Nat.add]. fold (pad2 (y mod 100)).
  change (8 =? List.length _) with true. cbn [negb].
  apply (@fields_short y m d _ Hv).
Qed.

Lemma parse_short (y m d : nat) :
  valid_date y m d = true ->
  parse_date_any U (render_short (Date y m d)) = strftime_mdY U (Date (pivot_year y) m d).
Proof.
  intro Hv. destruct (valid_date_bounds _ _ _ Hv) as [Hy [Hm Hd]].
  apply (@parse_date_any_try (digit_char (m / 10)) (digit_char (y mod 100))
           [digit_char m; 47%N; digit_char (d / 10); digit_char d; 47%N;
            digit_char (y mod 100 / 10)]);
    try (apply digit_not_space, digit_char_digit).
  rewrite fmts_eq.
  rewrite try_formats_none by exact (@four_digit_year_fails_on_short y m d Hv).
  rewrite try_formats_none
    by (apply (@other_formats_fail_on_slash m _ "%m-%d-%Y"); [exact Hm | simpl; tauto]).
  rewrite try_formats_none
    by (apply (@other_formats_fail_on_slash m _ "%Y-%m-%d"); [exact Hm | simpl; tauto]).
  apply try_formats_some. exact (@strptime_short y m d Hv).
Qed.


(** *** Mon DD, YYYY and Month DD, YYYY *)

Lemma plus_space_one (c : char) (t : str) pos prev caps k :
  set_match U true [ISpace] c = false ->
  rmatch U true (plus cls_s) (MState pos prev (32%N :: c :: t) caps) k
  = k (MState (S pos) (Some 32%N) (c :: t) caps).
Proof.
  intro Hc. unfold plus, cls_s.
  cbn [rmatch rep_loop m_rest m_pos m_caps m_prev advance List.length].
  change (set_match U true [ISpace] 32%N) with true. cbv iota.
  rewrite Hc.
  replace (pos <? S pos) with true by (symmetry; apply Nat.ltb_lt; lia).
  cbn [Nat.leb].
  match goal with
  | |- _ = ?R =>
      transitivity (match R with Some res => Some res | None => None end);
      [reflexivity | destruct R; reflexivity]
  end.
Qed.

Lemma space_Y (y1 y2 y3 y4 : char) pos prev caps k :
  ascii_digit y1 = true -> ascii_digit y2 = true ->
  ascii_digit y3 = true -> ascii_digit y4 = true ->
  rmatch U true (format_regex false (u " %Y")) (MState pos prev [32%N; y1; y2; y3; y4] caps) k
  = k (MState (5 + pos) (Some y4) [] ((gY, (S pos, 5 + pos)) :: caps)).
Proof.
  intros H1 H2 H3 H4.
  change (rmatch U true (format_regex false (u " %Y")) ?st k)
    with (rmatch U true (plus cls_s) st
            (fun st' => rmatch U true (directive_regex (ch "Y")) st' k)).
  rewrite plus_space_one by (apply set_match_space_digit, H1).
  rewrite match_Y by assumption. reflexivity.
Qed.

Lemma split_abbr st k :
  rmatch U true (format_regex false (u "%b %d, %Y")) st k
  = rmatch U true (format_regex false (u "%b %d,")) st
      (fun st' => rmatch U true (format_regex false (u " %Y")) st' k).
Proof. reflexivity. Qed.

Lemma split_full st k :
  rmatch U true (format_regex false (u "%B %d, %Y")) st k
  = rmatch U true (format_regex false (u "%B %d,")) st
      (fun st' => rmatch U true (format_regex false (u " %Y")) st' k).
Proof. reflexivity. Qed.

Lemma prefix_abbr (m d : nat) (t : str) (K : mstate -> option mstate) :
  1 <= m <= 12 -> 1 <= d <= 31 ->
  rmatch U true (format_regex false (u "%b %d,"))
         (start_state 0 None (u (month_abbr m) ++ u " " ++ pad2 d ++ u "," ++ t)) K
  = K (MState 7 (Some 44%N) t [(gd, (4, 6)); (gb, (0, 3))]).
Proof.
  intros Hm Hd.
  cases_upto m; cases_upto d;
  vm_compute; match goal with |- context [K ?x] => destruct (K x) end; reflexivity.
Qed.

Lemma prefix_abbr_plain (m d : nat) (t : str) (K : mstate -> option mstate) :
  1 <= m <= 12 -> 1 <= d <= 9 ->
  rmatch U true (format_regex false (u "%b %d,"))
         (start_state 0 None (u (month_abbr m) ++ u " " ++ [digit_char d] ++ u "," ++ t)) K
  = K (MState 6 (Some 44%N) t [(gd, (4, 5)); (gb, (0, 3))]).
Proof.
  intros Hm Hd.
  cases_upto m; cases_upto d;
  vm_compute; match goal with |- context [K ?x] => destruct (K x) end; reflexivity.
Qed.

Lemma prefix_full (m d : nat) (t : str) (K : mstate -> option mstate) :
  1 <= m <= 12 -> 1 <= d <= 31 ->
  rmatch U true (format_regex false (u "%B %d,"))
         (start_state 0 None (u (month_name m) ++ u " " ++ pad2 d ++ u "," ++ t)) K
  = K (MState (String.length (month_name m) + 4) (Some 44%N) t
              [(gd, (String.length (month_name m) + 1, String.length (month_name m) + 3));
               (gB, (0, String.length (month_name m)))]).
Proof.
  intros Hm Hd.
  cases_upto m; cases_upto d;
  vm_compute; match goal with |- context [K ?x] => destruct (K x) end; reflexivity.
Qed.

Lemma prefix_full_plain (m d : nat) (t : str) (K : mstate -> option mstate) :
  1 <= m <= 12 -> 1 <= d <= 9 ->
  rmatch U true (format_regex false (u "%B %d,"))
         (start_state 0 None (u (month_name m) ++ u " " ++ [digit_char d] ++ u "," ++ t)) K
  = K (MState (String.length (month_name m) + 3) (Some 44%N) t
              [(gd, (String.length (month_name m) + 1, String.length (month_name m) + 2));
               (gB, (0, String.length (month_name m)))]).
Proof.
  intros Hm Hd.
  cases_upto m; cases_upto d;
  vm_compute; match goal with |- context [K ?x] => destruct (K x) end; reflexivity.
Qed.

(** A month name is not the start of a number. *)
Lemma numeric_formats_fail_on_abbr (m : nat) (t : str) (f : string) :
  1 <= m <= 12 ->
  In f ["%m/%d/%Y"; "%m-%d-%Y"; "%Y-%m-%d"; "%m/%d/%y"]%string ->
  strptime U (u (month_abbr m) ++ t) (u f) = None.
Proof.
  intros Hm Hf. repeat (destruct Hf as [<-|Hf]); try destruct Hf;
    cases_upto m; vm_compute; reflexivity.
Qed.

Lemma numeric_formats_fail_on_name (m : nat) (t : str) (f : string) :
  1 <= m <= 12 ->
  In f ["%m/%d/%Y"; "%m-%d-%Y"; "%Y-%m-%d"; "%m/%d/%y"]%string ->
  strptime U (u (month_name m) ++ t) (u f) = None.
Proof.
  intros Hm Hf. repeat (destruct Hf as [<-|Hf]); try destruct Hf;
    cases_upto m; vm_compute; reflexivity.
Qed.

(** A full month name, May apart, goes on after its abbreviation. *)
Lemma abbr_fails_on_full (m : nat) (t : str) :
  1 <= m <= 12 -> m <> 5 ->
  strptime U (u (month_name m) ++ t) (u "%b %d, %Y") = None.
Proof.
  intros Hm H5. cases_upto m; try (exfalso; apply H5; reflexivity); vm_compute; reflexivity.
Qed.


Lemma parse_date_any_of (s : str) (c l : char) (mid : str) (r : str) :
  s = c :: mid ++ [l] ->
  isspace U c = false -> isspace U l = false ->
  try_formats U s fmts = Some r ->
  parse_date_any U s = r.
Proof. intros ->. apply parse_date_any_try. Qed.

Lemma fields_abbr (y m d : nat) (prev : option char) :
  valid_date y m d = true ->
  date_of_fields U (u (month_abbr m) ++ [32%N] ++ pad2 d ++ [44%N; 32%N] ++ pad4 y)
                 (MState 12 prev [] [(gY, (8, 12)); (gd, (4, 6)); (gb, (0, 3))])
  = Some (Date y m d).
Proof.
  intro Hv. destruct (valid_date_bounds _ _ _ Hv) as [Hy [Hm Hd]].
  cases_upto m; eval_names; read_fields;
    rewrite parse_int_pad4 by apply Hy; rewrite !parse_int_pad2 by lia;
    cbv [first_some fold_right]; rewrite Hv; reflexivity.
Qed.

Lemma fields_abbr_plain (y m d : nat) (prev : option char) :
  valid_date y m d = true -> d <= 9 ->
  date_of_fields U (u (month_abbr m) ++ [32%N] ++ [digit_char d] ++ [44%N; 32%N] ++ pad4 y)
                 (MState 11 prev [] [(gY, (7, 11)); (gd, (4, 5)); (gb, (0, 3))])
  = Some (Date y m d).
Proof.
  intros Hv H9. destruct (valid_date_bounds _ _ _ Hv) as [Hy [Hm Hd]].
  cases_upto m; eval_names; read_fields;
    rewrite parse_int_pad4 by apply Hy; rewrite !parse_int_digit by lia;
    cbv [first_some fold_right]; rewrite Hv; reflexivity.
Qed.

Lemma fields_full (y m d : nat) (prev : option char) :
  valid_date y m d = true ->
  date_of_fields U (u (month_name m) ++ [32%N] ++ pad2 d ++ [44%N; 32%N] ++ pad4 y)
                 (MState (String.length (month_name m) + 9) prev []
                    [(gY, (String.length (month_name m) + 5, String.length (month_name m) + 9));
                     (gd, (String.length (month_name m) + 1, String.length (month_name m) + 3));
                     (gB, (0, String.length (month_name m)))])
  = Some (Date y m d).
Proof.
  intro Hv. destruct (valid_date_bounds _ _ _ Hv) as [Hy [Hm Hd]].
  cases_upto m; eval_names; read_fields;
    rewrite parse_int_pad4 by apply Hy; rewrite !parse_int_pad2 by lia;
    cbv [first_some fold_right]; rewrite Hv; reflexivity.
Qed.

Lemma fields_full_plain (y m d : nat) (prev : option char) :
  valid_date y m d = true -> d <= 9 ->
  date_of_fields U (u (month_name m) ++ [32%N] ++ [digit_char d] ++ [44%N; 32%N] ++ pad4 y)
                 (MState (String.length (month_name m) + 8) prev []
                    [(gY, (String.length (month_name m) + 4, String.length (month_name m) + 8));
                     (gd, (String.length (month_name m) + 1, String.length (month_name m) + 2));
                     (gB, (0, String.length (month_name m)))])
  = Some (Date y m d).
Proof.
  intros Hv H9. destruct (valid_date_bounds _ _ _ Hv) as [Hy [Hm Hd]].
  cases_upto m; eval_names; read_fields;
    rewrite parse_int_pad4 by apply Hy; rewrite !parse_int_digit by lia;
    cbv [first_some fold_right]; rewrite Hv; reflexivity.
Qed.


Lemma strptime_abbr (y m d : nat) :
  valid_date y m d = true ->
  strptime U (render_abbr (pad2 d) (Date y m d)) (u "%b %d, %Y") = Some (Date y m d).
Proof.
  intro Hv. destruct (valid_date_bounds _ _ _ Hv) as [Hy [Hm Hd]].
  unfold strptime, render_abbr, rmatch_at. cbn [year month day].
  change (u ", " ++ pad4 y)
    with (u "," ++ [32%N; digit_char (y / 1000); digit_char (y / 100); digit_char (y / 10);
                    digit_char y]).
  rewrite split_abbr, prefix_abbr by assumption.
  rewrite space_Y by apply digit_char_digit.
  cbn [m_pos Nat.add].
  cases_upto m; change (12 =? List.length _) with true; cbn [negb];
    apply (@fields_abbr y _ d _ Hv).
Qed.

Lemma strptime_abbr_plain (y m d : nat) :
  valid_date y m d = true -> d <= 9 ->
  strptime U (render_abbr [digit_char d] (Date y m d)) (u "%b %d, %Y") = Some (Date y m d).
Proof.
  intros Hv H9. destruct (valid_date_bounds _ _ _ Hv) as [Hy [Hm Hd]].
  unfold strptime, render_abbr, rmatch_at. cbn [year month day].
  change (u ", " ++ pad4 y)
    with (u "," ++ [32%N; digit_char (y / 1000); digit_char (y / 100); digit_char (y / 10);
                    digit_char y]).
  rewrite split_abbr, prefix_abbr_plain by (try assumption; lia).
  rewrite space_Y by apply digit_char_digit.
  cbn [m_pos Nat.add].
  cases_upto m; change (11 =? List.length _) with true; cbn [negb];
    apply (@fields_abbr_plain y _ d _ Hv H9).
Qed.

Lemma strptime_full (y m d : nat) :
  valid_date y m d = true ->
  strptime U (render_full (pad2 d) (Date y m d)) (u "%B %d, %Y") = Some (Date y m d).
Proof.
  intro Hv. destruct (valid_date_bounds _ _ _ Hv) as [Hy [Hm Hd]].
  unfold strptime, render_full, rmatch_at. cbn [year month day].
  change (u ", " ++ pad4 y)
    with (u "," ++ [32%N; digit_char (y / 1000); digit_char (y / 100); digit_char (y / 10);
                    digit_char y]).
  rewrite split_full, prefix_full by assumption.
  rewrite space_Y by apply digit_char_digit.
  cbn [m_pos].
  cases_upto m; change (_ =? List.length _) with true; cbn [negb];
    apply (@fields_full y _ d _ Hv).
Qed.

Lemma strptime_full_plain (y m d : nat) :
  valid_date y m d = true -> d <= 9 ->
  strptime U (render_full [digit_char d] (Date y m d)) (u "%B %d, %Y") = Some (Date y m d).
Proof.
  intros Hv H9. destruct (valid_date_bounds _ _ _ Hv) as [Hy [Hm Hd]].
  unfold strptime, render_full, rmatch_at. cbn [year month day].
  change (u ", " ++ pad4 y)
    with (u "," ++ [32%N; digit_char (y / 1000); digit_char (y / 100); digit_char (y / 10);
                    digit_char y]).
  rewrite split_full, prefix_full_plain by (try assumption; lia).
  rewrite space_Y by apply digit_char_digit.
  cbn [m_pos].
  cases_upto m; change (_ =? List.length _) with true; cbn [negb];
    apply (@fields_full_plain y _ d _ Hv H9).
Qed.

(** A rendering that starts with a month name, as a first character, a
    middle and a last character. *)
Ltac name_shape nm dd y :=
  let v := eval vm_compute in (u nm) in
  match v with
  | ?c0 :: ?r0 =>
      apply (@parse_date_any_of _ c0 (digit_char y)
               (r0 ++ [32%N] ++ dd ++ [44%N; 32%N]
                ++ [digit_char (y / 1000); digit_char (y / 100); digit_char (y / 10)]));
      [ rewrite <- !app_assoc; reflexivity
      | reflexivity
      | apply digit_not_space, digit_char_digit
      | ]
  end.

(** The numeric formats fail on a rendering that starts with a month name. *)
Ltac skip_numeric lem :=
  rewrite fmts_eq;
  rewrite try_formats_none by (apply lem; [assumption | simpl; tauto]);
  rewrite try_formats_none by (apply lem; [assumption | simpl; tauto]);
  rewrite try_formats_none by (apply lem; [assumption | simpl; tauto]);
  rewrite try_formats_none by (apply lem; [assumption | simpl; tauto]).

Lemma parse_abbr_with (dd : str) (y m d : nat) :
  valid_date y m d = true ->
  strptime U (render_abbr dd (Date y m d)) (u "%b %d, %Y") = Some (Date y m d) ->
  parse_date_any U (render_abbr dd (Date y m d)) = strftime_mdY U (Date y m d).
Proof.
  intros Hv Hs. destruct (valid_date_bounds _ _ _ Hv) as [Hy [Hm Hd]].
  cases_upto m;
    match goal with
    | |- parse_date_any U (render_abbr _ (Date _ ?k _)) = _ => name_shape (month_abbr k) dd y
    end;
    unfold render_abbr in *; cbn [year month day] in *;
    skip_numeric numeric_formats_fail_on_abbr; apply try_formats_some; exact Hs.
Qed.

Lemma parse_full_with (dd : str) (y m d : nat) :
  valid_date y m d = true ->
  strptime U (render_abbr dd (Date y m d)) (u "%b %d, %Y") = Some (Date y m d) ->
  strptime U (render_full dd (Date y m d)) (u "%B %d, %Y") = Some (Date y m d) ->
  parse_date_any U (render_full dd (Date y m d)) = strftime_mdY U (Date y m d).
Proof.
  intros Hv Ha Hs. destruct (valid_date_bounds _ _ _ Hv) as [Hy [Hm Hd]].
  destruct (Nat.eq_dec m 5) as [->|H5].
  - change (render_full dd (Date y 5 d)) with (render_abbr dd (Date y 5 d)).
    apply parse_abbr_with; assumption.
  - clear Ha.
    cases_upto m; try (exfalso; apply H5; reflexivity);
      match goal with
      | |- parse_date_any U (render_full _ (Date _ ?k _)) = _ => name_shape (month_name k) dd y
      end;
      unfold render_full in *; cbn [year month day] in *;
      skip_numeric numeric_formats_fail_on_name;
      (rewrite try_formats_none by (apply abbr_fails_on_full; [exact Hm | exact H5]));
      apply try_formats_some; exact Hs.
Qed.


Lemma pad4_inj (a b : nat) : a <= 9999 -> b <= 9999 -> pad4 a = pad4 b -> a = b.
Proof.
  intros Ha Hb E. pose proof (parse_int_pad4 Ha) as Pa. rewrite E, (parse_int_pad4 Hb) in Pa.
  congruence.
Qed.

(** From the year 1000 on [strftime] writes MM-DD-YYYY whatever the
    platform. *)
Lemma strftime_mdY_dash (dt : date) : 1000 <= year dt -> strftime_mdY U dt = render_dash dt.
Proof.
  intro H. unfold strftime_mdY, render_dash. apply Nat.leb_le in H. rewrite H. reflexivity.
Qed.

(** C5, as the code has it.  For a date of the years 1000 to 9999 (from
    where on %Y has four digits on every platform) the five renderings that
    carry the whole year, the month-name ones with the day zero-filled or
    not, are mapped to the canonical MM-DD-YYYY string of the date.  The
    rendering MM/DD/YY is mapped to the canonical string of the date in the
    years 1969 to 2068 that has the same last two digits of the year, which
    is the canonical string of the date itself exactly when its year lies
    in that range. *)
Theorem C5_renderings_normalize (y m d : nat) :
  valid_date y m d = true -> 1000 <= y ->
  parse_date_any U (render_slash (Date y m d)) = strftime_mdY U (Date y m d)
  /\ parse_date_any U (render_dash (Date y m d)) = strftime_mdY U (Date y m d)
  /\ parse_date_any U (render_iso (Date y m d)) = strftime_mdY U (Date y m d)
  /\ parse_date_any U (render_abbr (pad2 d) (Date y m d)) = strftime_mdY U (Date y m d)
  /\ parse_date_any U (render_abbr (day_plain d) (Date y m d)) = strftime_mdY U (Date y m d)
  /\ parse_date_any U (render_full (pad2 d) (Date y m d)) = strftime_mdY U (Date y m d)
  /\ parse_date_any U (render_full (day_plain d) (Date y m d)) = strftime_mdY U (Date y m d)
  /\ parse_date_any U (render_short (Date y m d)) = strftime_mdY U (Date (pivot_year y) m d)
  /\ (parse_date_any U (render_short (Date y m d)) = strftime_mdY U (Date y m d)
      <-> 1969 <= y <= 2068).
Proof.
  intros Hv Hk. destruct (valid_date_bounds _ _ _ Hv) as [Hy [Hm Hd]].
  assert (Ha : parse_date_any U (render_abbr (pad2 d) (Date y m d))
               = strftime_mdY U (Date y m d))
    by (apply parse_abbr_with; [exact Hv | apply strptime_abbr, Hv]).
  assert (Hf : parse_date_any U (render_full (pad2 d) (Date y m d))
               = strftime_mdY U (Date y m d))
    by (apply parse_full_with; [exact Hv | apply strptime_abbr, Hv | apply strptime_full, Hv]).
  split; [apply parse_slash, Hv|].
  split; [apply parse_dash, Hv|].
  split; [apply parse_iso, Hv|].
  split; [exact Ha|].
  split.
  { unfold day_plain. destruct (d <? 10) eqn:E; [apply Nat.ltb_lt in E | exact Ha].
    apply parse_abbr_with; [exact Hv | apply strptime_abbr_plain; [exact Hv | lia]]. }
  split; [exact Hf|].
  split.
  { unfold day_plain. destruct (d <? 10) eqn:E; [apply Nat.ltb_lt in E | exact Hf].
    apply parse_full_with;
      [ exact Hv
      | apply strptime_abbr_plain; [exact Hv | lia]
      | apply strptime_full_plain; [exact Hv | lia] ]. }
  split; [apply parse_short, Hv|].
  rewrite (parse_short _ _ _ Hv).
  pose proof (pivot_year_range y) as Hp.
  assert (Hk' : 1000 <= pivot_year y)
    by (apply Nat.le_trans with 1969; [apply Nat.leb_le; vm_compute; reflexivity | apply Hp]).
  rewrite (strftime_mdY_dash (Date (pivot_year y) m d) Hk'), (strftime_mdY_dash (Date y m d) Hk).
  split.
  - unfold render_dash. cbn [year month day]. intro E.
    do 4 apply app_inv_head in E.
    apply pad4_inj in E; [rewrite <- E; exact Hp | | apply Hy].
    apply Nat.le_trans with 2068; [apply Hp|]. apply Nat.leb_le. vm_compute. reflexivity.
  - intro H. rewrite pivot_year_id by exact H. reflexivity.
Qed.

End DateProperties.

(** C5 (counterexample).  5 March 1950: its rendering MM/DD/YY is read as a
    date of 2050, its rendering YYYY-MM-DD as the date itself. *)
Lemma C5_counterexample :
  valid_date 1950 3 5 = true
  /\ render_short (Date 1950 3 5) = u "03/05/50"
  /\ render_iso (Date 1950 3 5) = u "1950-03-05"
  /\ parse_date_any ucd (render_short (Date 1950 3 5)) = u "03-05-2050"
  /\ parse_date_any ucd (render_iso (Date 1950 3 5)) = u "03-05-1950".
Proof. vm_compute. repeat split; reflexivity. Qed.

(* ------------------------------------------------------------------ *)
(** ** Identifiers of nine digits *)

Lemma skipn_cons_next (A : Type) (n : nat) (l : list A) (c : A) (t : list A) :
  skipn n l = c :: t -> skipn (S n) l = t.
Proof.
  intro H. change (S n) with (1 + n). rewrite <- skipn_skipn, H. reflexivity.
Qed.

Lemma skipn_In (A : Type) (n : nat) (l : list A) (x : A) : In x (skipn n l) -> In x l.
Proof. intro H. rewrite <- (firstn_skipn n l). apply in_or_app. right. exact H. Qed.

Lemma steps_refl (st : mstate) : steps st [] st.
Proof. split; simpl; [reflexivity | lia]. Qed.

Lemma steps_trans (a b c : mstate) (w1 w2 : str) :
  steps a w1 b -> steps b w2 c -> steps a (w1 ++ w2) c.
Proof.
  intros [H1 P1] [H2 P2]. split.
  - rewrite H1, H2, app_assoc. reflexivity.
  - rewrite P2, P1, length_app. lia.
Qed.

Lemma steps_reaches (st st' : mstate) (w : str) : steps st w st' -> reaches st st'.
Proof. intro H. exists w. exact H. Qed.

Lemma reaches_at_text (text : str) (st st' : mstate) :
  reaches st st' -> at_text text st -> at_text text st'.
Proof.
  unfold at_text. intros [w [Hw Hp]] H. rewrite Hp, Nat.add_comm, <- skipn_skipn, <- H, Hw.
  rewrite skipn_app, skipn_all, Nat.sub_diag. reflexivity.
Qed.

Section IdentifierProperties.

Variable U : unicode_db.

Lemma iter_reaches (R : mstate -> mstate -> Prop) (n : nat) (st st' : mstate) :
  (forall a b, R a b -> reaches a b) -> iter R n st st' -> reaches st st'.
Proof.
  intro HR. revert st. induction n as [|n IH]; intros st H; simpl in H.
  - subst. apply reaches_refl.
  - destruct H as [st1 [H1 H2]]. eapply reaches_trans; [apply HR, H1 | apply IH, H2].
Qed.

Lemma matches_reaches (ic : bool) (r : regex) (st st' : mstate) :
  matches U ic r st st' -> reaches st st'.
Proof.
  revert st st'.
  induction r as [|p|items|items|r1 IH1 r2 IH2|r1 IH1 r2 IH2|lo hi r1 IH1|g r1 IH1|];
    intros st st' H; simpl in H.
  - subst. apply reaches_refl.
  - destruct H as [c [t [E [_ ->]]]]. apply reaches_advance, E.
  - destruct H as [c [t [E [_ ->]]]]. apply reaches_advance, E.
  - destruct H as [c [t [E [_ ->]]]]. apply reaches_advance, E.
  - destruct H as [st1 [H1 H2]]. eapply reaches_trans; [apply IH1, H1 | apply IH2, H2].
  - destruct H as [H|H]; [apply IH1, H | apply IH2, H].
  - destruct H as [n [_ [_ H]]]. eapply iter_reaches; [|exact H]. exact IH1.
  - destruct H as [st1 [H1 ->]]. apply reaches_set_cap, IH1, H1.
  - destruct H as [_ ->]. apply reaches_refl.
Qed.

(** What [re.search] finds is a match at the position it gives. *)
Lemma search_from_found (ic : bool) (r : regex) (text : str) (rest : str) :
  forall pos prev b st',
    rest = skipn pos text ->
    search_from U ic r pos prev rest = Some (b, st') ->
    exists prev', rmatch_at U ic r b prev' (skipn b text) = Some st'.
Proof.
  induction rest as [|c t IH]; intros pos prev b st' Hr H; simpl in H.
  - destruct (rmatch_at U ic r pos prev []) as [st1|] eqn:E; [|discriminate].
    injection H as <- <-. exists prev. rewrite <- Hr. exact E.
  - destruct (rmatch_at U ic r pos prev (c :: t)) as [st1|] eqn:E.
    + injection H as <- <-. exists prev. rewrite <- Hr. exact E.
    + apply IH in H; [exact H|]. symmetry. apply skipn_cons_next with c. symmetry. exact Hr.
Qed.

Lemma finditer_from_found (ic : bool) (r : regex) (text : str) (fuel : nat) :
  forall pos prev rest m,
    rest = skipn pos text ->
    In m (finditer_from U fuel ic r pos prev rest) ->
    exists prev', rmatch_at U ic r (fst m) prev' (skipn (fst m) text) = Some (snd m).
Proof.
  induction fuel as [|fuel IH]; intros pos prev rest m Hr H; simpl in H; [destruct H|].
  destruct (search_from U ic r pos prev rest) as [[b st']|] eqn:E; [|destruct H].
  pose proof (@search_from_found ic r text rest pos prev b st' Hr E) as [prev' Hm].
  destruct H as [<-|H]; [exists prev'; exact Hm|].
  assert (Hat : m_rest st' = skipn (m_pos st') text).
  { apply rmatch_at_reaches in Hm as [w [Hw Hp]].
    rewrite Hp, Nat.add_comm, <- skipn_skipn, Hw.
    rewrite skipn_app, skipn_all, Nat.sub_diag. reflexivity. }
  destruct (b <? m_pos st').
  - eapply IH; [exact Hat | exact H].
  - destruct (m_rest st') as [|c t] eqn:Er; [destruct H|].
    eapply IH; [|exact H]. symmetry. apply skipn_cons_next with c. symmetry. exact Hat.
Qed.

Lemma finditer_found (ic : bool) (r : regex) (text : str) (m : nat * mstate) :
  In m (finditer U ic r text) ->
  exists prev', rmatch_at U ic r (fst m) prev' (skipn (fst m) text) = Some (snd m).
Proof. unfold finditer. apply finditer_from_found. reflexivity. Qed.

(** One character of a set. *)
Lemma one_of_step (ic : bool) (items : list citem) (st st' : mstate) :
  matches U ic (OneOf items) st st' ->
  exists c, steps st [c] st' /\ set_match U ic items c = true.
Proof.
  simpl. intros [c [t [E [M ->]]]]. exists c. split; [|exact M].
  split; simpl; [exact E | lia].
Qed.

(** [\d{3}]: three decimal digits. *)
Lemma three_digits (ic : bool) (st st' : mstate) :
  matches U ic (times 3 cls_d) st st' ->
  exists c1 c2 c3,
    steps st [c1; c2; c3] st'
    /\ isdecimal U c1 = true /\ isdecimal U c2 = true /\ isdecimal U c3 = true.
Proof.
  unfold times. cbn [matches]. intros [n [Hlo [Hhi H]]].
  assert (n = 3) by lia. subst n. cbn [iter] in H.
  destruct H as [st1 [H1 [st2 [H2 [st3 [H3 ->]]]]]].
  apply one_of_step in H1 as [c1 [S1 M1]].
  apply one_of_step in H2 as [c2 [S2 M2]].
  apply one_of_step in H3 as [c3 [S3 M3]].
  exists c1, c2, c3. split.
  - apply (steps_trans S1 (steps_trans S2 S3)).
  - unfold set_match in M1, M2, M3. cbn [existsb item_match] in M1, M2, M3.
    rewrite orb_false_r in M1, M2, M3. auto.
Qed.

(** A separator is no ASCII digit. *)
Lemma separator_no_digit (ic : bool) (c : char) :
  set_match U ic [IChar (ch "-"); ISpace] c = true -> ascii_digit c = false.
Proof.
  unfold set_match. cbn [existsb item_match]. rewrite orb_false_r. intro H.
  destruct (ascii_digit c) eqn:D; [|reflexivity].
  rewrite (digit_not_space U c D), orb_false_r in H.
  unfold chr_match in H. change (ascii_alpha (ch "-")) with false in H.
  rewrite andb_false_r in H. apply N.eqb_eq in H. subst c. discriminate.
Qed.

(** [[-\s]?]: nothing, or one character that is no ASCII digit. *)
Lemma optional_separator (ic : bool) (st st' : mstate) :
  matches U ic (opt (OneOf [IChar (ch "-"); ISpace])) st st' ->
  exists w, steps st w st' /\ filter ascii_digit w = [].
Proof.
  unfold opt. cbn [matches]. intros [n [_ [Hhi H]]].
  destruct n as [|[|n]]; [| |lia]; cbn [iter] in H.
  - subst. exists []. split; [apply steps_refl | reflexivity].
  - destruct H as [st1 [H1 ->]]. apply one_of_step in H1 as [c [S1 M1]].
    exists [c]. split; [exact S1|]. simpl. rewrite (separator_no_digit _ _ M1). reflexivity.
Qed.

(** The nine digits of an identifier, with what separates them. *)
Lemma nine_digits (ic : bool) (st st' : mstate) :
  matches U ic re_nine st st' ->
  exists w,
    steps st w st'
    /\ exists d, List.length d = 9 /\ Forall (fun c => isdecimal U c = true /\ In c w) d
                 /\ (Forall (fun c => ascii_digit c = true) d -> filter ascii_digit w = d).
Proof.
  unfold re_nine. cbn [seq matches].
  intros [st1 [H1 [st2 [H2 [st3 [H3 [st4 [H4 H5]]]]]]]].
  apply three_digits in H1 as [c1 [c2 [c3 [S1 [D1 [D2 D3]]]]]].
  apply optional_separator in H2 as [w2 [S2 F2]].
  apply three_digits in H3 as [c4 [c5 [c6 [S3 [D4 [D5 D6]]]]]].
  apply optional_separator in H4 as [w4 [S4 F4]].
  apply three_digits in H5 as [c7 [c8 [c9 [S5 [D7 [D8 D9]]]]]].
  exists ([c1; c2; c3] ++ w2 ++ [c4; c5; c6] ++ w4 ++ [c7; c8; c9]). split.
  - apply (steps_trans S1 (steps_trans S2 (steps_trans S3 (steps_trans S4 S5)))).
  - exists [c1; c2; c3; c4; c5; c6; c7; c8; c9]. split; [reflexivity|]. split.
    + repeat (apply Forall_cons; [split; [assumption|];
                rewrite ?in_app_iff; simpl; tauto|]).
      apply Forall_nil.
    + intro A.
      repeat match goal with
             | H : Forall _ (_ :: _) |- _ => inversion H; subst; clear H
             end.
      rewrite !filter_app, F2, F4. simpl.
      repeat match goal with
             | H : ascii_digit ?c = true |- _ => rewrite H; clear H
             end.
      reflexivity.
Qed.

(** [re.sub] with the pattern [[^0-9]] and the empty replacement keeps the
    ASCII digits. *)
Lemma sub_nondigit_filter (fuel pos : nat) (prev : option char) (rest : str) :
  List.length rest < fuel ->
  sub_from U fuel false re_nondigit [] pos prev rest = filter ascii_digit rest.
Proof.
  revert pos prev rest. induction fuel as [|fuel IH]; intros pos prev rest Hf; [lia|].
  destruct rest as [|c t]; [reflexivity|].
  cbn [sub_from rmatch_at re_nondigit rmatch start_state m_rest set_match existsb item_match rng].
  change (ch "0") with 48%N. change (ch "9") with 57%N.
  simpl in Hf. cbn [filter]. unfold ascii_digit at 1.
  destruct (in_range 48%N 57%N c) eqn:E; cbn [orb].
  - f_equal. apply IH. lia.
  - cbn [advance start_state m_pos m_prev m_rest].
    replace (pos <? S pos) with true by (symmetry; apply Nat.ltb_lt; lia).
    cbn [app]. apply IH. lia.
Qed.

(** An identifier of a popup whose decimal digits are all ASCII digits has
    nine characters. *)
Lemma popup_anums_nine (text : str) (a : str) :
  (forall c, In c text -> isdecimal U c = true -> ascii_digit c = true) ->
  In a (popup_anums U text) -> List.length a = 9.
Proof.
  intros Hascii Ha. unfold popup_anums, findall1 in Ha.
  apply in_map_iff in Ha as [raw [<- Hraw]].
  apply in_map_iff in Hraw as [m [<- Hm]].
  apply finditer_found in Hm as [prev Hm].
  unfold rmatch_at in Hm. apply rmatch_sound in Hm as [st' [Hm E]].
  injection E as E. rewrite <- E. clear E.
  unfold re_anumber in Hm. cbn [seq] in Hm.
  destruct Hm as [st1 [H1 [st2 [H2 [st3 [H3 H4]]]]]].
  change (matches U false (Grp 1 re_nine) st3 st') in H4.
  destruct H4 as [st4 [H4 ->]].
  assert (Hat : at_text text st3).
  { apply reaches_at_text with (start_state (fst m) prev (skipn (fst m) text)).
    - eapply reaches_trans; [eapply matches_reaches, H1|].
      eapply reaches_trans; [eapply matches_reaches, H2 | eapply matches_reaches, H3].
    - reflexivity. }
  apply nine_digits in H4 as [w [[Hw Hp] [d [Hlen [Hd Hfilter]]]]].
  unfold group, set_cap. cbn [m_caps get_cap Nat.eqb]. unfold substr.
  rewrite <- Hat, Hw, Hp, Nat.add_comm, Nat.add_sub, firstn_app, firstn_all, Nat.sub_diag.
  cbn [firstn]. rewrite app_nil_r.
  unfold re_sub. rewrite sub_nondigit_filter by lia.
  rewrite Hfilter; [exact Hlen|].
  rewrite Forall_forall in *. intros c Hc. destruct (Hd c Hc) as [Hdec Hin].
  apply Hascii; [|exact Hdec].
  apply skipn_In with (m_pos st3). unfold at_text in Hat. rewrite <- Hat, Hw.
  apply in_or_app. left. exact Hin.
Qed.

End IdentifierProperties.

(* ------------------------------------------------------------------ *)
(** ** The relevant dates: what the result is made of *)

(** Where [dict.fromkeys] puts an element: at its first place in the list,
    after those that come before it there, and after no others. *)
Lemma dedup_from_first (seen l before after : list str) (x : str) :
  dedup_from seen l = before ++ x :: after ->
  exists r1 r2, l = r1 ++ x :: r2 /\ ~ In x r1
                /\ forall y, In y before <-> In y r1 /\ ~ In y seen.
Proof.
  revert seen before. induction l as [|a l IH]; intros seen before H; simpl in H.
  - destruct before; discriminate.
  - assert (Hx : In x (dedup_from seen (a :: l))).
    { simpl. rewrite H. apply in_or_app. right. left. reflexivity. }
    apply (proj2 (dedup_from_spec seen (a :: l))) in Hx as [_ Hxs].
    destruct (existsb (str_eqb a) seen) eqn:E.
    + apply existsb_str_eqb in E.
      destruct (IH _ _ H) as [r1 [r2 [-> [Hn Hb]]]].
      exists (a :: r1), r2. split; [reflexivity|]. split.
      * intros [->|Hin]; [exact (Hxs E) | exact (Hn Hin)].
      * intro y. rewrite Hb. simpl. split; [tauto|].
        intros [[<-|Hy] Hs]; [contradiction | tauto].
    + assert (Ha : ~ In a seen) by (intro Hin; apply existsb_str_eqb in Hin; congruence).
      destruct before as [|b before]; simpl in H; injection H as -> H.
      * exists [], l. split; [reflexivity|]. split; [intros []|].
        intro y. simpl. tauto.
      * destruct (IH _ _ H) as [r1 [r2 [-> [Hn Hb]]]].
        assert (Hxa : x <> b).
        { intros ->.
          assert (Hin : In b (dedup_from (b :: seen) (r1 ++ b :: r2)))
            by (rewrite H; apply in_or_app; right; left; reflexivity).
          apply (proj2 (dedup_from_spec _ _)) in Hin as [_ Hin]. apply Hin. left. reflexivity. }
        exists (b :: r1), r2. split; [reflexivity|]. split.
        -- intros [Heq|Hin]; [exact (Hxa (eq_sym Heq)) | exact (Hn Hin)].
        -- intro y. simpl. rewrite Hb. simpl. split.
           ++ intros [<-|[Hy Hs]]; [tauto|]. split; [tauto|]. tauto.
           ++ intros [[<-|Hy] Hs]; [tauto|].
              destruct (list_eq_dec N.eq_dec b y) as [->|Hne]; [tauto|].
              right. split; [exact Hy|]. intros [Heq|Hin]; [exact (Hne Heq) | exact (Hs Hin)].
Qed.

Lemma filter_all {A : Type} (f : A -> bool) (l : list A) :
  (forall x, In x l -> f x = true) -> filter f l = l.
Proof.
  induction l as [|a l IH]; intro H; simpl; [reflexivity|].
  rewrite (H a (or_introl eq_refl)), IH; [reflexivity|].
  intros x Hx. apply H. right. exact Hx.
Qed.

Section RelevantDatesProperties.

Variable U : unicode_db.

(** What a pattern contributes: a finding per match whose group [date] is
    not empty, the label, a space and the date in its normal form. *)
Lemma findings_of_In (text : str) (pl : regex * string) (f : str) :
  In f (findings_of U text pl) <->
  exists m d, In m (finditer U true (fst pl) text)
              /\ group text (snd m) g_date = Some d /\ d <> []
              /\ f = u (snd pl) ++ u " " ++ parse_date_any U d.
Proof.
  unfold findings_of. rewrite in_flat_map. split.
  - intros [m [Hm Hf]].
    destruct (group text (snd m) g_date) as [[|c t]|] eqn:G; [destruct Hf| |destruct Hf].
    destruct Hf as [<-|[]]. exists m, (c :: t).
    split; [exact Hm|]. split; [exact G|]. split; [discriminate | reflexivity].
  - intros [m [d [Hm [G [Hd ->]]]]]. exists m. split; [exact Hm|]. rewrite G.
    destruct d as [|c t]; [contradiction|]. left. reflexivity.
Qed.

Lemma findings_nonempty (text : str) (f : str) :
  In f (flat_map (findings_of U text) patterns) -> nonempty f = true.
Proof.
  intro H. apply in_flat_map in H as [pl [_ H]].
  apply findings_of_In in H as [m [d [_ [_ [_ ->]]]]].
  destruct (u (snd pl)); reflexivity.
Qed.

(** What [re.finditer] returns are matches of the pattern in the text. *)
Lemma finditer_matches (ic : bool) (r : regex) (text : str) (m : nat * mstate) :
  In m (finditer U ic r text) ->
  exists prev, matches U ic r (start_state (fst m) prev (skipn (fst m) text)) (snd m).
Proof.
  intro H. apply finditer_found in H as [prev H]. exists prev.
  unfold rmatch_at in H. apply rmatch_sound in H as [st' [M K]]. injection K as ->. exact M.
Qed.

Lemma search_from_bounds (ic : bool) (r : regex) (rest : str) :
  forall pos prev b st',
    search_from U ic r pos prev rest = Some (b, st') -> pos <= b <= m_pos st'.
Proof.
  induction rest as [|c t IH]; intros pos prev b st' H; simpl in H.
  - destruct (rmatch_at U ic r pos prev []) as [st1|] eqn:E; [|discriminate].
    injection H as <- <-. apply rmatch_at_reaches in E as [w [_ Hp]]. lia.
  - destruct (rmatch_at U ic r pos prev (c :: t)) as [st1|] eqn:E.
    + injection H as <- <-. apply rmatch_at_reaches in E as [w [_ Hp]]. lia.
    + apply IH in H. lia.
Qed.

(** [re.finditer] returns its matches from left to right: each starts after
    the start of the one before it, and not before its end. *)
Lemma finditer_from_sorted (ic : bool) (r : regex) (fuel : nat) :
  forall pos prev rest,
    StronglySorted lt (map fst (finditer_from U fuel ic r pos prev rest))
    /\ Forall (fun m => pos <= fst m) (finditer_from U fuel ic r pos prev rest).
Proof.
  induction fuel as [|fuel IH]; intros pos prev rest; simpl; [split; constructor|].
  destruct (search_from U ic r pos prev rest) as [[b st']|] eqn:E; [|split; constructor].
  apply search_from_bounds in E as [Hb He].
  assert (G : forall l, StronglySorted lt (map fst l) ->
                        Forall (fun m : nat * mstate => S b <= fst m) l ->
              StronglySorted lt (map fst ((b, st') :: l))
              /\ Forall (fun m : nat * mstate => pos <= fst m) ((b, st') :: l)).
  { intros l Hs Hf. split.
    - simpl. constructor; [exact Hs|]. rewrite Forall_map. exact Hf.
    - constructor; [exact Hb|]. eapply Forall_impl; [|exact Hf]. simpl. intros. lia. }
  destruct (b <? m_pos st') eqn:L.
  - apply Nat.ltb_lt in L. destruct (IH (m_pos st') (m_prev st') (m_rest st')) as [Hs Hf].
    apply G; [exact Hs|]. eapply Forall_impl; [|exact Hf]. simpl. intros. lia.
  - destruct (m_rest st') as [|c t]; [apply G; constructor|].
    destruct (IH (S (m_pos st')) (Some c) t) as [Hs Hf].
    apply G; [exact Hs|]. eapply Forall_impl; [|exact Hf]. simpl. intros. lia.
Qed.

(** C3, as the code has it.  On the two sentences of the specification only
    the hearing is found: the DEADLINE pattern wants one of set, is and are
    directly before for or on, which "deadline is set for" is not.  With
    "deadline set for" or "deadline is on" both findings are returned, in
    the order of the patterns whatever their order in the text, and a
    finding that repeats is returned once, at its first place.

    For every text: the findings of the five patterns, taken pattern by
    pattern in the order of the list, are put in a row; the result joins
    with " ; " the findings of that row, each once, at its first place in
    the row, after those that stand before it there and after no others.  A
    finding of a pattern is its label, a space and the normal form of the
    date, for a match [re.finditer] returns whose group [date] is not
    empty; and what [re.finditer] returns are matches of the pattern in the
    text, from left to right. *)
Theorem C3_relevant_dates :
  extract_relevant_dates_text U
    (u "Hearing set for March 5, 2024. The deadline is set for 3/10/2024.")
  = u "HEARING 03-05-2024"
  /\ extract_relevant_dates_text U
       (u "Hearing set for March 5, 2024. The deadline set for 3/10/2024.")
     = u "HEARING 03-05-2024 ; DEADLINE 03-10-2024"
  /\ extract_relevant_dates_text U
       (u "The deadline is on 3/10/2024. Hearing set for March 5, 2024.")
     = u "HEARING 03-05-2024 ; DEADLINE 03-10-2024"
  /\ extract_relevant_dates_text U
       (u "Hearing set for March 5, 2024. Deadline set for 3/10/2024. Hearing is set on 3/5/2024.")
     = u "HEARING 03-05-2024 ; DEADLINE 03-10-2024"
  /\ (forall text,
        let row := flat_map (findings_of U text) patterns in
        exists findings,
          extract_relevant_dates_text U text = join (u " ; ") findings
          /\ NoDup findings
          /\ (forall f, In f findings <-> In f row)
          /\ (forall before f after,
                findings = before ++ f :: after ->
                exists r1 r2, row = r1 ++ f :: r2 /\ ~ In f r1
                              /\ forall g, In g before <-> In g r1))
  /\ (forall text (pl : regex * string) f,
        In f (findings_of U text pl) <->
        exists m d, In m (finditer U true (fst pl) text)
                    /\ group text (snd m) g_date = Some d /\ d <> []
                    /\ f = u (snd pl) ++ u " " ++ parse_date_any U d)
  /\ (forall text (pl : regex * string),
        StronglySorted lt (map fst (finditer U true (fst pl) text))
        /\ forall m,
             In m (finditer U true (fst pl) text) ->
             exists prev, matches U true (fst pl)
                            (start_state (fst m) prev (skipn (fst m) text)) (snd m)).
Proof.
  do 4 (split; [vm_compute; reflexivity|]).
  split; [|split; [apply findings_of_In|]].
  2:{ intros text pl. split; [apply finditer_from_sorted | intro m; apply finditer_matches]. }
  intros text row.
  assert (E : extract_relevant_dates_text U text = join (u " ; ") (dedup row)).
  { destruct text as [|c text].
    - assert (R : row = []) by (vm_compute; reflexivity). rewrite R. reflexivity.
    - unfold extract_relevant_dates_text. cbv zeta. fold row.
      rewrite (filter_all nonempty row) by (apply findings_nonempty). reflexivity. }
  exists (dedup row). split; [exact E|]. split; [apply dedup_NoDup|].
  split; [intro f; apply dedup_In|].
  intros before f after H.
  destruct (dedup_from_first [] row before after f H) as [r1 [r2 [H1 [H2 H3]]]].
  exists r1, r2. split; [exact H1|]. split; [exact H2|].
  intro g. rewrite H3. simpl. tauto.
Qed.

End RelevantDatesProperties.

(** C3 (counterexample).  A text with both sentences of the claim for which
    the result is not the string the claim gives. *)
Lemma C3_counterexample :
  let text := u "Hearing set for March 5, 2024. The deadline is set for 3/10/2024." in
  contains (u "Hearing set for March 5, 2024") text = true
  /\ contains (u "deadline is set for 3/10/2024") text = true
  /\ extract_relevant_dates_text ucd text <> u "HEARING 03-05-2024 ; DEADLINE 03-10-2024".
Proof. vm_compute. repeat split; discriminate. Qed.

Section CollectedOrigin.

Variable U : unicode_db.
Variables start_date end_date : date.

Lemma visit_cell_origin (acc : list str) (cell : option str) (a : str) :
  In a (visit_cell U start_date end_date acc cell) ->
  In a acc \/ exists text, cell = Some text /\ In a (popup_anums U text).
Proof.
  destruct cell as [text|]; simpl; [|auto].
  destruct (in_date_range U start_date end_date text); [|auto].
  intro H. apply fold_set_add_In in H as [H|H]; [right | left; exact H].
  exists text. auto.
Qed.

Lemma visit_page_origin (acc : list str) (pg : cal_page) (a : str) :
  In a (visit_page U start_date end_date acc pg) ->
  In a acc \/ exists text, In (Some text) (page_cells pg) /\ In a (popup_anums U text).
Proof.
  unfold visit_page. revert acc. induction (page_cells pg) as [|c cs IH]; intros acc H; simpl in H.
  - left. exact H.
  - apply IH in H as [H|[text [Hin Ha]]].
    + apply visit_cell_origin in H as [H|[text [-> Ha]]]; [left; exact H|].
      right. exists text. split; [left; reflexivity | exact Ha].
    + right. exists text. split; [right; exact Hin | exact Ha].
Qed.

Lemma months_loop_origin (ui : portal) (remaining page : nat) (acc : list str) (a : str) :
  In a (fst (months_loop U remaining ui start_date end_date page acc)) ->
  In a acc
  \/ exists p text, In (Some text) (page_cells (ui p)) /\ In a (popup_anums U text).
Proof.
  revert page acc. induction remaining as [|n IH]; intros page acc H; simpl in H.
  - left. exact H.
  - assert (Hpage : In a (visit_page U start_date end_date acc (ui page)) ->
                    In a acc
                    \/ exists p text, In (Some text) (page_cells (ui p))
                                      /\ In a (popup_anums U text)).
    { intro Hv. apply visit_page_origin in Hv as [Hv|[text Hv]]; [left; exact Hv|].
      right. exists page, text. exact Hv. }
    destruct (page_next (ui page)).
    + apply IH in H as [H|H]; [apply Hpage, H | right; exact H].
    + apply Hpage, H.
Qed.

(** X3.  When the decimal digits of the popups are all ASCII digits, every
    identifier the traversal returns has nine characters. *)
Lemma ascii_identifiers_nine (ui : portal) :
  (forall p text c, In (Some text) (page_cells (ui p)) -> In c text ->
                    isdecimal U c = true -> ascii_digit c = true) ->
  forall a, In a (iterate_hearings_collect_anums U ui start_date end_date) ->
            List.length a = 9.
Proof.
  intros Hascii a Ha. unfold iterate_hearings_collect_anums in Ha.
  apply (proj1 (sorted_In a _)) in Ha. apply months_loop_origin in Ha as [[]|[p [text [Hin Ha]]]].
  apply popup_anums_nine with U text; [|exact Ha].
  intros c Hc. apply (Hascii p text c Hin Hc).
Qed.

End CollectedOrigin.

(* ------------------------------------------------------------------ *)
(** ** What the harvester leaves as it is, and wider ranges *)

(* ---------- the order of dates ---------- *)

Lemma date_leb_le (a b : date) :
  date_leb a b = true
  <-> year a < year b
      \/ (year a = year b
          /\ (month a < month b \/ (month a = month b /\ day a <= day b))).
Proof.
  unfold date_leb.
  rewrite orb_true_iff, andb_true_iff, orb_true_iff, andb_true_iff.
  rewrite !Nat.ltb_lt, !Nat.eqb_eq, Nat.leb_le. reflexivity.
Qed.

Lemma date_leb_trans (a b c : date) :
  date_leb a b = true -> date_leb b c = true -> date_leb a c = true.
Proof. rewrite !date_leb_le. lia. Qed.

Section HarvesterEffects.

Variable U : unicode_db.
Variable download_dir : path.

(** What a row adds to the log. *)
Lemma log_outcome_app (log : list log_record) (o : row_outcome) :
  log_outcome log o = log ++ match o with Logged r => [r] | _ => [] end.
Proof. destruct o; simpl; rewrite ?app_nil_r; reflexivity. Qed.

(** A row leaves the files there were where they are, and the directories
    as they are. *)
Lemma download_row_keeps (anumber : str) (fs : filesys) (r : doc_row) :
  (forall q, In q (fs_files fs) ->
             In q (fs_files (fst (download_row U download_dir anumber fs r))))
  /\ fs_dirs (fst (download_row U download_dir anumber fs r)) = fs_dirs fs.
Proof.
  unfold download_row.
  destruct (row_label r) as [l|]; [|split; auto].
  destruct (row_date r) as [d|]; [|split; auto].
  destruct (negb (row_button r)); [split; auto|].
  assert (Hclick : (forall q, In q (fs_files fs) ->
                              In q (fs_files (after_click download_dir fs r)))
                   /\ fs_dirs (after_click download_dir fs r) = fs_dirs fs).
  { split; [intros q Hq; apply after_click_files, Hq | apply after_click_dirs]. }
  destruct (new_entries _ _) as [|downloaded rest] eqn:Hnew; [exact Hclick|].
  destruct (free_path _ _ _ _ _) as [final_path|]; [|exact Hclick].
  unfold rename.
  destruct (mem_path downloaded _ && _ && _); [|exact Hclick].
  cbn [fst fs_files fs_dirs]. split; [|apply Hclick].
  intros q Hq.
  assert (Hne : q <> downloaded).
  { intros ->.
    assert (Hin : In downloaded (new_entries (glob_pdf download_dir fs)
                     (glob_pdf download_dir (after_click download_dir fs r))))
      by (rewrite Hnew; left; reflexivity).
    apply new_entry_is_file in Hin as [_ Hfresh].
    unfold path_exists in Hfresh. apply orb_false_iff in Hfresh as [Hm _].
    apply mem_path_In in Hq. congruence. }
  destruct (path_eqb final_path q) eqn:E.
  - apply path_eqb_eq in E. subst q. apply in_or_app. right. left. reflexivity.
  - apply in_or_app. left. apply remove_path_In.
    + apply remove_path_In; [apply Hclick, Hq | exact Hne].
    + intros ->. rewrite path_eqb_refl in E. discriminate.
Qed.

(** A case never takes a file away and never touches the directories. *)
Lemma download_case_docs_keeps (anumber : str) (rows : list doc_row) (st : hstate) :
  (forall q, In q (fs_files (h_fs st)) ->
             In q (fs_files (h_fs (download_case_docs U download_dir anumber rows st))))
  /\ fs_dirs (h_fs (download_case_docs U download_dir anumber rows st)) = fs_dirs (h_fs st).
Proof.
  revert st. induction rows as [|r rows IH]; intro st; [split; auto|].
  cbn [download_case_docs].
  pose proof (download_row_keeps anumber (h_fs st) r) as [Hf Hd].
  destruct (download_row U download_dir anumber (h_fs st) r) as [fs' o].
  cbn [fst] in Hf, Hd.
  destruct (IH (HState fs' (log_outcome (h_log st) o))) as [Hf' Hd']. cbn [h_fs] in Hf', Hd'.
  split; [intros q Hq; apply Hf', Hf, Hq | rewrite Hd'; exact Hd].
Qed.

(** A case only adds to the log: the records there were stay as they
    are and where they are, at most one record per row comes after them,
    and each has the identifier of the case. *)
Lemma download_case_docs_appends (anumber : str) (rows : list doc_row) (st : hstate) :
  exists added,
    h_log (download_case_docs U download_dir anumber rows st) = h_log st ++ added
    /\ List.length added <= List.length rows
    /\ Forall (fun rec => a_number rec = anumber) added.
Proof.
  revert st. induction rows as [|r rows IH]; intro st.
  - exists []. cbn [download_case_docs]. rewrite app_nil_r. repeat split; [simpl; lia | constructor].
  - cbn [download_case_docs].
    destruct (download_row U download_dir anumber (h_fs st) r) as [fs' o] eqn:Hrow.
    destruct (IH (HState fs' (log_outcome (h_log st) o))) as [added [Hlog [Hlen Hall]]].
    cbn [h_log] in Hlog.
    exists (match o with Logged rec => [rec] | _ => [] end ++ added).
    split; [rewrite Hlog, log_outcome_app, <- app_assoc; reflexivity|]. split.
    + rewrite length_app. destruct o; simpl; lia.
    + apply Forall_app. split; [|exact Hall].
      destruct o as [| | |rec]; try constructor; [|constructor].
      apply logged_fields in Hrow. apply Hrow.
Qed.

End HarvesterEffects.

Section RangeProperties.

Variable U : unicode_db.

Lemma in_date_range_wider (s e s' e' : date) (text : str) :
  date_leb s' s = true -> date_leb e e' = true ->
  in_date_range U s e text = true -> in_date_range U s' e' text = true.
Proof.
  intros Hs He. unfold in_date_range.
  destruct (strptime U (the_date U text) (u "%m/%d/%Y")) as [dt|]; [|reflexivity].
  rewrite !andb_true_iff. intros [H1 H2].
  split; eapply date_leb_trans; eassumption.
Qed.

Lemma visit_cell_wider (s e s' e' : date) (acc acc' : list str) (cell : option str) (a : str) :
  date_leb s' s = true -> date_leb e e' = true ->
  (forall x, In x acc -> In x acc') ->
  In a (visit_cell U s e acc cell) -> In a (visit_cell U s' e' acc' cell).
Proof.
  intros Hs He Hacc. destruct cell as [text|]; simpl; [|apply Hacc].
  destruct (in_date_range U s e text) eqn:E.
  - rewrite (@in_date_range_wider s e s' e' text Hs He E). rewrite !fold_set_add_In.
    intros [H|H]; [left; exact H | right; apply Hacc, H].
  - intro H. destruct (in_date_range U s' e' text).
    + apply fold_set_add_In. right. apply Hacc, H.
    + apply Hacc, H.
Qed.

Lemma visit_page_wider (s e s' e' : date) (pg : cal_page) (acc acc' : list str) (a : str) :
  date_leb s' s = true -> date_leb e e' = true ->
  (forall x, In x acc -> In x acc') ->
  In a (visit_page U s e acc pg) -> In a (visit_page U s' e' acc' pg).
Proof.
  intros Hs He. unfold visit_page. revert acc acc' a.
  induction (page_cells pg) as [|c cs IH]; intros acc acc' a Hacc; simpl; [apply Hacc|].
  apply IH. intros x. apply visit_cell_wider; assumption.
Qed.

Lemma months_loop_wider (s e s' e' : date) (ui : portal) (n page : nat)
      (acc acc' : list str) (a : str) :
  date_leb s' s = true -> date_leb e e' = true ->
  (forall x, In x acc -> In x acc') ->
  In a (fst (months_loop U n ui s e page acc)) ->
  In a (fst (months_loop U n ui s' e' page acc')).
Proof.
  intros Hs He. revert page acc acc' a.
  induction n as [|n IH]; intros page acc acc' a Hacc; simpl; [apply Hacc|].
  destruct (page_next (ui page)).
  - apply IH. intro x. apply visit_page_wider; assumption.
  - cbn [fst]. apply visit_page_wider; assumption.
Qed.

(** The pages visited depend on the portal alone. *)
Lemma months_loop_pages (s e s' e' : date) (ui : portal) (n page : nat) (acc acc' : list str) :
  snd (months_loop U n ui s' e' page acc') = snd (months_loop U n ui s e page acc).
Proof.
  revert page acc acc'. induction n as [|n IH]; intros page acc acc'; simpl; [reflexivity|].
  destruct (page_next (ui page)); [apply IH | reflexivity].
Qed.

(** X6.  A wider range loses no identifier, and the pages visited are the same. *)
Lemma wider_range_keeps_identifiers (ui : portal) (s e s' e' : date) :
  date_leb s' s = true -> date_leb e e' = true ->
  (forall a, In a (iterate_hearings_collect_anums U ui s e) ->
             In a (iterate_hearings_collect_anums U ui s' e'))
  /\ page_advances U ui s' e' = page_advances U ui s e.
Proof.
  intros Hs He. split.
  - intros a Ha. unfold iterate_hearings_collect_anums in *.
    apply (sorted_In a). apply (proj1 (sorted_In a _)) in Ha.
    eapply months_loop_wider; [exact Hs | exact He | | exact Ha]. auto.
  - apply months_loop_pages.
Qed.

End RangeProperties.

(* ------------------------------------------------------------------ *)
(** ** The shape of a file name *)

Lemma join_chars (sep : str) (parts : list str) (c : char) :
  In c (join sep parts) -> In c sep \/ exists p, In p parts /\ In c p.
Proof.
  induction parts as [|p parts IH]; [intros []|].
  destruct parts as [|q parts].
  - intro H. right. exists p. split; [left; reflexivity | exact H].
  - change (join sep (p :: q :: parts)) with (p ++ sep ++ join sep (q :: parts)).
    rewrite !in_app_iff. intros [H|[H|H]].
    + right. exists p. split; [left; reflexivity | exact H].
    + left. exact H.
    + apply IH in H as [H|[p' [Hp' H]]]; [left; exact H|].
      right. exists p'. split; [right; exact Hp' | exact H].
Qed.





Section FileNameShape.

Variable U : unicode_db.

(** X7.  The file name ends in [.pdf], what stands before is not empty, and a
    reserved character of the name is a character of the date. *)
Lemma build_new_filename_shape (label pleading file_date notes : str) :
  exists n,
    build_new_filename U label pleading file_date notes = n ++ u ".pdf"
    /\ n <> []
    /\ (forall c, In c n -> is_reserved c = true ->
                  file_date <> [] /\ In c (parse_date_any U file_date)).
Proof.
  unfold build_new_filename.
  set (parts := _ ++ _ ++ _ ++ _).
  assert (Hparts : forall p c, In p parts -> In c p -> is_reserved c = true ->
                               file_date <> [] /\ In c (parse_date_any U file_date)).
  { intros p c Hp Hc Hr. unfold parts in Hp. rewrite !in_app_iff in Hp.
    assert (Hsan : forall s, In p (match s with [] => [] | _ => [sanitize U s] end) -> False).
    { intros s Hs. destruct s as [|x s]; [destruct Hs|].
      destruct Hs as [<-|[]]. apply sanitize_clean in Hc. congruence. }
    destruct Hp as [Hp|[Hp|[Hp|Hp]]]; try (exfalso; eapply Hsan; exact Hp).
    destruct file_date as [|x fd]; [destruct Hp|].
    destruct Hp as [<-|[]]. split; [discriminate | exact Hc]. }
  exists (match join (u " - ") parts with [] => u "ECAS_Document" | n => n end).
  split; [reflexivity|]. split.
  - destruct (join (u " - ") parts); discriminate.
  - intros c Hc Hr.
    destruct (join (u " - ") parts) as [|x j] eqn:Ej.
    + exfalso. revert Hr. simpl in Hc.
      repeat (destruct Hc as [<-|Hc]; [discriminate|]). destruct Hc.
    + rewrite <- Ej in Hc. apply join_chars in Hc as [Hc|[p [Hp Hc]]].
      * exfalso. revert Hr. simpl in Hc.
        repeat (destruct Hc as [<-|Hc]; [discriminate|]). destruct Hc.
      * eapply Hparts; eassumption.
Qed.

End FileNameShape.

Section Collisions.

Variable download_dir : path.

Lemma nested_S (i k : nat) : nested i (S k) = numbered i ++ nested (S i) k.
Proof. reflexivity. Qed.

Lemma nested_slash_free (i k : nat) : slash_free (nested i k) = true.
Proof.
  revert i. induction k as [|k IH]; intro i; [reflexivity|].
  rewrite nested_S, slash_free_app, numbered_slash_free, IH. reflexivity.
Qed.


End Collisions.

(* ------------------------------------------------------------------ *)
(** ** A text without digits has no relevant dates *)

Lemma no_In_nil (A : Type) (l : list A) : (forall x, ~ In x l) -> l = [].
Proof. destruct l as [|x l]; [reflexivity|]. intro H. destruct (H x). left. reflexivity. Qed.

Section NoDigitNoDate.

Variable U : unicode_db.

Lemma reaches_In (st st' : mstate) (c : char) :
  reaches st st' -> In c (m_rest st') -> In c (m_rest st).
Proof. intros [w [Hw _]] H. rewrite Hw. apply in_or_app. right. exact H. Qed.

(** A match of such a pattern has a decimal digit ahead of where it starts. *)
Lemma matches_needs_digit (ic : bool) (r : regex) (st st' : mstate) :
  needs_digit r = true -> matches U ic r st st' ->
  exists c, In c (m_rest st) /\ isdecimal U c = true.
Proof.
  revert st st'.
  induction r as [|p|items|items|r1 IH1 r2 IH2|r1 IH1 r2 IH2|lo hi r1 IH1|g r1 IH1|];
    intros st st' Hn H; cbn [needs_digit] in Hn; try discriminate.
  - destruct items as [|[| | | |] [|it items]]; try discriminate.
    cbn [matches] in H. destruct H as [c [t [E [M _]]]].
    exists c. split; [rewrite E; left; reflexivity|].
    unfold set_match in M. cbn [existsb item_match] in M. rewrite orb_false_r in M. exact M.
  - cbn [matches] in H. destruct H as [st1 [H1 H2]].
    apply orb_true_iff in Hn as [Hn|Hn].
    + eapply IH1; eassumption.
    + destruct (IH2 _ _ Hn H2) as [c [Hc Hd]]. exists c. split; [|exact Hd].
      eapply reaches_In; [eapply matches_reaches; exact H1 | exact Hc].
  - cbn [matches] in H. apply andb_true_iff in Hn as [Hn1 Hn2].
    destruct H as [H|H]; [eapply IH1 | eapply IH2]; eassumption.
  - cbn [matches] in H. apply andb_true_iff in Hn as [Hlo Hn]. apply Nat.leb_le in Hlo.
    destruct H as [n [Hle [_ H]]]. destruct n as [|n]; [lia|].
    cbn [iter] in H. destruct H as [st1 [H1 _]]. eapply IH1; eassumption.
  - cbn [matches] in H. destruct H as [st1 [H1 _]]. eapply IH1; eassumption.
Qed.

(** What [re.finditer] finds for such a pattern shows a decimal digit of
    the text. *)
Lemma finditer_needs_digit (ic : bool) (r : regex) (text : str) (m : nat * mstate) :
  needs_digit r = true -> In m (finditer U ic r text) ->
  exists c, In c text /\ isdecimal U c = true.
Proof.
  intros Hn Hm. apply finditer_found in Hm as [prev Hm].
  unfold rmatch_at in Hm. apply rmatch_sound in Hm as [st' [Hm _]].
  destruct (@matches_needs_digit ic r _ _ Hn Hm) as [c [Hc Hd]].
  exists c. split; [|exact Hd]. cbn [start_state m_rest] in Hc.
  eapply skipn_In. exact Hc.
Qed.

Lemma patterns_need_digits : forallb (fun pl => needs_digit (fst pl)) patterns = true.
Proof. vm_compute. reflexivity. Qed.

(** X9.  A text without a decimal digit has no relevant dates. *)
Lemma no_digit_no_relevant_date (text : str) :
  (forall c, In c text -> isdecimal U c = false) ->
  extract_relevant_dates_text U text = [].
Proof.
  intro Hno. unfold extract_relevant_dates_text. destruct text as [|x text]; [reflexivity|].
  assert (E : flat_map (findings_of U (x :: text)) patterns = []).
  { apply no_In_nil. intros f Hf. apply in_flat_map in Hf as [pl [Hpl Hf]].
    unfold findings_of in Hf. apply in_flat_map in Hf as [m [Hm _]].
    assert (Hn : needs_digit (fst pl) = true).
    { pose proof patterns_need_digits as H. rewrite forallb_forall in H. apply H, Hpl. }
    destruct (@finditer_needs_digit true (fst pl) (x :: text) m Hn Hm) as [c [Hc Hd]].
    rewrite (Hno c Hc) in Hd. discriminate. }
  rewrite E. reflexivity.
Qed.

End NoDigitNoDate.

(* ------------------------------------------------------------------ *)
(** ** What sanitize returns *)

Lemma replace_absent (old : char) (new s : str) :
  ~ In old s -> replace old new s = s.
Proof.
  unfold replace. induction s as [|c s IH]; intro H; simpl; [reflexivity|].
  destruct (N.eqb_spec c old) as [->|Hne]; [destruct H; left; reflexivity|].
  simpl. rewrite IH; [reflexivity|]. intro Hin. apply H. right. exact Hin.
Qed.

Section SanitizeProperties.

Variable U : unicode_db.

Lemma lstrip_suffix (s : str) : exists w, s = w ++ lstrip U s.
Proof.
  induction s as [|c s [w IH]]; [exists []; reflexivity|]. simpl.
  destruct (isspace U c); [|exists []; reflexivity].
  exists (c :: w). simpl. rewrite <- IH. reflexivity.
Qed.

Lemma rstrip_prefix (s : str) : exists w, s = rstrip U s ++ w.
Proof.
  unfold rstrip. destruct (lstrip_suffix (rev s)) as [w Hw].
  exists (rev w). rewrite <- rev_app_distr, <- Hw, rev_involutive. reflexivity.
Qed.

Lemma lstrip_head_ok (s : str) : head_ok U (lstrip U s) = true.
Proof.
  induction s as [|c s IH]; [reflexivity|]. simpl.
  destruct (isspace U c) eqn:E; [exact IH|]. simpl. rewrite E. reflexivity.
Qed.

Lemma lstrip_id (s : str) : head_ok U s = true -> lstrip U s = s.
Proof.
  destruct s as [|c s]; [reflexivity|]. simpl. intro H. apply negb_true_iff in H.
  rewrite H. reflexivity.
Qed.

Lemma lstrip_snoc (a : str) (c : char) :
  isspace U c = false -> lstrip U (a ++ [c]) = lstrip U a ++ [c].
Proof.
  intro H. induction a as [|x a IH]; simpl; [rewrite H; reflexivity|].
  destruct (isspace U x); [exact IH | reflexivity].
Qed.

Lemma rstrip_head_ok (s : str) : head_ok U s = true -> head_ok U (rstrip U s) = true.
Proof.
  destruct s as [|c s]; [reflexivity|]. simpl. intro H. apply negb_true_iff in H.
  unfold rstrip. simpl. rewrite lstrip_snoc by exact H.
  rewrite rev_app_distr. simpl. rewrite H. reflexivity.
Qed.

Lemma rstrip_rstrip (s : str) : rstrip U (rstrip U s) = rstrip U s.
Proof.
  unfold rstrip. rewrite rev_involutive, (lstrip_id (lstrip U (rev s))); [reflexivity|].
  apply lstrip_head_ok.
Qed.

(** [strip] does nothing to what it returns. *)
Lemma strip_strip (s : str) : strip U (strip U s) = strip U s.
Proof.
  unfold strip. rewrite (lstrip_id (rstrip U (lstrip U s))), rstrip_rstrip; [reflexivity|].
  apply rstrip_head_ok, lstrip_head_ok.
Qed.

Lemma collapse_true (s : str) : collapse U true s = collapse U false (lstrip U s).
Proof.
  induction s as [|c s IH]; [reflexivity|]. simpl.
  destruct (isspace U c) eqn:E; [exact IH|]. simpl. rewrite E. reflexivity.
Qed.

Lemma collapse_tidy (s : str) :
  tidy U (collapse U false s) = true
  /\ tidy U (collapse U true s) = true /\ head_ok U (collapse U true s) = true.
Proof.
  induction s as [|c s [IH1 [IH2 IH3]]]; [repeat split|]. simpl.
  destruct (isspace U c) eqn:E.
  - split; [|split; assumption]. simpl.
    change (isspace U 32%N) with true. cbv iota. rewrite IH3, IH2. reflexivity.
  - simpl. rewrite E, IH1. simpl. repeat split.
Qed.

Lemma tidy_fixed (s : str) : tidy U s = true -> collapse U false s = s.
Proof.
  induction s as [|c s IH]; [reflexivity|]. simpl. intro H.
  apply andb_true_iff in H as [Hc Hs]. destruct (isspace U c).
  - apply andb_true_iff in Hc as [Hc Hh]. apply N.eqb_eq in Hc. subst c.
    rewrite collapse_true, (lstrip_id s Hh), (IH Hs). reflexivity.
  - rewrite (IH Hs). reflexivity.
Qed.

Lemma head_ok_app (a b : str) : a <> [] -> head_ok U (a ++ b) = head_ok U a.
Proof. destruct a; [contradiction | reflexivity]. Qed.

Lemma tidy_app (a b : str) : tidy U (a ++ b) = true -> tidy U a = true /\ tidy U b = true.
Proof.
  induction a as [|c a IH]; simpl; [auto|]. intro H.
  apply andb_true_iff in H as [Hc H]. destruct (IH H) as [Ha Hb].
  split; [|exact Hb]. rewrite Ha, andb_true_r.
  destruct (isspace U c); [|reflexivity].
  apply andb_true_iff in Hc as [Hc Hh]. rewrite Hc. simpl.
  destruct a as [|x a]; [reflexivity|]. exact Hh.
Qed.

Lemma tidy_strip (s : str) : tidy U s = true -> tidy U (strip U s) = true.
Proof.
  intro H. unfold strip.
  destruct (lstrip_suffix s) as [w Hw]. rewrite Hw in H. apply tidy_app in H as [_ H].
  destruct (rstrip_prefix (lstrip U s)) as [w' Hw']. rewrite Hw' in H.
  apply tidy_app in H as [H _]. exact H.
Qed.

(** One round of [\s]. *)
Lemma space_step (st : mstate) (k : mstate -> option mstate) :
  rmatch U false cls_s st k
  = match m_rest st with
    | c :: t => if isspace U c then k (advance st c t) else None
    | [] => None
    end.
Proof.
  unfold cls_s. cbn [rmatch]. destruct (m_rest st) as [|c t]; [reflexivity|].
  unfold set_match. cbn [existsb item_match]. rewrite orb_false_r. reflexivity.
Qed.

(** The greedy run of [\s+], from the second round on. *)
Lemma space_run (fuel cnt : nat) (st : mstate) :
  List.length (m_rest st) <= fuel -> 1 <= cnt ->
  exists st',
    rep_loop (rmatch U false cls_s) 1 None Some fuel cnt st = Some st'
    /\ m_rest st' = lstrip U (m_rest st) /\ m_pos st <= m_pos st'.
Proof.
  revert cnt st. induction fuel as [|fuel IH]; intros cnt st Hf Hc.
  - destruct (m_rest st) as [|c t] eqn:E; [|simpl in Hf; lia].
    exists st. cbn [rep_loop]. replace (1 <=? cnt) with true by (symmetry; apply Nat.leb_le; lia).
    rewrite E. repeat split. lia.
  - cbn [rep_loop]. replace (1 <=? cnt) with true by (symmetry; apply Nat.leb_le; lia).
    rewrite space_step.
    destruct (m_rest st) as [|c t] eqn:E.
    + exists st. rewrite E. repeat split. lia.
    + cbn [lstrip]. destruct (isspace U c) eqn:Es.
      * replace (m_pos st <? m_pos (advance st c t)) with true
          by (symmetry; apply Nat.ltb_lt; simpl; lia).
        destruct (IH (S cnt) (advance st c t)) as [st' [H1 [H2 H3]]];
          [simpl in *; lia | lia |].
        exists st'. rewrite H1. split; [reflexivity|]. split; [exact H2|].
        cbn [advance m_pos] in H3. lia.
      * exists st. rewrite E. repeat split. lia.
Qed.

(** [\s+] at a white-space character takes the whole run. *)
Lemma spaces_at (pos : nat) (prev : option char) (c : char) (t : str) :
  isspace U c = true ->
  exists st',
    rmatch_at U false (plus cls_s) pos prev (c :: t) = Some st'
    /\ m_rest st' = lstrip U t /\ pos < m_pos st'.
Proof.
  intro Hc. unfold rmatch_at, plus. cbn [rmatch start_state m_rest List.length rep_loop].
  rewrite space_step. set (st := start_state pos prev (c :: t)).
  change (m_rest st) with (c :: t). cbv iota. rewrite Hc.
  replace (m_pos st <? m_pos (advance st c t))
    with true by (symmetry; apply Nat.ltb_lt; simpl; lia).
  destruct (@space_run (List.length t) 1 (advance st c t))
    as [st' [H1 [H2 H3]]]; [simpl; lia | lia |].
  exists st'. rewrite H1. split; [reflexivity|]. split; [exact H2|].
  subst st. simpl in H3. lia.
Qed.

(** [\s+] does not match elsewhere. *)
Lemma no_spaces_at (pos : nat) (prev : option char) (rest : str) :
  head_ok U rest = true -> rmatch_at U false (plus cls_s) pos prev rest = None.
Proof.
  intro H. unfold rmatch_at, plus. destruct rest as [|c t]; [reflexivity|].
  simpl in H. apply negb_true_iff in H.
  cbn [rmatch start_state m_rest List.length rep_loop].
  rewrite space_step. change (m_rest (start_state pos prev (c :: t))) with (c :: t).
  cbv iota. rewrite H. reflexivity.
Qed.

Lemma lstrip_length (s : str) : List.length (lstrip U s) <= List.length s.
Proof.
  destruct (lstrip_suffix s) as [w Hw]. rewrite Hw at 2. rewrite length_app. lia.
Qed.

(** [re.sub(r"\s+", " ", s)] is [collapse]. *)
Lemma sub_spaces_collapse (fuel pos : nat) (prev : option char) (rest : str) :
  List.length rest < fuel ->
  sub_from U fuel false (plus cls_s) (u " ") pos prev rest = collapse U false rest.
Proof.
  revert pos prev rest. induction fuel as [|fuel IH]; intros pos prev rest Hf; [lia|].
  destruct rest as [|c t].
  - cbn [sub_from]. rewrite no_spaces_at by reflexivity. reflexivity.
  - cbn [sub_from collapse]. destruct (isspace U c) eqn:Es.
    + destruct (@spaces_at pos prev c t Es) as [st' [H1 [H2 H3]]]. rewrite H1.
      replace (pos <? m_pos st') with true by (symmetry; apply Nat.ltb_lt; lia).
      rewrite H2, IH, collapse_true; [reflexivity|].
      pose proof (lstrip_length t). simpl in Hf. lia.
    + rewrite no_spaces_at by (simpl; rewrite Es; reflexivity).
      rewrite IH by (simpl in Hf; lia). reflexivity.
Qed.

(** What [sanitize] returns, written with [collapse]. *)
Lemma sanitize_collapse (s : str) :
  s <> [] ->
  sanitize U s
  = strip U (collapse U false
       (replace (ch "|") (u "-") (replace (ch ">") (u ")") (replace (ch "<") (u "(")
          (replace c_quote (u "'") (replace (ch "?") [] (replace (ch "*") []
             (replace (ch ":") (u " - ") (replace (ch "\") (u "-")
                (replace (ch "/") (u "-") s)))))))))).
Proof.
  intro H. unfold sanitize. destruct s as [|c s]; [contradiction|].
  unfold re_sub. rewrite sub_spaces_collapse by lia. reflexivity.
Qed.

Lemma sanitize_tidy (s : str) : tidy U (sanitize U s) = true.
Proof.
  destruct s as [|c s]; [reflexivity|]. rewrite sanitize_collapse by discriminate.
  apply tidy_strip, collapse_tidy.
Qed.

Lemma sanitize_stripped (s : str) : strip U (sanitize U s) = sanitize U s.
Proof.
  destruct s as [|c s]; [reflexivity|]. rewrite sanitize_collapse by discriminate.
  apply strip_strip.
Qed.

Lemma tidy_spec (s a b : str) (c : char) :
  tidy U s = true -> s = a ++ c :: b -> isspace U c = true ->
  c = 32%N /\ head_ok U b = true.
Proof.
  intros H -> Hc. apply tidy_app in H as [_ H]. simpl in H. rewrite Hc in H.
  apply andb_true_iff in H as [H _]. apply andb_true_iff in H as [H1 H2].
  apply N.eqb_eq in H1. auto.
Qed.

(** X10.  [sanitize] does nothing to what it returns, and what it returns has
    white space neither at the front nor at the end, and inside only single
    spaces: a white-space character of it is U+0020 and no white space
    follows it. *)
Lemma sanitize_idempotent (s : str) :
  sanitize U (sanitize U s) = sanitize U s
  /\ strip U (sanitize U s) = sanitize U s
  /\ (forall a c b, sanitize U s = a ++ c :: b -> isspace U c = true ->
                    c = 32%N /\ head_ok U b = true).
Proof.
  split; [|split; [apply sanitize_stripped|]].
  - destruct (sanitize U s) as [|x o] eqn:E; [reflexivity|].
    rewrite sanitize_collapse by discriminate. rewrite <- E.
    assert (Hclean : forall c, is_reserved c = true -> ~ In c (sanitize U s)).
    { intros c Hr Hin. apply sanitize_clean in Hin. congruence. }
    rewrite (@replace_absent (ch "/") (u "-") (sanitize U s)) by (apply Hclean; reflexivity).
    rewrite (@replace_absent (ch "\") (u "-") (sanitize U s)) by (apply Hclean; reflexivity).
    rewrite (@replace_absent (ch ":") (u " - ") (sanitize U s)) by (apply Hclean; reflexivity).
    rewrite (@replace_absent (ch "*") [] (sanitize U s)) by (apply Hclean; reflexivity).
    rewrite (@replace_absent (ch "?") [] (sanitize U s)) by (apply Hclean; reflexivity).
    rewrite (@replace_absent c_quote (u "'") (sanitize U s)) by (apply Hclean; reflexivity).
    rewrite (@replace_absent (ch "<") (u "(") (sanitize U s)) by (apply Hclean; reflexivity).
    rewrite (@replace_absent (ch ">") (u ")") (sanitize U s)) by (apply Hclean; reflexivity).
    rewrite (@replace_absent (ch "|") (u "-") (sanitize U s)) by (apply Hclean; reflexivity).
    rewrite tidy_fixed by apply sanitize_tidy. apply sanitize_stripped.
  - intros a c b E Hc. eapply tidy_spec; [apply sanitize_tidy | exact E | exact Hc].
Qed.

End SanitizeProperties.

(* ------------------------------------------------------------------ *)
(** ** Parsing a date twice *)

Section ParseTwice.

Variable U : unicode_db.

(** [strptime] returns dates of the calendar only. *)
Lemma strptime_valid (s fmt : str) (dt : date) :
  strptime U s fmt = Some dt -> valid_date (year dt) (month dt) (day dt) = true.
Proof.
  unfold strptime. destruct (rmatch_at U true (format_regex false fmt) 0 None s) as [st|];
    [|discriminate].
  destruct (negb (m_pos st =? List.length s)); [discriminate|].
  unfold date_of_fields.
  destruct (field_int U s st gY) as [fY|]; [|discriminate].
  destruct (field_int U s st gy) as [fy|]; [|discriminate].
  destruct (field_int U s st gm) as [fm|]; [|discriminate].
  destruct (field_month U s st gb a_month) as [fb|]; [|discriminate].
  destruct (field_month U s st gB f_month) as [fB|]; [|discriminate].
  destruct (field_int U s st gd) as [fd|]; [|discriminate].
  match goal with
  | |- (if valid_date ?y ?m ?d then _ else _) = _ -> _ =>
      destruct (valid_date y m d) eqn:E; [|discriminate]
  end.
  intro H. injection H as <-. exact E.
Qed.

(** A match is at least as long as [min_len] says. *)
Lemma iter_min_len (R : mstate -> mstate -> Prop) (k n : nat) (st st' : mstate) :
  (forall a b, R a b -> m_pos a + k <= m_pos b) ->
  iter R n st st' -> m_pos st + n * k <= m_pos st'.
Proof.
  intro HR. revert st. induction n as [|n IH]; intros st H; simpl in H.
  - subst. simpl. lia.
  - destruct H as [st1 [H1 H2]]. apply HR in H1. apply IH in H2. simpl. lia.
Qed.

Lemma matches_min_len (ic : bool) (r : regex) (st st' : mstate) :
  matches U ic r st st' -> m_pos st + min_len r <= m_pos st'.
Proof.
  revert st st'.
  induction r as [|p|items|items|r1 IH1 r2 IH2|r1 IH1 r2 IH2|lo hi r1 IH1|g r1 IH1|];
    intros st st' H; cbn [matches] in H; cbn [min_len].
  - subst. lia.
  - destruct H as [c [t [_ [_ ->]]]]. simpl. lia.
  - destruct H as [c [t [_ [_ ->]]]]. simpl. lia.
  - destruct H as [c [t [_ [_ ->]]]]. simpl. lia.
  - destruct H as [st1 [H1 H2]]. apply IH1 in H1. apply IH2 in H2. lia.
  - destruct H as [H|H]; [apply IH1 in H | apply IH2 in H]; lia.
  - destruct H as [n [Hlo [_ H]]].
    apply (@iter_min_len _ (min_len r1)) in H; [|exact IH1].
    pose proof (Nat.mul_le_mono_r lo n (min_len r1) Hlo). lia.
  - destruct H as [st1 [H1 ->]]. apply IH1 in H1. simpl. exact H1.
  - destruct H as [_ ->]. lia.
Qed.

Lemma rmatch_at_short (ic : bool) (r : regex) (pos : nat) (prev : option char) (rest : str) :
  List.length rest < min_len r -> rmatch_at U ic r pos prev rest = None.
Proof.
  intro H. destruct (rmatch_at U ic r pos prev rest) as [st'|] eqn:E; [|reflexivity].
  pose proof E as E'. apply rmatch_at_reaches in E' as [w [Hw Hp]].
  unfold rmatch_at in E. apply rmatch_sound in E as [st1 [M K]]. injection K as ->.
  apply matches_min_len in M. cbn [start_state m_pos] in M.
  apply (f_equal (@List.length char)) in Hw. rewrite length_app in Hw. lia.
Qed.

(** A text shorter than every match of [r] has none. *)
Lemma search_short (ic : bool) (r : regex) (s : str) :
  List.length s < min_len r -> search U ic r s = None.
Proof.
  unfold search. generalize 0 (@None char).
  induction s as [|c t IH]; intros pos prev H; cbn [search_from];
    rewrite rmatch_at_short by exact H; [reflexivity|].
  apply IH. simpl in H. lia.
Qed.

Lemma matches_needs_chr (c : char) (r : regex) (st st' : mstate) :
  needs_chr c r = true -> matches U false r st st' -> In c (m_rest st).
Proof.
  revert st st'.
  induction r as [|p|items|items|r1 IH1 r2 IH2|r1 IH1 r2 IH2|lo hi r1 IH1|g r1 IH1|];
    intros st st' Hn H; cbn [needs_chr] in Hn; try discriminate; cbn [matches] in H.
  - destruct H as [c0 [t [E [M _]]]]. unfold chr_match in M. cbn [andb] in M.
    apply N.eqb_eq in Hn, M. subst. rewrite E. left. reflexivity.
  - destruct H as [st1 [H1 H2]]. apply orb_true_iff in Hn as [Hn|Hn].
    + eapply IH1; eassumption.
    + eapply reaches_In; [eapply matches_reaches; exact H1 | eapply IH2; eassumption].
  - apply andb_true_iff in Hn as [Hn1 Hn2].
    destruct H as [H|H]; [eapply IH1 | eapply IH2]; eassumption.
  - apply andb_true_iff in Hn as [Hlo Hn]. apply Nat.leb_le in Hlo.
    destruct H as [n [Hle [_ H]]]. destruct n as [|n]; [lia|].
    cbn [iter] in H. destruct H as [st1 [H1 _]]. eapply IH1; eassumption.
  - destruct H as [st1 [H1 _]]. eapply IH1; eassumption.
Qed.

(** A text without a character every match of [r] takes has no match. *)
Lemma search_needs_chr (c : char) (r : regex) (s : str) :
  needs_chr c r = true -> ~ In c s -> search U false r s = None.
Proof.
  intros Hn Hc. destruct (search U false r s) as [[b st']|] eqn:E; [|reflexivity].
  exfalso. apply Hc. unfold search in E.
  apply (@search_from_found U false r s s 0 None b st' eq_refl) in E as [prev E].
  unfold rmatch_at in E. apply rmatch_sound in E as [st1 [M _]].
  apply (@matches_needs_chr c r _ _ Hn) in M. cbn [start_state m_rest] in M.
  eapply skipn_In. exact M.
Qed.

(** %Y wants four characters. *)
Lemma short_Y (t : str) pos prev caps k :
  List.length t < 4 ->
  rmatch U true (directive_regex (ch "Y")) (MState pos prev t caps) k = None.
Proof.
  intro H.
  change (directive_regex (ch "Y")) with (Grp gY (seq [cls_d; cls_d; cls_d; cls_d])).
  destruct t as [|a [|b [|c [|e t]]]]; [| | | |simpl in H; lia];
    cbn [rmatch seq cls_d m_rest m_pos m_caps m_prev advance set_cap];
    repeat match goal with
           | |- context [set_match U true [IDigit] ?x] => destruct (set_match U true [IDigit] x)
           end; reflexivity.
Qed.

(** A month and a dash are not the start of a year and a dash, nor of the
    name of a month. *)
Lemma other_formats_fail_on_dash (m : nat) (t : str) (f : string) :
  1 <= m <= 12 ->
  In f ["%Y-%m-%d"; "%b %d, %Y"; "%B %d, %Y"]%string ->
  strptime U (pad2 m ++ u "-" ++ t) (u f) = None.
Proof.
  intros Hm Hf. repeat (destruct Hf as [<-|Hf]); try destruct Hf;
    cases_upto m; vm_compute; reflexivity.
Qed.

Lemma short_year_fails (m d : nat) (t : str) :
  1 <= m <= 12 -> 1 <= d <= 31 -> List.length t < 4 ->
  strptime U (pad2 m ++ u "-" ++ pad2 d ++ u "-" ++ t) (u "%m-%d-%Y") = None.
Proof.
  intros Hm Hd Ht. unfold strptime, rmatch_at.
  rewrite split_dash_Y, prefix_dash by assumption.
  rewrite short_Y by exact Ht. reflexivity.
Qed.

(** A month, a day and at most three digits of a year, with dashes between
    them, are no date to [parse_date_any]. *)
Lemma short_year_unparsed (m d : nat) (t : str) (l : char) :
  1 <= m <= 12 -> 1 <= d <= 31 -> List.length t < 3 ->
  forallb ascii_digit (t ++ [l]) = true ->
  parse_date_any U (pad2 m ++ u "-" ++ pad2 d ++ u "-" ++ t ++ [l])
  = pad2 m ++ u "-" ++ pad2 d ++ u "-" ++ t ++ [l].
Proof.
  intros Hm Hd Ht Hdig.
  assert (Hl : ascii_digit l = true).
  { rewrite forallb_app in Hdig. apply andb_true_iff in Hdig as [_ Hdig].
    simpl in Hdig. rewrite andb_true_r in Hdig. exact Hdig. }
  set (s := pad2 m ++ u "-" ++ pad2 d ++ u "-" ++ t ++ [l]).
  assert (Hs : strip U s = s).
  { unfold s, pad2. cbn [app u map list_ascii_of_string].
    apply (@strip_id U (digit_char (m / 10)) l
             (digit_char m :: N_of_ascii "-" :: digit_char (d / 10) :: digit_char d
              :: N_of_ascii "-" :: t));
      apply digit_not_space; [apply digit_char_digit | exact Hl]. }
  assert (Hlen : List.length (t ++ [l]) < 4) by (rewrite length_app; simpl; lia).
  assert (E1 : try_formats U s fmts = None).
  { rewrite fmts_eq. unfold s.
    rewrite try_formats_none
      by (apply (@slash_format_fails_on_dash U m _ "%m/%d/%Y"); [exact Hm | simpl; tauto]).
    rewrite try_formats_none by (apply short_year_fails; assumption).
    rewrite try_formats_none
      by (apply (@other_formats_fail_on_dash m _ "%Y-%m-%d"); [exact Hm | simpl; tauto]).
    rewrite try_formats_none
      by (apply (@slash_format_fails_on_dash U m _ "%m/%d/%y"); [exact Hm | simpl; tauto]).
    rewrite try_formats_none
      by (apply (@other_formats_fail_on_dash m _ "%b %d, %Y"); [exact Hm | simpl; tauto]).
    rewrite try_formats_none
      by (apply (@other_formats_fail_on_dash m _ "%B %d, %Y"); [exact Hm | simpl; tauto]).
    reflexivity. }
  assert (E2 : search U false re_iso s = None).
  { apply search_short. unfold s. rewrite !length_app. simpl List.length.
    change (min_len re_iso) with 10. rewrite length_app in Hlen. simpl in Hlen. lia. }
  assert (E3 : search U false re_us s = None).
  { apply (@search_needs_chr 47%N); [reflexivity|].
    unfold s, pad2. cbn [app u map list_ascii_of_string]. intro H.
    rewrite forallb_forall in Hdig.
    assert (D : forall n, digit_char n <> 47%N)
      by (intros n E; pose proof (digit_range _ (digit_char_digit n)); lia).
    repeat (destruct H as [H|H]; [first [exact (D _ H) | discriminate H]|]).
    apply Hdig in H. apply digit_range in H. lia. }
  unfold parse_date_any. cbv zeta. rewrite Hs.
  unfold search_and_parse. rewrite E1, E2, E3.
  unfold s, pad2. reflexivity.
Qed.

Lemma year_plain_digits (y : nat) :
  exists t l, year_plain y = t ++ [l] /\ List.length t < 3
              /\ forallb ascii_digit (t ++ [l]) = true.
Proof.
  unfold year_plain. destruct (y <? 10); [|destruct (y <? 100)].
  - exists [], (digit_char y). split; [reflexivity|]. split; [simpl; lia|].
    cbn [app forallb]. rewrite digit_char_digit. reflexivity.
  - exists [digit_char (y / 10)], (digit_char y). split; [reflexivity|].
    split; [simpl; lia|]. cbn [app forallb]. rewrite !digit_char_digit. reflexivity.
  - exists [digit_char (y / 100); digit_char (y / 10)], (digit_char y).
    split; [reflexivity|]. split; [simpl; lia|].
    cbn [app forallb]. rewrite !digit_char_digit. reflexivity.
Qed.

(** What [strftime] has written is left as it is: with four digits of the
    year it is read as the date it stands for, with fewer it is no date. *)
Lemma parse_canonical (dt : date) :
  valid_date (year dt) (month dt) (day dt) = true ->
  parse_date_any U (strftime_mdY U dt) = strftime_mdY U dt.
Proof.
  destruct dt as [y m d]. cbn [year month day]. intro Hv.
  pose proof (@parse_dash U y m d Hv) as P.
  unfold strftime_mdY, render_dash in *. cbn [year month day] in *.
  destruct ((1000 <=? y) || libc_fills_year U); [exact P|].
  destruct (valid_date_bounds _ _ _ Hv) as [_ [Hm Hd]].
  destruct (year_plain_digits y) as [t [l [-> [Ht Hdig]]]].
  apply short_year_unparsed; assumption.
Qed.

Lemma try_formats_canonical (s : str) (fs : list str) (r : str) :
  try_formats U s fs = Some r ->
  exists dt, valid_date (year dt) (month dt) (day dt) = true /\ r = strftime_mdY U dt.
Proof.
  induction fs as [|f fs IH]; [discriminate|]. cbn [try_formats].
  destruct (strptime U s f) as [dt|] eqn:E; [|exact IH].
  intro H. injection H as <-. exists dt. split; [eapply strptime_valid; exact E | reflexivity].
Qed.

Lemma search_and_parse_canonical (r : regex) (fmt : string) (s res : str) :
  search_and_parse U r fmt s = Some res ->
  exists dt, valid_date (year dt) (month dt) (day dt) = true /\ res = strftime_mdY U dt.
Proof.
  unfold search_and_parse. destruct (search U false r s) as [m|]; [|discriminate].
  destruct (strptime U (group0 s m) (u fmt)) as [dt|] eqn:E; [|discriminate].
  intro H. injection H as <-. exists dt. split; [eapply strptime_valid; exact E | reflexivity].
Qed.

(** What [parse_date_any] returns: the canonical form of a date of the
    calendar, or its argument without the white space around it. *)
Lemma parse_date_any_cases (s : str) :
  (exists dt, valid_date (year dt) (month dt) (day dt) = true
              /\ parse_date_any U s = strftime_mdY U dt)
  \/ (parse_date_any U s = strip U s
      /\ try_formats U (strip U s) fmts = None
      /\ search_and_parse U re_iso "%Y-%m-%d" (strip U s) = None
      /\ search_and_parse U re_us "%m/%d/%Y" (strip U s) = None).
Proof.
  destruct s as [|c t].
  - right. repeat split; vm_compute; reflexivity.
  - unfold parse_date_any. cbv zeta.
    destruct (try_formats U (strip U (c :: t)) fmts) as [r|] eqn:E1.
    { left. apply try_formats_canonical in E1. exact E1. }
    destruct (search_and_parse U re_iso "%Y-%m-%d" (strip U (c :: t))) as [r|] eqn:E2.
    { left. apply search_and_parse_canonical in E2. exact E2. }
    destruct (search_and_parse U re_us "%m/%d/%Y" (strip U (c :: t))) as [r|] eqn:E3.
    { left. apply search_and_parse_canonical in E3. exact E3. }
    right. repeat split.
Qed.

(** X11.  [parse_date_any] returns what [strftime] writes for a date of the
    calendar, the month, the day and the year with dashes between them (the
    year with four digits from 1000 on, below as the C library has it), or
    its argument without the white space around it; and it does nothing to
    what it returns: a date it has written stays as it is, and so does a
    string it has returned as it was. *)
Lemma parse_date_any_idempotent (s : str) :
  ((exists dt, valid_date (year dt) (month dt) (day dt) = true
               /\ parse_date_any U s = strftime_mdY U dt)
   \/ parse_date_any U s = strip U s)
  /\ parse_date_any U (parse_date_any U s) = parse_date_any U s.
Proof.
  destruct (parse_date_any_cases s) as [[dt [Hv E]]|[E [E1 [E2 E3]]]].
  - split; [left; exists dt; split; assumption|].
    rewrite E. apply parse_canonical, Hv.
  - split; [right; exact E|].
    rewrite E. pose proof (strip_strip U s) as Hs.
    destruct (strip U s) as [|c t]; [reflexivity|].
    unfold parse_date_any. cbv zeta. rewrite Hs, E1, E2, E3. reflexivity.
Qed.

End ParseTwice.

(* ------------------------------------------------------------------ *)
(** ** The hearing date of a popup *)

Lemma run_over_state (st : mstate) (w rest : str) :
  m_rest st = w ++ rest ->
  m_rest (run_over st w) = rest
  /\ m_pos (run_over st w) = m_pos st + List.length w
  /\ m_caps (run_over st w) = m_caps st.
Proof.
  revert st. induction w as [|c w IH]; intros st H.
  - simpl. repeat split; [exact H | lia].
  - cbn [run_over]. destruct (IH (advance st c (skipn 1 (m_rest st)))) as [H1 [H2 H3]].
    + rewrite H. reflexivity.
    + rewrite H1, H2, H3. simpl. repeat split. lia.
Qed.

(** A greedy repetition of a matcher for one character of a class [P], on
    a run [w] of such characters that ends the string or is followed by a
    character outside [P]: it takes the whole run, when the rest of the
    pattern matches behind it. *)
Lemma greedy_run (P : char -> bool)
      (m : mstate -> (mstate -> option mstate) -> option mstate)
      (lo : nat) (k : mstate -> option mstate) (w rest : str) :
  (forall st k, m st k = match m_rest st with
                         | c :: t => if P c then k (advance st c t) else None
                         | [] => None
                         end) ->
  forallb P w = true ->
  head_free P rest = true ->
  forall fuel cnt st,
    m_rest st = w ++ rest ->
    List.length w <= fuel ->
    lo <= cnt + List.length w ->
    k (run_over st w) <> None ->
    rep_loop m lo None k fuel cnt st = k (run_over st w).
Proof.
  intros Hm Hw Hrest. induction w as [|c w IH]; intros fuel cnt st Hst Hf Hlo Hk.
  - simpl in *. assert (Hstop : (lo <=? cnt) = true) by (apply Nat.leb_le; lia).
    destruct fuel as [|fuel]; cbn [rep_loop]; rewrite Hstop; [reflexivity|].
    rewrite Hm, Hst. destruct rest as [|x rest]; [reflexivity|].
    simpl in Hrest. apply negb_true_iff in Hrest. rewrite Hrest. reflexivity.
  - simpl in Hw. apply andb_true_iff in Hw as [Hc Hw].
    destruct fuel as [|fuel]; [simpl in Hf; lia|].
    cbn [rep_loop run_over]. rewrite Hm, Hst. cbn [app]. rewrite Hc.
    replace (m_pos st <? m_pos (advance st c (w ++ rest))) with true
      by (symmetry; apply Nat.ltb_lt; simpl; lia).
    cbn [skipn]. cbn [run_over] in Hk. rewrite Hst in Hk. cbn [app skipn] in Hk.
    rewrite (IH Hw fuel (S cnt) (advance st c (w ++ rest)));
      [ | reflexivity | simpl in Hf; lia | simpl in Hlo; lia | exact Hk ].
    destruct (k (run_over (advance st c (w ++ rest)) w)); [reflexivity | contradiction].
Qed.

Section HearingDate.

Variable U : unicode_db.

Lemma space_class (ic : bool) (st : mstate) (k : mstate -> option mstate) :
  rmatch U ic cls_s st k
  = match m_rest st with
    | c :: t => if isspace U c then k (advance st c t) else None
    | [] => None
    end.
Proof.
  unfold cls_s. cbn [rmatch]. destruct (m_rest st) as [|c t]; [reflexivity|].
  unfold set_match. cbn [existsb item_match]. rewrite orb_false_r. reflexivity.
Qed.

Lemma not_newline_class (ic : bool) (st : mstate) (k : mstate -> option mstate) :
  rmatch U ic (NoneOf [IChar c_newline]) st k
  = match m_rest st with
    | c :: t => if not_newline c then k (advance st c t) else None
    | [] => None
    end.
Proof.
  cbn [rmatch]. destruct (m_rest st) as [|c t]; [reflexivity|].
  unfold set_match, not_newline. cbn [existsb item_match]. rewrite orb_false_r.
  unfold chr_match. change (ascii_alpha c_newline) with false. rewrite andb_false_r.
  destruct (c =? c_newline)%N; reflexivity.
Qed.

(** The words "Hearing Date:" at the front. *)
Lemma hearing_prefix (pos : nat) (prev : option char) (rest : str)
      (caps : list (nat * (nat * nat))) (k : mstate -> option mstate) :
  rmatch U true (lit "Hearing Date:") (MState pos prev (u "Hearing Date:" ++ rest) caps) k
  = k (MState (13 + pos) (Some (ch ":")) rest caps).
Proof. vm_compute. reflexivity. Qed.

(** The date of a popup that starts with "Hearing Date:", white space
    and a value that goes to the end of the line is the value without the
    white space around it. *)
Lemma the_date_of_line (sp value rest : str) :
  forallb (isspace U) sp = true ->
  value <> [] -> head_ok U value = true ->
  forallb not_newline value = true -> ends_line rest = true ->
  the_date U (u "Hearing Date:" ++ sp ++ value ++ rest) = strip U value.
Proof.
  intros Hsp Hne Hhead Hval Hrest.
  assert (Hfree : head_free not_newline rest = true).
  { destruct rest as [|c r]; [reflexivity|]. simpl in *. unfold not_newline.
    rewrite Hrest. reflexivity. }
  set (text := u "Hearing Date:" ++ sp ++ value ++ rest).
  set (st1 := MState 13 (Some (ch ":")) (sp ++ value ++ rest) []).
  set (st2 := run_over st1 sp).
  set (st3 := run_over st2 value).
  destruct (@run_over_state st1 sp (value ++ rest) eq_refl) as [R2 [P2 C2]].
  fold st2 in R2, P2, C2.
  destruct (@run_over_state st2 value rest R2) as [R3 [P3 C3]].
  fold st3 in R3, P3, C3.
  assert (Hgroup : rmatch U true (Grp 1 (plus (NoneOf [IChar c_newline]))) st2 Some
                   = Some (set_cap 1 (m_pos st2) (m_pos st3) st3)).
  { cbn [rmatch plus]. 
    rewrite (@greedy_run not_newline _ 1 _ value rest (not_newline_class true) Hval Hfree);
      [reflexivity | exact R2 | rewrite R2, length_app; lia | | discriminate].
    destruct value; [contradiction | simpl; lia]. }
  assert (Hmatch : rmatch_at U true re_hearing_date 0 None text
                   = Some (set_cap 1 (m_pos st2) (m_pos st3) st3)).
  { unfold rmatch_at, re_hearing_date, start_state, text. cbn [seq rmatch].
    rewrite hearing_prefix. cbn [Nat.add]. fold st1. unfold star.
    cbn [rmatch].
    rewrite (@greedy_run (isspace U) _ 0 _ sp (value ++ rest) (space_class true) Hsp);
      fold st2.
    - exact Hgroup.
    - destruct value as [|c v]; [contradiction|]. exact Hhead.
    - reflexivity.
    - unfold st1. cbn [m_rest]. rewrite length_app. lia.
    - lia.
    - cbn [rmatch plus] in Hgroup. cbn [rmatch plus]. rewrite Hgroup. discriminate. }
  unfold the_date, search.
  assert (Hsearch : search_from U true re_hearing_date 0 None text
                    = Some (0, set_cap 1 (m_pos st2) (m_pos st3) st3)).
  { destruct text; cbn [search_from]; rewrite Hmatch; reflexivity. }
  rewrite Hsearch. cbn [snd]. unfold group, set_cap. cbn [m_caps get_cap Nat.eqb].
  assert (Hskip : skipn (13 + List.length sp) text = value ++ rest).
  { unfold text. rewrite app_assoc.
    replace (13 + List.length sp) with (List.length (u "Hearing Date:" ++ sp))
      by (rewrite length_app; reflexivity).
    rewrite skipn_app, skipn_all, Nat.sub_diag. reflexivity. }
  unfold substr. rewrite P3, P2. change (m_pos st1) with 13.
  replace (13 + List.length sp + List.length value - (13 + List.length sp))
    with (List.length value) by lia.
  rewrite Hskip, firstn_app, firstn_all, Nat.sub_diag. cbn [firstn]. rewrite app_nil_r.
  reflexivity.
Qed.

Lemma digit_not_newline (n : nat) : not_newline (digit_char n) = true.
Proof.
  unfold not_newline. apply negb_true_iff, N.eqb_neq.
  pose proof (digit_range _ (digit_char_digit n)). unfold c_newline. lia.
Qed.

Lemma render_slash_line (dt : date) : forallb not_newline (render_slash dt) = true.
Proof.
  unfold render_slash, pad2, pad4. cbn [app u forallb map list_ascii_of_string].
  rewrite !digit_not_newline. reflexivity.
Qed.

Lemma render_slash_stripped (dt : date) : strip U (render_slash dt) = render_slash dt.
Proof.
  destruct dt as [y m d].
  apply (@strip_id U (digit_char (m / 10)) (digit_char y)
           [digit_char m; 47%N; digit_char (d / 10); digit_char d; 47%N;
            digit_char (y / 1000); digit_char (y / 100); digit_char (y / 10)]);
    apply digit_not_space, digit_char_digit.
Qed.

(** X12.  A popup that starts with "Hearing Date:" and a date in the form
    MM/DD/YYYY, alone on its line, is in the range exactly when the date is
    neither before the start nor after the end: the two ends belong to the
    range.  The identifiers of the popup are taken then, and only then. *)
Lemma dated_popup_in_range (s e : date) (y m d : nat) (sp rest : str) :
  valid_date y m d = true -> forallb (isspace U) sp = true -> ends_line rest = true ->
  in_date_range U s e (u "Hearing Date:" ++ sp ++ render_slash (Date y m d) ++ rest)
  = date_leb s (Date y m d) && date_leb (Date y m d) e
  /\ forall acc,
       visit_cell U s e acc
         (Some (u "Hearing Date:" ++ sp ++ render_slash (Date y m d) ++ rest))
       = if date_leb s (Date y m d) && date_leb (Date y m d) e
         then fold_left (fun a_numbers a => set_add a a_numbers)
                (popup_anums U (u "Hearing Date:" ++ sp ++ render_slash (Date y m d) ++ rest))
                acc
         else acc.
Proof.
  intros Hv Hsp Hrest.
  assert (E : in_date_range U s e
                (u "Hearing Date:" ++ sp ++ render_slash (Date y m d) ++ rest)
              = date_leb s (Date y m d) && date_leb (Date y m d) e).
  { unfold in_date_range. rewrite the_date_of_line; try assumption.
    - rewrite render_slash_stripped, (@strptime_slash U y m d Hv). reflexivity.
    - discriminate.
    - simpl. rewrite (digit_not_space U _ (digit_char_digit _)). reflexivity.
    - apply render_slash_line. }
  split; [exact E|]. intro acc. cbn [visit_cell]. rewrite E. reflexivity.
Qed.

End HearingDate.

(* ------------------------------------------------------------------ *)
(** ** The name a row gives its file *)

Section RowNames.

Variable U : unicode_db.
Variable download_dir : path.


End RowNames.

(* ------------------------------------------------------------------ *)
(** ** The download directory is made *)

Lemma prefixes_snoc (q : path) (c : str) : prefixes (q ++ [c]) = prefixes q ++ [q ++ [c]].
Proof.
  unfold prefixes. rewrite length_app. cbn [List.length].
  replace (List.length q + 1) with (S (List.length q)) by lia.
  rewrite seq_S, map_app. cbn [map]. f_equal.
  - apply map_ext_in. intros k Hk. apply in_seq in Hk.
    rewrite firstn_app. replace (k - List.length q) with 0 by lia.
    cbn [firstn]. apply app_nil_r.
  - f_equal. apply firstn_all2. rewrite length_app. simpl. lia.
Qed.

Lemma prefixes_length (p x : path) : In x (prefixes p) -> 1 <= List.length x <= List.length p.
Proof.
  unfold prefixes. rewrite in_map_iff. intros [k [<- Hk]]. apply in_seq in Hk.
  rewrite length_firstn. lia.
Qed.

Lemma prefixes_self (p : path) : p <> [] -> In p (prefixes p).
Proof.
  intro H. unfold prefixes. apply in_map_iff. exists (List.length p). split.
  - apply firstn_all.
  - apply in_seq. destruct p; [contradiction | simpl; lia].
Qed.

Lemma firstn_prefixes (p : path) (k : nat) : firstn k p = [] \/ In (firstn k p) (prefixes p).
Proof.
  destruct k as [|k]; [left; reflexivity|].
  destruct p as [|c p]; [left; reflexivity|]. right.
  destruct (Nat.le_gt_cases (S k) (List.length (c :: p))) as [H|H].
  - unfold prefixes. apply in_map_iff. exists (S k). split; [reflexivity|].
    apply in_seq. lia.
  - rewrite firstn_all2 by lia. apply prefixes_self. discriminate.
Qed.

Lemma is_dir_snoc (g : filesys) (q : path) (c : str) :
  is_dir g (q ++ [c]) = mem_path (q ++ [c]) (fs_dirs g).
Proof. destruct q; reflexivity. Qed.

Lemma same_fs (g : filesys) : FS (fs_files g) (fs_dirs g ++ []) = g.
Proof. destruct g. simpl. rewrite app_nil_r. reflexivity. Qed.

Section EnsureDir.

Variable fs : filesys.
Hypothesis Hwf : well_formed fs = true.

Lemma file_in_dir (q : path) :
  mem_path q (fs_files fs) = true ->
  q <> [] /\ is_dir fs (parent q) = true /\ is_dir fs q = false.
Proof.
  intro H. apply mem_path_In in H.
  unfold well_formed in Hwf. apply andb_true_iff in Hwf as [Hf _].
  rewrite forallb_forall in Hf. specialize (Hf q H).
  apply andb_true_iff in Hf as [Hf H3]. apply andb_true_iff in Hf as [H1 H2].
  repeat split; [destruct q; [discriminate | discriminate] | exact H2 |].
  apply negb_true_iff, H3.
Qed.

Lemma dir_in_dir (q : path) : is_dir fs q = true -> is_dir fs (parent q) = true.
Proof.
  destruct q as [|c q]; [intros _; reflexivity|]. intro H.
  unfold is_dir in H. apply mem_path_In in H.
  unfold well_formed in Hwf. apply andb_true_iff in Hwf as [_ Hd].
  rewrite forallb_forall in Hd. apply Hd, H.
Qed.

Lemma dir_prefix (q : path) (k : nat) : is_dir fs q = true -> is_dir fs (firstn k q) = true.
Proof.
  intro H.
  assert (G : forall d k, List.length q - k = d -> is_dir fs (firstn k q) = true).
  { induction d as [|d IH]; intros j Hj.
    - rewrite firstn_all2 by lia. exact H.
    - rewrite <- (removelast_firstn (n := j)) by lia.
      apply dir_in_dir, IH. lia. }
  apply (G (List.length q - k) k). reflexivity.
Qed.

Lemma walk_none (g : filesys) (seen rest : path) :
  is_dir g seen = true -> walk g seen rest = None -> is_dir g (seen ++ rest) = true.
Proof.
  revert seen. induction rest as [|c t IH]; intros seen Hs H.
  - rewrite app_nil_r. exact Hs.
  - cbn [walk] in H. destruct (is_dir g (seen ++ [c])) eqn:E.
    + change (c :: t) with ([c] ++ t). rewrite app_assoc. apply IH; assumption.
    + destruct (mem_path _ _); discriminate.
Qed.

Lemma walk_dirs (g : filesys) (seen rest : path) :
  (forall k, is_dir g (seen ++ firstn k rest) = true) -> walk g seen rest = None.
Proof.
  revert seen. induction rest as [|c t IH]; intros seen H; [reflexivity|].
  cbn [walk]. pose proof (H 1) as H1. cbn [firstn] in H1. rewrite H1. apply IH. intro k.
  rewrite <- app_assoc. apply (H (S k)).
Qed.

Lemma walk_not_a_directory (g : filesys) (seen rest : path) :
  walk g seen rest = Some NotADirectoryError ->
  exists k, 1 <= k <= List.length rest /\ mem_path (seen ++ firstn k rest) (fs_files g) = true.
Proof.
  revert seen. induction rest as [|c t IH]; intros seen H; [discriminate|].
  cbn [walk] in H. destruct (is_dir g (seen ++ [c])).
  - apply IH in H as [k [Hk H]]. exists (S k). split; [simpl; lia|].
    rewrite <- app_assoc in H. exact H.
  - destruct (mem_path (seen ++ [c]) (fs_files g)) eqn:E; [|discriminate].
    exists 1. split; [simpl; lia | exact E].
Qed.

Lemma walk_never_exists (g : filesys) (seen rest : path) :
  walk g seen rest <> Some FileExistsError.
Proof.
  revert seen. induction rest as [|c t IH]; intros seen; [discriminate|].
  cbn [walk]. destruct (is_dir g (seen ++ [c])); [apply IH|].
  destruct (mem_path _ _); discriminate.
Qed.

Lemma walk_dir (q : path) : is_dir fs q = true -> walk fs [] q = None.
Proof. intro H. apply walk_dirs. intro k. apply dir_prefix, H. Qed.

Lemma dirs_not_blocked (q : path) : is_dir fs q = true -> blocked fs q = false.
Proof.
  intro H. unfold blocked. destruct (existsb _ _) eqn:E; [|reflexivity].
  apply existsb_exists in E as [x [Hx Hf]].
  unfold prefixes in Hx. apply in_map_iff in Hx as [k [<- _]].
  apply file_in_dir in Hf as [_ [_ Hf]]. rewrite dir_prefix in Hf by exact H. discriminate.
Qed.

Lemma dirs_not_missing (q : path) : is_dir fs q = true -> missing fs q = [].
Proof.
  intro H. unfold missing. apply no_In_nil. intros x Hx. apply filter_In in Hx as [Hx Hn].
  unfold prefixes in Hx. apply in_map_iff in Hx as [k [<- _]].
  rewrite dir_prefix in Hn by exact H. discriminate.
Qed.

Lemma blocked_snoc (q : path) (c : str) :
  blocked fs (q ++ [c]) = blocked fs q || mem_path (q ++ [c]) (fs_files fs).
Proof. unfold blocked. rewrite prefixes_snoc, existsb_app. simpl. rewrite orb_false_r. reflexivity. Qed.

Lemma missing_snoc (q : path) (c : str) :
  missing fs (q ++ [c])
  = missing fs q ++ (if is_dir fs (q ++ [c]) then [] else [q ++ [c]]).
Proof.
  unfold missing. rewrite prefixes_snoc, filter_app. simpl.
  destruct (is_dir fs (q ++ [c])); reflexivity.
Qed.

Lemma snoc_neq (q : path) (c : str) : path_eqb q (q ++ [c]) = false.
Proof.
  destruct (path_eqb q (q ++ [c])) eqn:E; [|reflexivity].
  apply path_eqb_eq in E. apply (f_equal (@List.length str)) in E.
  rewrite length_app in E. simpl in E. lia.
Qed.

(** What [mkdir] with [parents] and [exist_ok] does: nothing but an
    exception when a regular file is in the way, else the directories that
    are missing on the way, from the top down. *)
Lemma mkdir_parents (p : path) :
  forall fuel, List.length p <= fuel ->
    mkdir fuel true true fs p
    = if blocked fs p then None
      else Some (FS (fs_files fs) (fs_dirs fs ++ missing fs p)).
Proof.
  induction p as [|c q IH] using rev_ind; intros fuel Hfuel.
  - assert (E : os_mkdir fs [] = inr FileExistsError).
    { unfold os_mkdir, path_exists. cbn [parent removelast walk is_dir].
      rewrite orb_true_r. reflexivity. }
    destruct fuel; cbn [mkdir]; rewrite E; cbn [is_dir negb orb]; unfold blocked, missing;
      cbn [prefixes List.length List.seq map existsb filter]; rewrite same_fs; reflexivity.
  - rewrite length_app in Hfuel. simpl in Hfuel.
    destruct fuel as [|fuel]; [lia|].
    cbn [mkdir]. unfold os_mkdir. rewrite parent_snoc.
    rewrite blocked_snoc, missing_snoc.
    destruct (walk fs [] q) as [[| |]|] eqn:W.
    + exfalso. exact (walk_never_exists _ _ _ W).
    + (* the directory above is not there *)
      assert (Hq : is_dir fs q = false).
      { destruct (is_dir fs q) eqn:E; [|reflexivity]. rewrite walk_dir in W by exact E.
        discriminate. }
      assert (Hp : is_dir fs (q ++ [c]) = false).
      { destruct (is_dir fs (q ++ [c])) eqn:E; [|reflexivity].
        apply dir_in_dir in E. rewrite parent_snoc in E. congruence. }
      assert (Hf : mem_path (q ++ [c]) (fs_files fs) = false).
      { destruct (mem_path (q ++ [c]) (fs_files fs)) eqn:E; [|reflexivity].
        apply file_in_dir in E as [_ [E _]]. rewrite parent_snoc in E. congruence. }
      rewrite Hp, Hf, orb_false_r, snoc_neq. cbn [negb orb].
      rewrite IH by lia. destruct (blocked fs q) eqn:B; [reflexivity|].
      set (fs1 := FS (fs_files fs) (fs_dirs fs ++ missing fs q)).
      assert (Hdirs : forall x, x = [] \/ In x (prefixes q) -> is_dir fs1 x = true).
      { intros x [->|Hx]; [reflexivity|]. destruct x as [|a x]; [reflexivity|].
        unfold is_dir, fs1. cbn [fs_dirs]. apply mem_path_In, in_or_app.
        destruct (is_dir fs (a :: x)) eqn:E.
        - left. apply mem_path_In. exact E.
        - right. unfold missing. apply filter_In. split; [exact Hx|]. rewrite E. reflexivity. }
      assert (W1 : walk fs1 [] q = None).
      { apply walk_dirs. intro k. apply Hdirs, firstn_prefixes. }
      assert (E1 : path_exists fs1 (q ++ [c]) = false).
      { unfold path_exists. cbn [fs_files fs1]. rewrite Hf. cbn [orb].
        destruct (is_dir fs1 (q ++ [c])) eqn:E; [|reflexivity].
        rewrite is_dir_snoc in E, Hp. apply mem_path_In in E. cbn [fs_dirs fs1] in E.
        apply in_app_or in E as [E|E].
        - apply mem_path_In in E. congruence.
        - unfold missing in E. apply filter_In in E as [E _]. apply prefixes_length in E.
          rewrite length_app in E. simpl in E. lia. }
      destruct fuel as [|fuel]; cbn [mkdir]; unfold os_mkdir; rewrite parent_snoc, W1, E1;
        cbn [fs_files fs_dirs fs1]; rewrite <- app_assoc; reflexivity.
    + (* a regular file above *)
      apply walk_not_a_directory in W as [k [Hk W]]. cbn [app] in W.
      assert (B : blocked fs q = true).
      { unfold blocked. apply existsb_exists. exists (firstn k q). split; [|exact W].
        unfold prefixes. apply in_map_iff. exists k. split; [reflexivity|].
        apply in_seq. lia. }
      rewrite B. cbn [orb negb].
      destruct (is_dir fs (q ++ [c])) eqn:E; [|reflexivity].
      apply file_in_dir in W as [_ [_ W]].
      pose proof (dir_prefix (q ++ [c]) k E) as D.
      rewrite firstn_app in D. replace (k - List.length q) with 0 in D by lia.
      cbn [firstn] in D. rewrite app_nil_r in D. congruence.
    + (* the directory above is there *)
      assert (Hq : is_dir fs q = true) by (apply (walk_none fs [] q eq_refl W)).
      rewrite (dirs_not_blocked q Hq), (dirs_not_missing q Hq). cbn [orb app].
      unfold path_exists.
      destruct (mem_path (q ++ [c]) (fs_files fs)) eqn:F.
      * apply file_in_dir in F as [_ [_ F]]. rewrite F. reflexivity.
      * destruct (is_dir fs (q ++ [c])) eqn:E; cbn [orb negb].
        -- rewrite same_fs. reflexivity.
        -- reflexivity.
Qed.

End EnsureDir.

Lemma is_dir_more (g : filesys) (extra : list path) (x : path) :
  is_dir g x = true -> is_dir (FS (fs_files g) (fs_dirs g ++ extra)) x = true.
Proof.
  destruct x as [|a x]; [reflexivity|]. unfold is_dir. cbn [fs_dirs]. intro H.
  apply mem_path_In, in_or_app. left. apply mem_path_In, H.
Qed.

Lemma is_dir_made (g : filesys) (p x : path) :
  x = [] \/ In x (prefixes p) ->
  is_dir (FS (fs_files g) (fs_dirs g ++ missing g p)) x = true.
Proof.
  intros [->|Hx]; [reflexivity|]. destruct (is_dir g x) eqn:E; [apply is_dir_more, E|].
  destruct x as [|a x]; [reflexivity|].
  unfold is_dir. cbn [fs_dirs]. apply mem_path_In, in_or_app. right.
  unfold missing. apply filter_In. split; [exact Hx|]. rewrite E. reflexivity.
Qed.

Lemma parent_prefix (p x : path) :
  In x (prefixes p) -> parent x = [] \/ In (parent x) (prefixes p).
Proof.
  unfold prefixes at 1. rewrite in_map_iff. intros [k [<- Hk]]. apply in_seq in Hk.
  destruct k as [|k]; [lia|]. unfold parent. rewrite removelast_firstn by lia.
  apply firstn_prefixes.
Qed.

(** What [ensure_dir] leaves when no regular file is in the way. *)
Lemma ensure_dir_made (fs : filesys) (p : path) :
  well_formed fs = true -> blocked fs p = false ->
  ensure_dir fs p = Some (FS (fs_files fs) (fs_dirs fs ++ missing fs p))
  /\ is_dir (FS (fs_files fs) (fs_dirs fs ++ missing fs p)) p = true
  /\ well_formed (FS (fs_files fs) (fs_dirs fs ++ missing fs p)) = true
  /\ ensure_dir (FS (fs_files fs) (fs_dirs fs ++ missing fs p)) p
     = Some (FS (fs_files fs) (fs_dirs fs ++ missing fs p)).
Proof.
  intros Hwf B.
  assert (E : ensure_dir fs p = Some (FS (fs_files fs) (fs_dirs fs ++ missing fs p)))
    by (unfold ensure_dir; rewrite (@mkdir_parents fs Hwf p) by apply le_n;
        rewrite B; reflexivity).
  set (fs' := FS (fs_files fs) (fs_dirs fs ++ missing fs p)) in *.
  assert (Hp : is_dir fs' p = true).
  { destruct p as [|c p]; [reflexivity|]. apply is_dir_made. right.
    apply prefixes_self. discriminate. }
  assert (Hwf' : well_formed fs' = true).
  { unfold well_formed. apply andb_true_iff. split; apply forallb_forall; intros q Hq.
    - cbn [fs_files fs'] in Hq. apply mem_path_In in Hq.
      destruct (@file_in_dir fs Hwf q Hq) as [H1 [H2 H3]].
      apply andb_true_iff. split; [apply andb_true_iff; split|].
      + destruct q; [contradiction | reflexivity].
      + apply is_dir_more, H2.
      + apply negb_true_iff. destruct (is_dir fs' q) eqn:D; [|reflexivity].
        destruct q as [|a q]; [contradiction|]. unfold is_dir in D. cbn [fs_dirs fs'] in D.
        apply mem_path_In, in_app_or in D as [D|D].
        * apply mem_path_In in D. unfold is_dir in H3. congruence.
        * unfold missing in D. apply filter_In in D as [D _].
          assert (B' : blocked fs p = true)
            by (unfold blocked; apply existsb_exists; exists (a :: q); split; assumption).
          congruence.
    - cbn [fs_dirs fs'] in Hq. apply in_app_or in Hq as [Hq|Hq].
      + apply is_dir_more. apply (@dir_in_dir fs Hwf).
        destruct q as [|a q]; [reflexivity|]. apply mem_path_In, Hq.
      + unfold missing in Hq. apply filter_In in Hq as [Hq _].
        apply is_dir_made, parent_prefix, Hq. }
  split; [exact E|]. split; [exact Hp|]. split; [exact Hwf'|].
  unfold ensure_dir. rewrite (@mkdir_parents fs' Hwf' p) by apply le_n.
  replace (blocked fs' p) with false by (symmetry; exact B).
  rewrite (@dirs_not_missing fs' Hwf' p Hp). f_equal. apply same_fs.
Qed.

(** X13.  [ensure_dir] on a file system as the operating system keeps it.  It
    raises when a regular file is in the way to the directory, and only
    then; else it makes the directories that are missing on the way, from
    the top down, and nothing else: the files stay, what was a directory is
    one, the directory asked for is one, and a second call changes
    nothing. *)
Lemma ensure_dir_spec (fs : filesys) (p : path) :
  well_formed fs = true ->
  ensure_dir fs p
  = (if blocked fs p then None else Some (FS (fs_files fs) (fs_dirs fs ++ missing fs p)))
  /\ forall fs',
       ensure_dir fs p = Some fs' ->
       fs_files fs' = fs_files fs
       /\ is_dir fs' p = true
       /\ (forall q, is_dir fs q = true -> is_dir fs' q = true)
       /\ well_formed fs' = true
       /\ ensure_dir fs' p = Some fs'.
Proof.
  intro Hwf.
  assert (E : ensure_dir fs p
              = if blocked fs p then None
                else Some (FS (fs_files fs) (fs_dirs fs ++ missing fs p)))
    by (apply (@mkdir_parents fs Hwf p); apply le_n).
  split; [exact E|]. intros fs' H. rewrite E in H.
  destruct (blocked fs p) eqn:B; [discriminate|]. injection H as <-.
  destruct (@ensure_dir_made fs p Hwf B) as [_ [Hp [Hwf' Hagain]]].
  split; [reflexivity|]. split; [exact Hp|]. split; [intros q Hq; apply is_dir_more, Hq|].
  split; assumption.
Qed.




(* ------------------------------------------------------------------ *)
(** ** A run of main *)




Section MainProperties.

Variable U : unicode_db.



Lemma harvest_keeps (download_dir : path) (cases : list (str * list doc_row)) (st : hstate) :
  (forall q, In q (fs_files (h_fs st)) ->
             In q (fs_files (h_fs (harvest U download_dir cases st))))
  /\ fs_dirs (h_fs (harvest U download_dir cases st)) = fs_dirs (h_fs st).
Proof.
  unfold harvest. revert st. induction cases as [|c cases IH]; intro st; [split; auto|].
  cbn [fold_left].
  destruct (download_case_docs_keeps U download_dir (fst c) (snd c) st) as [Hf Hd].
  destruct (IH (download_case_docs U download_dir (fst c) (snd c) st)) as [Hf' Hd'].
  split; [intros q Hq; apply Hf', Hf, Hq | rewrite Hd'; exact Hd].
Qed.

Lemma harvest_numbers (download_dir : path) (cases : list (str * list doc_row))
      (st : hstate) (rec : log_record) :
  In rec (h_log (harvest U download_dir cases st)) ->
  In rec (h_log st) \/ In (a_number rec) (map fst cases).
Proof.
  unfold harvest. revert st. induction cases as [|c cases IH]; intros st H; [left; exact H|].
  cbn [fold_left] in H. apply IH in H as [H|H]; [|right; right; exact H].
  destruct (download_case_docs_appends U download_dir (fst c) (snd c) st)
    as [added [Hlog [_ Hall]]].
  rewrite Hlog in H. apply in_app_or in H as [H|H]; [left; exact H|].
  right. left. rewrite Forall_forall in Hall. symmetry. apply Hall, H.
Qed.




(** X4.  What a case and a run leave as they are.  No file that was there
    is taken away, and the directories are those there were. *)
Lemma harvester_keeps_files (download_dir : path) :
  (forall anumber rows st,
      (forall q, In q (fs_files (h_fs st)) ->
                 In q (fs_files (h_fs (download_case_docs U download_dir anumber rows st))))
      /\ fs_dirs (h_fs (download_case_docs U download_dir anumber rows st))
         = fs_dirs (h_fs st))
  /\ (forall cases st,
        (forall q, In q (fs_files (h_fs st)) ->
                   In q (fs_files (h_fs (harvest U download_dir cases st))))
        /\ fs_dirs (h_fs (harvest U download_dir cases st)) = fs_dirs (h_fs st)).
Proof.
  split.
  - intros anumber rows st. apply download_case_docs_keeps.
  - intros cases st. apply harvest_keeps.
Qed.

(** X5.  A case only adds to the log.  The records there were stay as they
    are and where they are, at most one record per row comes after them,
    and each has the identifier of the case; so every record of a run has
    the identifier of one of its cases. *)
Lemma harvester_appends (download_dir : path) :
  (forall anumber rows st,
      exists added,
        h_log (download_case_docs U download_dir anumber rows st) = h_log st ++ added
        /\ List.length added <= List.length rows
        /\ Forall (fun rec => a_number rec = anumber) added)
  /\ (forall cases st rec,
        In rec (h_log (harvest U download_dir cases st)) ->
        In rec (h_log st) \/ In (a_number rec) (map fst cases)).
Proof.
  split.
  - intros anumber rows st. apply download_case_docs_appends.
  - intros cases st rec. apply harvest_numbers.
Qed.

(** X1.  The log of a run that starts with an empty log, the download
    directory being there, when no date of a row has a normal form with a
    slash: no two records have the same file name, and the file of every
    record is in the download directory under the name of the record. *)
Lemma run_log_consistent (download_dir : path) (fs : filesys)
      (cases : list (str * list doc_row)) :
  is_dir fs download_dir = true ->
  (forall c, In c cases -> plain_dates U (snd c)) ->
  log_consistent download_dir (harvest U download_dir cases (HState fs [])).
Proof.
  intros Hdir Hcases. apply harvest_consistent; [|exact Hcases].
  split; [exact Hdir|]. split; [constructor | intros rec []].
Qed.

End MainProperties.

(* ------------------------------------------------------------------ *)
(** ** The properties at concrete inputs *)

(** C5 at 5 March 2024. *)
Lemma C5_witness :
  valid_date 2024 3 5 = true /\ 1000 <= 2024
  /\ parse_date_any ucd (render_slash (Date 2024 3 5)) = strftime_mdY ucd (Date 2024 3 5).
Proof.
  assert (Hy : 1000 <= 2024) by (apply Nat.leb_le; vm_compute; reflexivity).
  split; [reflexivity|]. split; [exact Hy|].
  exact (proj1 (@C5_renderings_normalize ucd 2024 3 5 eq_refl Hy)).
Defined.

(** C7 at a popup whose hearing date reads "to be set". *)
Lemma C7_witness :
  strptime ucd (the_date ucd popup_no_date) (u "%m/%d/%Y") = None
  /\ in_date_range ucd (Date 2024 1 1) (Date 2024 12 31) popup_no_date = true.
Proof.
  split; [vm_compute; reflexivity|].
  apply (@C7_unparsed_date_in_range ucd (Date 2024 1 1) (Date 2024 12 31) popup_no_date).
  vm_compute. reflexivity.
Defined.


(** C9 at a portal whose first page has no control for the next month. *)
Lemma C9_witness :
  page_next (one_page_portal 0) = false
  /\ page_advances ucd one_page_portal (Date 2024 1 1) (Date 2024 12 31) = 0
  /\ iterate_hearings_collect_anums ucd one_page_portal (Date 2024 1 1) (Date 2024 12 31)
     = sorted (gathered ucd one_page_portal (Date 2024 1 1) (Date 2024 12 31) 0 1 []).
Proof.
  split; [reflexivity|].
  apply (proj2 (@C9_traversal_bounded ucd (Date 2024 1 1) (Date 2024 12 31) one_page_portal) 0);
    first [lia | reflexivity | intros q Hq; exfalso; lia].
Defined.

Example three_rows_two_records :
  map document_label
      (h_log (download_case_docs ucd out (u "123456789") three_rows (HState (FS [] [out]) [])))
  = [u "Order"; u "Brief"].
Proof. vm_compute. reflexivity. Qed.

Example one_page_portal_result :
  iterate_hearings_collect_anums ucd one_page_portal (Date 2024 1 1) (Date 2024 12 31)
  = [u "123456789"].
Proof. vm_compute. reflexivity. Qed.

Lemma three_rows_plain : plain_dates ucd three_rows.
Proof.
  intros r d Hr Hd. unfold three_rows in Hr.
  destruct Hr as [<-|[<-|[<-|[]]]]; injection Hd as <-; vm_compute; reflexivity.
Qed.

(** Every character of [s] has the property [P]. *)
Lemma all_chars (P : char -> bool) (s : str) :
  forallb P s = true -> forall c, In c s -> P c = true.
Proof. intro H. apply forallb_forall, H. Qed.

(** X1 at the three rows, in an empty download directory. *)
Lemma X1_witness :
  is_dir (FS [] [out]) out = true
  /\ log_consistent out (harvest ucd out [(u "123456789", three_rows)] (HState (FS [] [out]) [])).
Proof.
  split; [reflexivity|].
  apply (@run_log_consistent ucd out (FS [] [out]) [(u "123456789", three_rows)]);
    [reflexivity|].
  intros c [<-|[]]. exact three_rows_plain.
Defined.

(** X3 at the portal with one page. *)
Lemma X3_witness :
  Forall (fun a => List.length a = 9)
         (iterate_hearings_collect_anums ucd one_page_portal (Date 2024 1 1) (Date 2024 12 31)).
Proof.
  apply Forall_forall. intros a Ha.
  apply (@ascii_identifiers_nine ucd (Date 2024 1 1) (Date 2024 12 31) one_page_portal);
    [|exact Ha].
  intros p text c [E|[]] Hc Hd. injection E as <-.
  apply (@all_chars (fun c => implb (isdecimal ucd c) (ascii_digit c)) popup_no_date
           ltac:(vm_compute; reflexivity)) in Hc.
  rewrite Hd in Hc. exact Hc.
Defined.

(** X6 at March 2024 inside the year 2024. *)
Lemma X6_witness :
  date_leb (Date 2024 1 1) (Date 2024 3 1) = true
  /\ date_leb (Date 2024 3 31) (Date 2024 12 31) = true
  /\ Forall (fun a => In a (iterate_hearings_collect_anums ucd march_portal
                              (Date 2024 1 1) (Date 2024 12 31)))
            (iterate_hearings_collect_anums ucd march_portal (Date 2024 3 1) (Date 2024 3 31)).
Proof.
  split; [reflexivity|]. split; [reflexivity|]. apply Forall_forall.
  apply (proj1 (@wider_range_keeps_identifiers ucd march_portal
                  (Date 2024 3 1) (Date 2024 3 31) (Date 2024 1 1) (Date 2024 12 31)
                  eq_refl eq_refl)).
Defined.


(** X9 at a sentence without a date. *)
Lemma X9_witness : extract_relevant_dates_text ucd (u "Hearing set for tomorrow") = [].
Proof.
  apply (@no_digit_no_relevant_date ucd (u "Hearing set for tomorrow")).
  intros c Hc.
  apply (@all_chars (fun c => negb (isdecimal ucd c)) (u "Hearing set for tomorrow")
           ltac:(vm_compute; reflexivity)) in Hc.
  apply negb_true_iff, Hc.
Defined.

(** X12 at a hearing on the day the range starts and ends. *)
Lemma X12_witness :
  valid_date 2024 3 5 = true
  /\ in_date_range ucd (Date 2024 3 5) (Date 2024 3 5)
       (u "Hearing Date:" ++ u " " ++ render_slash (Date 2024 3 5)
        ++ nl ++ u "A# 123-456-789")
     = date_leb (Date 2024 3 5) (Date 2024 3 5) && date_leb (Date 2024 3 5) (Date 2024 3 5).
Proof.
  split; [reflexivity|].
  apply (proj1 (@dated_popup_in_range ucd (Date 2024 3 5) (Date 2024 3 5) 2024 3 5
                  (u " ") (nl ++ u "A# 123-456-789") eq_refl eq_refl eq_refl)).
Defined.

(** X13 at a download folder in the empty home directory. *)
Lemma X13_witness :
  well_formed empty_home = true
  /\ ensure_dir empty_home (home ++ out)
     = Some (FS [] [[u "home"]; home; home ++ out]).
Proof.
  split; [reflexivity|].
  exact (proj1 (@ensure_dir_spec empty_home (home ++ out) eq_refl)).
Defined.


Example main_example :
  option_map (fun r => (map filename_final (h_log (fst r)), snd r))
    (main ucd fine_session (u "2024-01-01") (u "2024-12-31") [] home one_page_portal
          (fun _ => Some three_rows) empty_home)
  = Some ([u "Order - NOTICE OF HEARING - 03-05-2024.pdf";
           u "Brief - RESPONDENT'S BRIEF - 03-07-2024.pdf"],
          home ++ out ++ [u "ecas_download_log_2024-01-01_2024-12-31.xlsx"]).
Proof. vm_compute. reflexivity. Qed.

(** A step of the browser that fails, or a case whose documents are not
    reached, ends [main] with an exception. *)
Example main_raises :
  main ucd (Session true true false true) (u "2024-01-01") (u "2024-12-31") [] home
       one_page_portal (fun _ => Some three_rows) empty_home = None
  /\ main ucd fine_session (u "2024-01-01") (u "2024-12-31") [] home
          one_page_portal (fun _ => None) empty_home = None.
Proof. split; vm_compute; reflexivity. Qed.

(** A date of the year 24, where the C library writes the year as it is:
    the year has two digits, and what is written is no date any more. *)
Example parse_date_any_early_year :
  parse_date_any ucd (u "03/05/0024") = u "03-05-24"
  /\ parse_date_any ucd (u "03-05-24") = u "03-05-24".
Proof. split; vm_compute; reflexivity. Qed.
